(** * fiesta: the electromagnetic likelihood ([fiesta.inference.likelihood])

    A shallow embedding of the class [EMLikelihood] of
    [src/fiesta/inference/likelihood.py] and the properties of its
    constructor, of [process_data] and of [evaluate].

    Numbers.  The arrays of the program hold IEEE doubles.  They are modelled
    by [Float.float]: the real numbers together with the three special
    values [+inf], [-inf] and [nan] the program tests for.  Arithmetic on
    finite values is exact (no rounding, no overflow, one zero), arithmetic
    on the special values follows IEEE 754.

    Containers.  A Python [dict] is an association list in insertion order
    with the update discipline of Python ([Dict.insert]); a one-dimensional
    array is a [list]; the [(n, 3)] observation array of one filter is an
    object that holds a list of rows, and an observation mapping gives every
    key the position of its array object, so that two keys may share one.

    Effects.  The constructor keeps the caller's list of filters and the
    caller's [fixed_params] by reference, deep-copies the caller's
    observation mapping and shifts the times of the copy in place, and
    [evaluate] receives the caller's [theta]; these objects live in a [heap]
    and the methods are written in a state-and-error monad over it.
    Exceptions are values of [error].

    The untruncated chi-square term is embedded a second time on IEEE
    doubles ([Double]), where the order of its operations shows.

    Training.  Of [src/fiesta/train/neuralnets.py] the file embeds the
    forward pass of the [MLP], [train_step], [train_loop] and [save_model];
    the loss with its gradient, the optimiser's update, [serialize] and the
    pickling are parameters of the sections that use them. *)

From Stdlib Require Import Reals Lra Lia String Ascii ZArith Bool List Permutation.
From Corelib Require PrimFloat.
Import ListNotations.

Set Implicit Arguments.

(** ** Idealised floating-point numbers *)

Module Float.

Local Open Scope R_scope.

Inductive float : Type :=
| Fin (x : R)
| PInf
| NInf
| NaN.

Definition Rltb (x y : R) : bool := if Rlt_dec x y then true else false.
Definition Reqb (x y : R) : bool := if Req_dec_T x y then true else false.

Definition zero : float := Fin 0.
Definition inf : float := PInf.

Definition neg (a : float) : float :=
  match a with
  | Fin x => Fin (- x)
  | PInf => NInf
  | NInf => PInf
  | NaN => NaN
  end.

Definition add (a b : float) : float :=
  match a, b with
  | NaN, _ | _, NaN => NaN
  | PInf, NInf | NInf, PInf => NaN
  | PInf, _ | _, PInf => PInf
  | NInf, _ | _, NInf => NInf
  | Fin x, Fin y => Fin (x + y)
  end.

Definition sub (a b : float) : float := add a (neg b).

(** [i] with the sign of [x]; [nan] when [x] is zero ([0 * inf]). *)
Definition with_sign (x : R) (i : float) : float :=
  if Rltb 0 x then i else if Rltb x 0 then neg i else NaN.

Definition mul (a b : float) : float :=
  match a, b with
  | NaN, _ | _, NaN => NaN
  | Fin x, Fin y => Fin (x * y)
  | Fin x, PInf | PInf, Fin x => with_sign x PInf
  | Fin x, NInf | NInf, Fin x => with_sign x NInf
  | PInf, PInf | NInf, NInf => PInf
  | PInf, NInf | NInf, PInf => NInf
  end.

Definition div (a b : float) : float :=
  match a, b with
  | NaN, _ | _, NaN => NaN
  | Fin x, Fin y => if Reqb y 0 then with_sign x PInf else Fin (x / y)
  | Fin _, PInf | Fin _, NInf => Fin 0
  | PInf, Fin y => if Rltb y 0 then NInf else PInf
  | NInf, Fin y => if Rltb y 0 then PInf else NInf
  | _, _ => NaN
  end.

(** [x ** 2] on floats is [x * x]. *)
Definition sqr (a : float) : float := mul a a.

Definition sqrt (a : float) : float :=
  match a with
  | Fin x => if Rltb x 0 then NaN else Fin (R_sqrt.sqrt x)
  | PInf => PInf
  | NInf | NaN => NaN
  end.

(** [a < b]. *)
Definition ltb (a b : float) : bool :=
  match a, b with
  | NaN, _ | _, NaN => false
  | Fin x, Fin y => Rltb x y
  | NInf, NInf => false
  | NInf, _ => true
  | PInf, _ => false
  | Fin _, PInf => true
  | Fin _, NInf => false
  end.

(** [a > b]. *)
Definition gtb (a b : float) : bool := ltb b a.

(** [a <= b]. *)
Definition leb (a b : float) : bool :=
  match a, b with
  | NaN, _ | _, NaN => false
  | Fin x, Fin y => negb (Rltb y x)
  | NInf, _ => true
  | _, PInf => true
  | PInf, _ => false
  | Fin _, NInf => false
  end.

(** [a == b]: [nan] differs from everything, itself included. *)
Definition eqb (a b : float) : bool :=
  match a, b with
  | Fin x, Fin y => Reqb x y
  | PInf, PInf => true
  | NInf, NInf => true
  | _, _ => false
  end.

(** [a != b]. *)
Definition neb (a b : float) : bool := negb (eqb a b).

(** [jnp.sum] of a one-dimensional array. *)
Definition sum (l : list float) : float := fold_right add zero l.

(** Element-wise operations on arrays of one shape, and of an array with a
    scalar. *)
Fixpoint map2 (f : float -> float -> float) (a b : list float) : list float :=
  match a, b with
  | x :: a', y :: b' => f x y :: map2 f a' b'
  | _, _ => []
  end.

End Float.


(** ** Exceptions and the error monad *)

Inductive error : Type :=
| KeyError (key : string)
| IndexError
| ValueError.

Inductive result (A : Type) : Type :=
| Ok (a : A)
| Err (e : error).

Arguments Ok {A} a.
Arguments Err {A} e.

Definition rbind {A B : Type} (r : result A) (k : A -> result B) : result B :=
  match r with
  | Ok a => k a
  | Err e => Err e
  end.

Declare Scope result_scope.
Delimit Scope result_scope with result.
Notation "x <- c ;; k" := (rbind c (fun x => k))
  (at level 61, c at next level, right associativity) : result_scope.
Notation "' pat <- c ;; k" := (rbind c (fun x => match x with pat => k end))
  (at level 61, pat pattern, c at next level, right associativity) : result_scope.

Fixpoint mapM {A B : Type} (f : A -> result B) (l : list A) : result (list B) :=
  match l with
  | [] => Ok []
  | x :: l' =>
      (y <- f x ;;
       ys <- mapM f l' ;;
       Ok (y :: ys))%result
  end.

(** ** Python dictionaries with string keys *)

Module Dict.

Definition dict (V : Type) : Type := list (string * V).

Section Ops.
Variable V : Type.

Fixpoint lookup (k : string) (d : dict V) : option V :=
  match d with
  | [] => None
  | (k', v) :: d' => if String.eqb k k' then Some v else lookup k d'
  end.

(** [k in d]. *)
Definition mem (k : string) (d : dict V) : bool :=
  match lookup k d with Some _ => true | None => false end.

(** [d[k]]. *)
Definition getitem (k : string) (d : dict V) : result V :=
  match lookup k d with Some v => Ok v | None => Err (KeyError k) end.

(** [d[k] = v]: an existing key keeps its place, a new key goes last. *)
Fixpoint insert (k : string) (v : V) (d : dict V) : dict V :=
  match d with
  | [] => [(k, v)]
  | (k', v') :: d' =>
      if String.eqb k k' then (k', v) :: d' else (k', v') :: insert k v d'
  end.

Definition keys (d : dict V) : list string := map fst d.
Definition values (d : dict V) : list V := map snd d.

(** [dict(items)], also the value of a dict comprehension over [items]. *)
Definition of_items (items : list (string * V)) : dict V :=
  fold_left (fun d kv => insert (fst kv) (snd kv) d) items [].

(** [{**a, **b}]: a new dictionary, [a] updated with the entries of [b]. *)
Definition merge (a b : dict V) : dict V :=
  fold_left (fun d kv => insert (fst kv) (snd kv) d) b a.

End Ops.

Arguments lookup {V} k d.
Arguments mem {V} k d.
Arguments getitem {V} k d.
Arguments insert {V} k v d.
Arguments keys {V} d.
Arguments values {V} d.
Arguments of_items {V} items.
Arguments merge {V} a b.

End Dict.

Abbreviation dict := Dict.dict.
Abbreviation float := Float.float.

(** ** The numpy operations the constructor uses *)

Module Np.

(** [np.where(mask)[0]]: the positions at which [mask] holds, in increasing
    order, as an array of integers. *)
Fixpoint where_from (i : Z) (mask : list bool) : list Z :=
  match mask with
  | [] => []
  | b :: mask' =>
      if b then i :: where_from (i + 1) mask' else where_from (i + 1) mask'
  end.

Definition where0 (mask : list bool) : list Z := where_from 0 mask.

(** [a[j]] for an integer [j]: a negative index counts from the end. *)
Definition item {A : Type} (a : list A) (j : Z) : result A :=
  let n := Z.of_nat (length a) in
  let j' := if (j <? 0)%Z then (j + n)%Z else j in
  if ((0 <=? j') && (j' <? n))%Z
  then match nth_error a (Z.to_nat j') with
       | Some x => Ok x
       | None => Err IndexError
       end
  else Err IndexError.

(** [a[idx]] for an array of integers [idx]. *)
Definition take {A : Type} (a : list A) (idx : list Z) : result (list A) :=
  mapM (item a) idx.

(** [~idx] on an array of integers: the bitwise complement of each entry. *)
Definition invert (idx : list Z) : list Z := map Z.lnot idx.

(** [x & y] of two boolean arrays, written [x * y] in the program. *)
Fixpoint band (x y : list bool) : list bool :=
  match x, y with
  | a :: x', b :: y' => (a && b) :: band x' y'
  | _, _ => []
  end.

End Np.

(** ** The JAX operations [evaluate] uses *)

Module Jax.

(** Two dictionaries have one tree structure when they have the same keys. *)
Definition same_keys {A B : Type} (d1 : dict A) (d2 : dict B) : bool :=
  forallb (fun k => Dict.mem k d2) (Dict.keys d1) &&
  forallb (fun k => Dict.mem k d1) (Dict.keys d2).

(** The entries of [d2] at the keys of [d1], when the structures agree. *)
Definition zip_tree {A B : Type} (d1 : dict A) (d2 : dict B)
  : result (dict (A * B)) :=
  if same_keys d1 d2
  then mapM (fun kv => (b <- Dict.getitem (fst kv) d2 ;;
                        Ok (fst kv, (snd kv, b)))%result) d1
  else Err ValueError.

(** [jax.tree.map(f, d)] on a dictionary of arrays: every array is a leaf.
    The entries are visited in the order of [d]; JAX visits them by sorted
    key, which changes no entry of the result. *)
Definition tree_map {A C : Type} (f : A -> result C) (d : dict A)
  : result (dict C) :=
  mapM (fun kv => (c <- f (snd kv) ;; Ok (fst kv, c))%result) d.

(** [jax.tree.map(f, d1, d2)]: a [ValueError] when the keys differ, raised
    before [f] is called. *)
Definition tree_map2 {A B C : Type} (f : A -> B -> result C)
  (d1 : dict A) (d2 : dict B) : result (dict C) :=
  (z <- zip_tree d1 d2 ;;
   tree_map (fun ab => f (fst ab) (snd ab)) z)%result.

(** [jax.tree.map(f, d1, d2, d3, d4)]. *)
Definition tree_map4 {A B C D E : Type} (f : A -> B -> C -> D -> result E)
  (d1 : dict A) (d2 : dict B) (d3 : dict C) (d4 : dict D) : result (dict E) :=
  (z2 <- zip_tree d1 d2 ;;
   z3 <- zip_tree z2 d3 ;;
   z4 <- zip_tree z3 d4 ;;
   tree_map (fun t => f (fst (fst (fst t))) (snd (fst (fst t)))
                        (snd (fst t)) (snd t)) z4)%result.

(** [jax.flatten_util.ravel_pytree] of a dictionary of scalars. *)
Definition ravel_pytree (d : dict float) : list float := Dict.values d.

(** [jax.lax.cond(pred, true_fun, false_fun, operand)]. *)
Definition lax_cond {X Y : Type} (pred : bool) (true_fun false_fun : X -> Y)
  (operand : X) : Y :=
  if pred then true_fun operand else false_fun operand.

End Jax.

(** ** Objects shared with the caller *)

(** A reference is a position in one of the three stores of the heap: the
    lists of strings, the dictionaries of numbers and the observation
    mappings.  Two names alias when they hold one reference. *)
Definition ref : Type := nat.

(** One row [(time, magnitude, magnitude error)] of an observation array. *)
Definition row : Type := (float * float * float)%type.

(** An array object of shape [(n, 3)].  On a [numpy.ndarray] the statement
    [times -= x] writes into the array ([in_place]); a JAX array is
    immutable and the statement binds the name to a new array. *)
Record ndarray : Type := mkArray {
  in_place : bool;
  rows : list row
}.

Definition no_array : ndarray := mkArray false [].

(** An observation mapping with the array objects it refers to: a key holds
    the position of its array, and two keys with one position share one
    array object. *)
Record observations : Type := mkObs {
  obs_keys : dict nat;
  obs_arrays : list ndarray
}.

Definition no_observations : observations := mkObs [] [].

Record heap : Type := mkHeap {
  str_lists : list (list string);
  param_dicts : list (dict float);
  obs_dicts : list observations
}.

(** A computation that reads and writes the heap and may raise. *)
Definition M (A : Type) : Type := heap -> result A * heap.

Definition ret {A : Type} (a : A) : M A := fun h => (Ok a, h).
Definition raise {A : Type} (e : error) : M A := fun h => (Err e, h).
Definition lift {A : Type} (r : result A) : M A := fun h => (r, h).

Definition bind {A B : Type} (c : M A) (k : A -> M B) : M B :=
  fun h =>
    match c h with
    | (Ok a, h') => k a h'
    | (Err e, h') => (Err e, h')
    end.

Declare Scope M_scope.
Delimit Scope M_scope with M.
Notation "x <- c ;; k" := (bind c (fun x => k))
  (at level 61, c at next level, right associativity) : M_scope.
Notation "c ;; k" := (bind c (fun _ => k))
  (at level 61, right associativity) : M_scope.

Fixpoint list_set {A : Type} (i : nat) (x : A) (l : list A) : list A :=
  match l, i with
  | [], _ => []
  | _ :: l', O => x :: l'
  | y :: l', S i' => y :: list_set i' x l'
  end.

Definition read_list (r : ref) : M (list string) :=
  fun h => (Ok (nth r (str_lists h) []), h).

Definition write_list (r : ref) (l : list string) : M unit :=
  fun h => (Ok tt, mkHeap (list_set r l (str_lists h)) (param_dicts h) (obs_dicts h)).

Definition read_dict (r : ref) : M (dict float) :=
  fun h => (Ok (nth r (param_dicts h) []), h).

(** A new dictionary object. *)
Definition alloc_dict (d : dict float) : M ref :=
  fun h => (Ok (length (param_dicts h)),
            mkHeap (str_lists h) (param_dicts h ++ [d]) (obs_dicts h)).

Definition read_obs (r : ref) : M observations :=
  fun h => (Ok (nth r (obs_dicts h) no_observations), h).

Definition write_obs (r : ref) (o : observations) : M unit :=
  fun h => (Ok tt, mkHeap (str_lists h) (param_dicts h) (list_set r o (obs_dicts h))).

(** [copy.deepcopy] of an observation mapping: a new mapping with new array
    objects, which share among themselves what the arrays of the original
    share, and nothing with the original. *)
Definition deepcopy_obs (r : ref) : M ref :=
  fun h => (Ok (length (obs_dicts h)),
            mkHeap (str_lists h) (param_dicts h)
                   (obs_dicts h ++ [nth r (obs_dicts h) no_observations])).

(** The end of the life of the newest observation mapping: a local name
    held its only reference and the function that owns the name returns. *)
Definition release_obs : M unit :=
  fun h => (Ok tt, mkHeap (str_lists h) (param_dicts h) (removelast (obs_dicts h))).

(** [l.remove(x)]: the first occurrence of [x] goes. *)
Fixpoint list_remove (x : string) (l : list string) : list string :=
  match l with
  | [] => []
  | y :: l' => if String.eqb x y then l' else y :: list_remove x l'
  end.

(** [s.replace(old, new)] for one-character [old] and [new]. *)
Fixpoint str_replace (old new : ascii) (s : string) : string :=
  match s with
  | EmptyString => EmptyString
  | String c s' =>
      String (if Ascii.eqb c old then new else c) (str_replace old new s')
  end.

(** ** [class EMLikelihood] *)

(** The surrogate: [model.predict] and [model.times]. *)
Record LightcurveModel : Type := mkModel {
  predict : dict float -> dict (list float);
  times : list float
}.

(** The [error_budget] argument: a number or a dictionary. *)
Inductive budget_arg : Type :=
| BudgetScalar (x : float)
| BudgetDict (d : dict float).

(** The [detection_limit] argument: [None], a number or a dictionary. *)
Inductive limit_arg : Type :=
| LimitNone
| LimitScalar (x : float)
| LimitDict (d : dict float).

Record EMLikelihood : Type := mkEM {
  model : LightcurveModel;
  filters : ref;
  trigger_time : float;
  tmin : float;
  tmax : float;
  ignore_nondetections : bool;
  detection_limit : dict float;
  error_budget : dict float;
  times_det : dict (list float);
  mag_det : dict (list float);
  mag_err : dict (list float);
  sigma : dict (list float);
  times_nondet : dict (list float);
  mag_nondet : dict (list float);
  fixed_params : ref
}.

(** Attribute assignments. *)
Definition set_det (filt : string) (t m e : list float) (self : EMLikelihood)
  : EMLikelihood :=
  mkEM (model self) (filters self) (trigger_time self) (tmin self) (tmax self)
       (ignore_nondetections self) (detection_limit self) (error_budget self)
       (Dict.insert filt t (times_det self)) (Dict.insert filt m (mag_det self))
       (Dict.insert filt e (mag_err self)) (sigma self)
       (times_nondet self) (mag_nondet self) (fixed_params self).

Definition set_nondet (filt : string) (t m : list float) (self : EMLikelihood)
  : EMLikelihood :=
  mkEM (model self) (filters self) (trigger_time self) (tmin self) (tmax self)
       (ignore_nondetections self) (detection_limit self) (error_budget self)
       (times_det self) (mag_det self) (mag_err self) (sigma self)
       (Dict.insert filt t (times_nondet self))
       (Dict.insert filt m (mag_nondet self)) (fixed_params self).

Definition set_ignore_nondetections (b : bool) (self : EMLikelihood)
  : EMLikelihood :=
  mkEM (model self) (filters self) (trigger_time self) (tmin self) (tmax self)
       b (detection_limit self) (error_budget self)
       (times_det self) (mag_det self) (mag_err self) (sigma self)
       (times_nondet self) (mag_nondet self) (fixed_params self).

Definition set_sigma (s : dict (list float)) (self : EMLikelihood)
  : EMLikelihood :=
  mkEM (model self) (filters self) (trigger_time self) (tmin self) (tmax self)
       (ignore_nondetections self) (detection_limit self) (error_budget self)
       (times_det self) (mag_det self) (mag_err self) s
       (times_nondet self) (mag_nondet self) (fixed_params self).

Definition set_fixed_params (r : ref) (self : EMLikelihood) : EMLikelihood :=
  mkEM (model self) (filters self) (trigger_time self) (tmin self) (tmax self)
       (ignore_nondetections self) (detection_limit self) (error_budget self)
       (times_det self) (mag_det self) (mag_err self) (sigma self)
       (times_nondet self) (mag_nondet self) r.

(** *** [process_data] *)

Definition col_time (a : list row) : list float := map (fun r => fst (fst r)) a.
Definition col_mag (a : list row) : list float := map (fun r => snd (fst r)) a.
Definition col_err (a : list row) : list float := map (fun r => snd r) a.

(** [times - self.trigger_time] on the column [a[:, 0]]: the rows of [a]
    with the shifted times. *)
Definition shift_times (trigger : float) (a : list row) : list row :=
  map (fun r => (Float.sub (fst (fst r)) trigger, snd (fst r), snd r)) a.

(** Line 163, [times -= self.trigger_time], for [times] a view of the first
    column of the array at [r]: a numpy array takes the shifted times, and
    with it every key that holds this array; a JAX array stays as it is. *)
Definition shift_in_place (r : nat) (shifted : list row) (o : observations)
  : observations :=
  mkObs (obs_keys o)
        (if in_place (nth r (obs_arrays o) no_array)
         then list_set r (mkArray true shifted) (obs_arrays o)
         else obs_arrays o).

(** Lines 164-165: the rows of the time window. *)
Definition window (lo hi : float) (times mag mag_err : list float)
  : result (list float * list float * list float) :=
  let idx := Np.where0 (Np.band (map (fun t => Float.gtb t lo) times)
                                (map (fun t => Float.ltb t hi) times)) in
  (times' <- Np.take times idx ;;
   mag' <- Np.take mag idx ;;
   mag_err' <- Np.take mag_err idx ;;
   Ok (times', mag', mag_err'))%result.

(** Lines 162-175: the body of the loop for a filter found in the data; [a]
    is [processed_data[filt]] after the shift of its times. *)
Definition process_filter (self : EMLikelihood) (filt : string) (a : list row)
  : result EMLikelihood :=
  ('(times, mag, mag_err) <- window (tmin self) (tmax self)
                                    (col_time a) (col_mag a) (col_err a) ;;
   let idx_no_inf := Np.where0 (map (fun e => Float.neb e Float.inf) mag_err) in
   times_d <- Np.take times idx_no_inf ;;
   mag_d <- Np.take mag idx_no_inf ;;
   mag_err_d <- Np.take mag_err idx_no_inf ;;
   let self := set_det filt times_d mag_d mag_err_d self in
   times_n <- Np.take times (Np.invert idx_no_inf) ;;
   mag_n <- Np.take mag (Np.invert idx_no_inf) ;;
   Ok (set_nondet filt times_n mag_n self))%result.

(** Lines 156-175: [for filt in self.filters].  The iterator of a Python
    list is a position [i] into the list object, read again at every step,
    so an element removed during the loop shifts the ones behind it.
    [processed_data] is a reference to the copied mapping; [fuel] bounds the
    number of steps. *)
Fixpoint process_loop (fuel i : nat) (processed_data : ref)
  (self : EMLikelihood) : M EMLikelihood :=
  match fuel with
  | O => ret self
  | S fuel' =>
      (fl <- read_list (filters self) ;;
       match nth_error fl i with
       | None => ret self
       | Some filt =>
           o <- read_obs processed_data ;;
           match Dict.lookup filt (obs_keys o) with
           | None =>
               write_list (filters self) (list_remove filt fl) ;;
               process_loop fuel' (S i) processed_data self
           | Some r =>
               let a := shift_times (trigger_time self)
                                    (rows (nth r (obs_arrays o) no_array)) in
               write_obs processed_data (shift_in_place r a o) ;;
               self' <- lift (process_filter self filt a) ;;
               process_loop fuel' (S i) processed_data self'
           end
       end)%M
  end.

(** The same loop as a function of the value [o] of the copied mapping,
    which no other name refers to: what [process_loop] computes when the
    mapping at [processed_data] is [o] ([process_loop_value]). *)
Fixpoint process_loop_on (fuel i : nat) (o : observations)
  (self : EMLikelihood) : M EMLikelihood :=
  match fuel with
  | O => ret self
  | S fuel' =>
      (fl <- read_list (filters self) ;;
       match nth_error fl i with
       | None => ret self
       | Some filt =>
           match Dict.lookup filt (obs_keys o) with
           | None =>
               write_list (filters self) (list_remove filt fl) ;;
               process_loop_on fuel' (S i) o self
           | Some r =>
               let a := shift_times (trigger_time self)
                                    (rows (nth r (obs_arrays o) no_array)) in
               self' <- lift (process_filter self filt a) ;;
               process_loop_on fuel' (S i) (shift_in_place r a o) self'
           end
       end)%M
  end.

(** Line 154: the keys with [":"] replaced by ["_"], in a new dictionary
    that holds the same values. *)
Definition normalize_keys (V : Type) (d : dict V) : dict V :=
  Dict.of_items (map (fun kv => (str_replace ":" "_" (fst kv), snd kv)) d).

Definition normalize_obs (o : observations) : observations :=
  mkObs (normalize_keys (obs_keys o)) (obs_arrays o).

(** Lines 151-175.  The loop runs at most once per element of the list it
    starts with, which is the fuel it gets ([process_loop_fuel]).  The copy
    is reachable from the local name [processed_data] alone. *)
Definition process_data (self : EMLikelihood) (data : ref) : M EMLikelihood :=
  (processed_data <- deepcopy_obs data ;;
   o <- read_obs processed_data ;;
   write_obs processed_data (normalize_obs o) ;;
   fl <- read_list (filters self) ;;
   self' <- process_loop (length fl) 0 processed_data self ;;
   release_obs ;;
   ret self')%M.

(** *** [__init__] *)

(** [dict(zip(filters, [x] * len(filters)))]. *)
Definition broadcast (filters : list string) (x : float) : dict float :=
  Dict.of_items (combine filters (repeat x (length filters))).

(** Lines 85-86: [self.sigma[filt] = sqrt(mag_err[filt]**2 + budget[filt]**2)]
    for the filters of the list, in order. *)
Fixpoint sigma_loop (fl : list string) (self : EMLikelihood)
  : result EMLikelihood :=
  match fl with
  | [] => Ok self
  | filt :: fl' =>
      (err <- Dict.getitem filt (mag_err self) ;;
       budget <- Dict.getitem filt (error_budget self) ;;
       let s := map (fun e => Float.sqrt (Float.add (Float.sqr e) (Float.sqr budget)))
                    err in
       sigma_loop fl' (set_sigma (Dict.insert filt s (sigma self)) self))%result
  end.

(** Lines 32-88.  The arguments carry a prime where an attribute has their
    name.  [sigma] and [fixed_params] are assigned last (lines 84-88) and not
    read before; the [print] calls have no counterpart here. *)
Definition __init__ (model' : LightcurveModel) (filters' data : ref)
  (trigger_time' tmin' tmax' : float) (error_budget' : budget_arg)
  (fixed_params' : ref) (ignore_nondetections' : bool)
  (detection_limit' : limit_arg) : M EMLikelihood :=
  (fl <- read_list filters' ;;
   let error_budget' :=
     match error_budget' with
     | BudgetScalar x => broadcast fl x
     | BudgetDict d => d
     end in
   let detection_limit' :=
     match detection_limit' with
     | LimitScalar x => broadcast fl x
     | LimitNone => broadcast fl Float.inf
     | LimitDict d => d
     end in
   let self := mkEM model' filters' trigger_time' tmin' tmax'
                    ignore_nondetections' detection_limit' error_budget'
                    [] [] [] [] [] [] fixed_params' in
   self <- process_data self data ;;
   let self :=
     if (length (times_nondet self) =? 0)%nat
     then set_ignore_nondetections true self
     else self in
   fl <- read_list (filters self) ;;
   self <- lift (sigma_loop fl self) ;;
   ret (set_fixed_params fixed_params' self))%M.

(** *** The likelihood functions and [evaluate] *)

Section Likelihood.

(** [fiesta.utils.mag_app_from_mag_abs] and [fiesta.utils.truncated_gaussian]
    are not part of the sources at hand, and [jnp.interp] is a library
    function: the likelihood is parametrised by the three. *)
Variable mag_app_from_mag_abs : list float -> float -> list float.
Variable truncated_gaussian :
  list float -> list float -> list float -> float -> list float.
Variable interp : list float -> list float -> list float -> list float.

(** Lines 209-212.  The three arrays of a filter have one shape: the
    constructor cuts them out of the same rows, and [jnp.interp] returns the
    shape of the detection times. *)
Definition compute_chisq (mag_est mag_det sigma : list float) (lim : float)
  : float :=
  let val :=
    Float.mul (Float.Fin (- 0.5))
      (Float.sum
         (Float.map2 Float.div
            (map Float.sqr (Float.map2 Float.sub mag_det mag_est))
            (map Float.sqr sigma))) in
  val.

(** Line 222. *)
Definition compute_chisq_trunc (mag_est mag_det sigma : list float)
  (lim : float) : float :=
  Float.sum (truncated_gaussian mag_det sigma mag_est lim).

(** Lines 196-199. *)
Definition get_chisq_filt (mag_est mag_det sigma : list float) (lim : float)
  : float :=
  Jax.lax_cond (Float.eqb lim Float.inf)
    (fun x => match x with (a, b, c, d) => compute_chisq a b c d end)
    (fun x => match x with (a, b, c, d) => compute_chisq_trunc a b c d end)
    (mag_est, mag_det, sigma, lim).

(** Lines 104-135.  [theta] is the caller's dictionary; the merged
    dictionary is a new object, bound to the local name [theta].  The
    argument [data] of the method is not used.  The non-detection term of
    lines 125-128 is commented out in the program, which leaves
    [get_gaussprob_filt] and [compute_gaussprob] without a caller;
    [astype(jnp.float64)] changes no value here. *)
Definition evaluate (self : EMLikelihood) (theta : ref) : M float :=
  (theta_old <- read_dict theta ;;
   fixed <- read_dict (fixed_params self) ;;
   theta <- alloc_dict (Dict.merge theta_old fixed) ;;
   theta_new <- read_dict theta ;;
   let mag_abs := predict (model self) theta_new in
   mag_app <- lift (Jax.tree_map
                      (fun x => (d <- Dict.getitem "luminosity_distance" theta_new ;;
                                 Ok (mag_app_from_mag_abs x d))%result)
                      mag_abs) ;;
   mag_app_interp <- lift (Jax.tree_map2
                             (fun t m => Ok (interp t (times (model self)) m))
                             (times_det self) mag_app) ;;
   chisq <- lift (Jax.tree_map4
                    (fun mag_est mag_det sigma lim =>
                       Ok (get_chisq_filt mag_est mag_det sigma lim))
                    mag_app_interp (mag_det self) (sigma self)
                    (detection_limit self)) ;;
   let chisq_flatten := Jax.ravel_pytree chisq in
   let chisq_total := Float.sum chisq_flatten in
   let gaussprob_total := Float.zero in
   ret (Float.add chisq_total gaussprob_total))%M.

End Likelihood.

(** ** Reference definitions for the statements *)

(** [a[mask]] for a boolean [mask] of the length of [a]: the entries of [a]
    at which [mask] holds. *)
Fixpoint compress {A : Type} (mask : list bool) (a : list A) : list A :=
  match mask, a with
  | b :: mask', x :: a' => if b then x :: compress mask' a' else compress mask' a'
  | _, _ => []
  end.

Definition row_time (r : row) : float := fst (fst r).
Definition row_mag (r : row) : float := snd (fst r).
Definition row_err (r : row) : float := snd r.

(** The open window [tmin < t < tmax]. *)
Definition in_open_window (lo hi : float) (r : row) : bool :=
  Float.ltb lo (row_time r) && Float.ltb (row_time r) hi.

(** The window [tmin <= t < tmax], closed on the left. *)
Definition in_half_open_window (lo hi : float) (r : row) : bool :=
  Float.leb lo (row_time r) && Float.ltb (row_time r) hi.

(** A detection: a row whose magnitude error is not [+inf]. *)
Definition is_detection (r : row) : bool := Float.neb (row_err r) Float.inf.

(** The chi-square term as the specification words it:
    [-0.5 * sum(((observed - predicted) / sigma)^2)]. *)
Fixpoint squared_residuals (mag_est mag_det sigma : list float) : list float :=
  match mag_est, mag_det, sigma with
  | e :: mag_est', d :: mag_det', s :: sigma' =>
      Float.sqr (Float.div (Float.sub d e) s)
      :: squared_residuals mag_est' mag_det' sigma'
  | _, _, _ => []
  end.

Definition chisq_spec (mag_est mag_det sigma : list float) : float :=
  Float.mul (Float.Fin (- 0.5)) (Float.sum (squared_residuals mag_est mag_det sigma)).

(** The attributes that [process_data] leaves alone. *)
Definition config (self : EMLikelihood) :=
  (model self, filters self, (trigger_time self, tmin self, tmax self),
   ignore_nondetections self, (detection_limit self, error_budget self),
   sigma self, fixed_params self).

(** The combined uncertainty [sqrt(mag_err**2 + budget**2)] of the rows of
    one filter. *)
Definition combined (budget : float) (mag_err : list float) : list float :=
  map (fun e => Float.sqrt (Float.add (Float.sqr e) (Float.sqr budget))) mag_err.

(** ** Sample inputs *)

Local Open Scope string_scope.

(** Three rows of one filter: a detection, an upper limit, a detection. *)
Definition sample_rows : list row :=
  [(Float.Fin 1, Float.Fin 20, Float.Fin 0.1);
   (Float.Fin 2, Float.Fin 21, Float.PInf);
   (Float.Fin 3, Float.Fin 22, Float.Fin 0.2)].

(** One detection at time [1]. *)
Definition sample_row : list row := [(Float.Fin 1, Float.Fin 20, Float.Fin 0.1)].

(** The caller's objects: three lists of filters, the dictionaries [theta]
    and [fixed_params], and two observation mappings for the filter ["b"],
    each with one numpy array. *)
Definition sample_heap : heap :=
  mkHeap [["a"; "b"]; ["b"]; ["b"; "a"]]
         [[("inclination", Float.Fin 0.3); ("luminosity_distance", Float.Fin 30)];
          [("luminosity_distance", Float.Fin 40)]]
         [mkObs [("b", 0)] [mkArray true sample_rows];
          mkObs [("b", 0)] [mkArray true sample_row]].

(** A surrogate with the one filter ["b"] on the grid [0, 10]. *)
Definition sample_model : LightcurveModel :=
  mkModel (fun _ => [("b", [Float.Fin (-16); Float.Fin (-15)])])
          [Float.Fin 0; Float.Fin 10].

(** Stand-ins for the three functions the likelihood is parametrised by. *)
Definition sample_mag_app (x : list float) (d : float) : list float :=
  map (fun m => Float.add m d) x.

Definition sample_interp (t xp fp : list float) : list float :=
  map (fun _ => hd Float.NaN fp) t.

Definition sample_truncated_gaussian (mag_det sigma mag_est : list float)
  (lim : float) : list float :=
  map (fun _ => Float.zero) mag_det.

Local Close Scope string_scope.

(** The object built from the list [["b"]] and the rows [sample_rows], with
    the window [(0, 14)], the scalar budget [0.5] and no detection limit. *)
Definition sample_object : EMLikelihood :=
  let t1 := Float.sub (Float.Fin 1) (Float.Fin 0) in
  let t3 := Float.sub (Float.Fin 3) (Float.Fin 0) in
  mkEM sample_model 1 (Float.Fin 0) (Float.Fin 0) (Float.Fin 14) false
       [("b"%string, Float.inf)] [("b"%string, Float.Fin 0.5)]
       [("b"%string, [t1; t3])]
       [("b"%string, [Float.Fin 20; Float.Fin 22])]
       [("b"%string, [Float.Fin 0.1; Float.Fin 0.2])]
       [("b"%string, combined (Float.Fin 0.5) [Float.Fin 0.1; Float.Fin 0.2])]
       [("b"%string, [t3; t1])]
       [("b"%string, [Float.Fin 22; Float.Fin 20])]
       1.

(** ** Reference definitions for [evaluate] *)

Section LikelihoodSpec.

Variable mag_app_from_mag_abs : list float -> float -> list float.
Variable truncated_gaussian :
  list float -> list float -> list float -> float -> list float.
Variable interp : list float -> list float -> list float -> list float.

(** Lines 105-135 as a function of the merged dictionary. *)
Definition log_likelihood (self : EMLikelihood) (theta : dict float)
  : result float :=
  (let mag_abs := predict (model self) theta in
   mag_app <- Jax.tree_map
                (fun x => d <- Dict.getitem "luminosity_distance" theta ;;
                          Ok (mag_app_from_mag_abs x d))
                mag_abs ;;
   mag_app_interp <- Jax.tree_map2
                       (fun t m => Ok (interp t (times (model self)) m))
                       (times_det self) mag_app ;;
   chisq <- Jax.tree_map4
              (fun mag_est mag_det sigma lim =>
                 Ok (get_chisq_filt truncated_gaussian mag_est mag_det sigma lim))
              mag_app_interp (mag_det self) (sigma self) (detection_limit self) ;;
   Ok (Float.add (Float.sum (Jax.ravel_pytree chisq)) Float.zero))%result.

(** [v] is the chi-square term of the filter [fst kv], whose detection times
    are [snd kv]: the value of [get_chisq_filt] at the prediction of the
    surrogate for this filter, made apparent and interpolated to the
    detection times, and at the filter's magnitudes, sigmas and limit. *)
Definition is_chisq_term (self : EMLikelihood) (theta : dict float)
  (kv : string * list float) (v : float) : Prop :=
  exists mag_abs d det sig lim,
    Dict.lookup (fst kv) (predict (model self) theta) = Some mag_abs /\
    Dict.lookup "luminosity_distance" theta = Some d /\
    Dict.lookup (fst kv) (mag_det self) = Some det /\
    Dict.lookup (fst kv) (sigma self) = Some sig /\
    Dict.lookup (fst kv) (detection_limit self) = Some lim /\
    v = get_chisq_filt truncated_gaussian
          (interp (snd kv) (times (model self))
                  (mag_app_from_mag_abs mag_abs d))
          det sig lim.

End LikelihoodSpec.

(** The dictionaries [evaluate] maps over have the keys of [times_det], and
    the luminosity distance is known when there is a filter to predict. *)
Definition keys_agree (self : EMLikelihood) (theta : dict float) : Prop :=
  Jax.same_keys (times_det self) (predict (model self) theta) = true /\
  Jax.same_keys (times_det self) (mag_det self) = true /\
  Jax.same_keys (times_det self) (sigma self) = true /\
  Jax.same_keys (times_det self) (detection_limit self) = true /\
  (times_det self = [] \/ Dict.mem "luminosity_distance" theta = true).

(** [self] with other non-detection rows. *)
Definition with_nondet (times_n mag_n : dict (list float)) (self : EMLikelihood)
  : EMLikelihood :=
  mkEM (model self) (filters self) (trigger_time self) (tmin self) (tmax self)
       (ignore_nondetections self) (detection_limit self) (error_budget self)
       (times_det self) (mag_det self) (mag_err self) (sigma self)
       times_n mag_n (fixed_params self).

(** [{**theta, **fixed_params}] for the caller's [theta] at [r]. *)
Definition merged_theta (self : EMLikelihood) (r : ref) (h : heap) : dict float :=
  Dict.merge (nth r (param_dicts h) []) (nth (fixed_params self) (param_dicts h) []).

(** [self] with another surrogate. *)
Definition with_model (m : LightcurveModel) (self : EMLikelihood) : EMLikelihood :=
  mkEM m (filters self) (trigger_time self) (tmin self) (tmax self)
       (ignore_nondetections self) (detection_limit self) (error_budget self)
       (times_det self) (mag_det self) (mag_err self) (sigma self)
       (times_nondet self) (mag_nondet self) (fixed_params self).

(** What the body of the loop stores for a filter whose observation array is
    [a]: as detections, the rows of the open window whose error is not
    [+inf]; as non-detections, the rows the mask of the detections cuts out
    of the reversed window. *)
Definition stored_rows (self : EMLikelihood) (f : string) (a : list row) : Prop :=
  let kept := filter (in_open_window (tmin self) (tmax self))
                     (shift_times (trigger_time self) a) in
  let det := filter is_detection kept in
  let mask := map is_detection kept in
  Dict.lookup f (times_det self) = Some (col_time det) /\
  Dict.lookup f (mag_det self) = Some (col_mag det) /\
  Dict.lookup f (mag_err self) = Some (col_err det) /\
  Dict.lookup f (times_nondet self) = Some (compress mask (rev (col_time kept))) /\
  Dict.lookup f (mag_nondet self) = Some (compress mask (rev (col_mag kept))).

(** A filter without processed rows. *)
Definition no_rows (self : EMLikelihood) (f : string) : Prop :=
  Dict.lookup f (times_det self) = None /\
  Dict.lookup f (mag_det self) = None /\
  Dict.lookup f (mag_err self) = None /\
  Dict.lookup f (times_nondet self) = None /\
  Dict.lookup f (mag_nondet self) = None.

(** Every filter has no rows, or is a key of the data and has the rows of
    an array. *)
Definition rows_ok (keys : dict nat) (self : EMLikelihood) : Prop :=
  forall f, no_rows self f \/
            exists r a, Dict.lookup f keys = Some r /\ stored_rows self f a.

(** Every filter has no rows, or the rows its array has in [arrays]. *)
Definition rows_exact (keys : dict nat) (arrays : list ndarray)
  (self : EMLikelihood) : Prop :=
  forall f, no_rows self f \/
            exists r, Dict.lookup f keys = Some r /\
                      stored_rows self f (rows (nth r arrays no_array)).

(** No two filters of the list [fl] hold one array that is shifted in place:
    every requested filter has an array of its own, or the arrays are
    immutable. *)
Definition own_arrays (fl : list string) (o : observations) : Prop :=
  forall f g r,
    In f fl -> In g fl -> f <> g ->
    Dict.lookup f (obs_keys o) = Some r ->
    Dict.lookup g (obs_keys o) = Some r ->
    in_place (nth r (obs_arrays o) no_array) = false.

(** The object built from the list [["b"; "a"]] and the rows [sample_rows]:
    ["a"] is not in the data and leaves the list, the limit and the budget
    keep its key. *)
Definition sample_dropped : EMLikelihood :=
  let t1 := Float.sub (Float.Fin 1) (Float.Fin 0) in
  let t3 := Float.sub (Float.Fin 3) (Float.Fin 0) in
  mkEM sample_model 2 (Float.Fin 0) (Float.Fin 0) (Float.Fin 14) false
       [("b"%string, Float.inf); ("a"%string, Float.inf)]
       [("b"%string, Float.Fin 0.5); ("a"%string, Float.Fin 0.5)]
       [("b"%string, [t1; t3])]
       [("b"%string, [Float.Fin 20; Float.Fin 22])]
       [("b"%string, [Float.Fin 0.1; Float.Fin 0.2])]
       [("b"%string, combined (Float.Fin 0.5) [Float.Fin 0.1; Float.Fin 0.2])]
       [("b"%string, [t3; t1])]
       [("b"%string, [Float.Fin 22; Float.Fin 20])]
       1.

(** The caller's objects of an evaluation without the luminosity distance:
    [theta] holds the inclination alone and [fixed_params] is empty. *)
Definition sample_heap_no_distance : heap :=
  mkHeap [["b"%string]]
         [[("inclination"%string, Float.Fin 0.3)]; []]
         [mkObs [("b"%string, 0)] [mkArray true sample_rows]].

(** The object built from the list [["b"]] and the rows [sample_rows] with
    the window [(14, 0)], which holds no time. *)
Definition sample_empty_window : EMLikelihood :=
  mkEM sample_model 1 (Float.Fin 0) (Float.Fin 14) (Float.Fin 0) false
       [("b"%string, Float.inf)] [("b"%string, Float.Fin 0.5)]
       [("b"%string, [])] [("b"%string, [])] [("b"%string, [])]
       [("b"%string, [])] [("b"%string, [])] [("b"%string, [])]
       1.

(** [c in s] for a character [c]. *)
Fixpoint str_in (c : ascii) (s : string) : bool :=
  match s with
  | EmptyString => false
  | String c' s' => Ascii.eqb c' c || str_in c s'
  end.


(** ** [fiesta.train.neuralnets] *)

(** [s.endswith(suffix)]: [suffix] is [s] or ends a tail of [s]. *)
Fixpoint endswith (s suffix : string) : bool :=
  String.eqb s suffix ||
  match s with
  | EmptyString => false
  | String _ s' => endswith s' suffix
  end.

(** The last character of a string. *)
Fixpoint str_last (s : string) : option ascii :=
  match s with
  | EmptyString => None
  | String c s' =>
      match s' with
      | EmptyString => Some c
      | String _ _ => str_last s'
      end
  end.

(** The exceptions of the training loop: the one of [i % 0], and those the
    loss function raises. *)
Inductive exn : Type :=
| ZeroDivisionError
| Raised (e : error).

(** The fields of [NeuralnetConfig] that hold data. *)
Record NeuralnetConfig : Type := mkConfig {
  name : string;
  layer_sizes : list Z;
  learning_rate : float;
  batch_size : Z;
  nb_epochs : Z;
  nb_report : Z
}.

Section MLP.

(** The arrays that flow through the network, the activation function, and
    the dense layers with their parameters applied. *)
Variable vec : Type.
Variable act_func : vec -> vec.

(** Lines 117-124: [for i, layer in enumerate(self.layers)], with [n] for
    [len(self.layer_sizes) - 1] (an integer, [-1] when there is no layer). *)
Fixpoint MLP_layers (i n : Z) (layers : list (vec -> vec)) (x : vec) : vec :=
  match layers with
  | [] => x
  | layer :: layers' =>
      let x := layer x in
      let x := if negb (i =? n)%Z then act_func x else x in
      MLP_layers (i + 1) n layers' x
  end.

(** [MLP.__call__]; [setup] makes one layer per entry of [layer_sizes]. *)
Definition MLP_call (layers : list (vec -> vec)) (x : vec) : vec :=
  MLP_layers 0 (Z.of_nat (length layers) - 1) layers x.

End MLP.

Section Training.

(** The training state, the values passed as arrays (among them [None]),
    and the gradients.  [apply_model] (lines 174-196) differentiates the
    loss with JAX and [apply_gradients] is the optimiser's update: the loop
    is parametrised by the two. *)
Variable TrainState : Type.
Variable array : Type.
Variable grads : Type.
Variable is_None : array -> bool.
Variable apply_model : TrainState -> array -> array -> result (float * grads).
Variable apply_gradients : TrainState -> grads -> TrainState.

(** Lines 220-230; [jnp.zeros_like] of the scalar loss is [0.0]. *)
Definition train_step (state : TrainState) (train_X train_y val_X val_y : array)
  : result (TrainState * float * float) :=
  ('(train_loss, g) <- apply_model state train_X train_y ;;
   val_loss <- (if negb (is_None val_X)
                then '(val_loss, _) <- apply_model state val_X val_y ;; Ok val_loss
                else Ok Float.zero) ;;
   let state := apply_gradients state g in
   Ok (state, train_loss, val_loss))%result.

(** Lines 244-256: the body of the loop for the epochs [epochs].  Of the
    output, the model keeps the steps [i + 1] whose losses are printed. *)
Fixpoint train_epochs (epochs : list Z) (config : NeuralnetConfig)
  (train_X train_y val_X val_y : array) (verbose : bool)
  (state : TrainState) (train_losses val_losses : list float) (printed : list Z)
  : exn + (TrainState * list float * list float * list Z) :=
  match epochs with
  | [] => inr (state, train_losses, val_losses, printed)
  | i :: epochs' =>
      match train_step state train_X train_y val_X val_y with
      | Err e => inl (Raised e)
      | Ok (state, train_loss, val_loss) =>
          let train_losses := train_losses ++ [train_loss] in
          let val_losses := val_losses ++ [val_loss] in
          if (nb_report config =? 0)%Z then inl ZeroDivisionError
          else
            let printed :=
              if ((i mod nb_report config =? 0)%Z && verbose)%bool
              then printed ++ [(i + 1)%Z] else printed in
            train_epochs epochs' config train_X train_y val_X val_y verbose
                         state train_losses val_losses printed
      end
  end.

(** Lines 232-262: [range(config.nb_epochs)] is empty for a number of
    epochs that is not positive. *)
Definition train_loop (state : TrainState) (config : NeuralnetConfig)
  (train_X train_y val_X val_y : array) (verbose : bool)
  : exn + (TrainState * list float * list float * list Z) :=
  train_epochs (map Z.of_nat (seq 0 (Z.to_nat (nb_epochs config)))) config
               train_X train_y val_X val_y verbose state [] [] [].

End Training.

Section SaveModel.

(** The file system and the other objects a call can change; the
    serialised dictionary; [serialize] (lines 264-288), which deletes a key
    of the caller's [config]; and [open] with [pickle.dump]. *)
Variable world : Type.
Variable TrainState : Type.
Variable ConfigDict : Type.
Variable serialized : Type.
Variable serialize : TrainState -> ConfigDict -> world -> result serialized * world.
Variable pickle_dump : string -> serialized -> world -> result unit * world.

(** Lines 306-311. *)
Definition save_model (state : TrainState) (config : ConfigDict)
  (out_name : string) (w : world) : result unit * world :=
  if (negb (endswith out_name ".pkl") || negb (endswith out_name ".pickle"))%bool
  then (Err ValueError, w)
  else
    match serialize state config w with
    | (Ok serialized_dict, w) => pickle_dump out_name serialized_dict w
    | (Err e, w) => (Err e, w)
    end.

End SaveModel.

(** A training state that counts its updates, a loss that is always [1],
    and arrays that are [None] or a list of numbers. *)
Definition sample_apply_model (state : Z) (x y : option (list float))
  : result (float * unit) :=
  Ok (Float.Fin 1, tt).

Definition sample_is_None (a : option (list float)) : bool :=
  match a with None => true | Some _ => false end.

Definition sample_config (epochs report : Z) : NeuralnetConfig :=
  mkConfig "MLP" [64; 128; 64; 10]%Z (Float.Fin 0.001) 128 epochs report.

(** ** The untruncated term on IEEE doubles *)

(** Lines 209-212 once more, on binary64 numbers with their rounding,
    overflow and [nan], next to the formula in the words of the
    specification.  The library leaves the order of the additions of
    [jnp.sum] open: the statements on these definitions take arrays of one
    entry. *)
Module Double.
Import PrimFloat.
Local Open Scope float_scope.

Fixpoint map2 (f : PrimFloat.float -> PrimFloat.float -> PrimFloat.float)
  (a b : list PrimFloat.float) : list PrimFloat.float :=
  match a, b with
  | x :: a', y :: b' => f x y :: map2 f a' b'
  | _, _ => []
  end.

Definition sum (l : list PrimFloat.float) : PrimFloat.float :=
  fold_left PrimFloat.add l 0.

(** [- 0.5 * jnp.sum((mag_det - mag_est) ** 2 / sigma ** 2)]. *)
Definition compute_chisq (mag_est mag_det sigma : list PrimFloat.float)
  : PrimFloat.float :=
  - 0.5 * sum (map2 PrimFloat.div
                 (map (fun x => x * x) (map2 PrimFloat.sub mag_det mag_est))
                 (map (fun x => x * x) sigma)).

(** [-0.5 * sum(((observed - predicted) / sigma)^2)]. *)
Definition chisq_spec (mag_est mag_det sigma : list PrimFloat.float)
  : PrimFloat.float :=
  - 0.5 * sum (map (fun x => x * x)
                 (map2 PrimFloat.div (map2 PrimFloat.sub mag_det mag_est) sigma)).

End Double.

(** Two filters that hold one array, of the one row observed at time [1]:
    a numpy array when [in_place] holds, a JAX array otherwise. *)
Definition sample_heap_shared (in_place : bool) : heap :=
  mkHeap [["a"%string; "b"%string]]
         [[("luminosity_distance"%string, Float.Fin 40)]]
         [mkObs [("a"%string, 0); ("b"%string, 0)] [mkArray in_place sample_row]].

(** * Properties *)

(** ** Numbers *)

Module FloatFacts.
Import Float.
Local Open Scope R_scope.

Lemma Rltb_true (x y : R) : x < y -> Rltb x y = true.
Proof. intros H; unfold Rltb; destruct (Rlt_dec x y); [reflexivity | contradiction]. Qed.

Lemma Rltb_false (x y : R) : ~ x < y -> Rltb x y = false.
Proof. intros H; unfold Rltb; destruct (Rlt_dec x y); [contradiction | reflexivity]. Qed.

Lemma Rltb_iff (x y : R) : Rltb x y = true <-> x < y.
Proof. unfold Rltb; destruct (Rlt_dec x y); split; intros; easy. Qed.

Lemma Reqb_true (x y : R) : x = y -> Reqb x y = true.
Proof. intros H; unfold Reqb; destruct (Req_dec_T x y); [reflexivity | contradiction]. Qed.

Lemma Reqb_false (x y : R) : x <> y -> Reqb x y = false.
Proof. intros H; unfold Reqb; destruct (Req_dec_T x y); [contradiction | reflexivity]. Qed.

Lemma Reqb_iff (x y : R) : Reqb x y = true <-> x = y.
Proof. unfold Reqb; destruct (Req_dec_T x y); split; intros; easy. Qed.

(** Decide the comparisons of concrete reals that occur in a goal. *)
Ltac rdec :=
  repeat match goal with
    | |- context [Rltb ?a ?b] =>
        first [ rewrite (@Rltb_true a b) by lra | rewrite (@Rltb_false a b) by lra ]
    | |- context [Reqb ?a ?b] =>
        first [ rewrite (@Reqb_true a b) by lra | rewrite (@Reqb_false a b) by lra ]
    end.

Lemma eqb_inf (a : float) : eqb a PInf = true <-> a = PInf.
Proof. destruct a; simpl; split; intros H; congruence. Qed.


Lemma add_zero_r (a : float) : add a zero = a.
Proof. destruct a; simpl; try reflexivity. f_equal; lra. Qed.

Lemma add_comm (a b : float) : add a b = add b a.
Proof. destruct a, b; simpl; try reflexivity. f_equal; lra. Qed.

Lemma add_assoc (a b c : float) : add a (add b c) = add (add a b) c.
Proof. destruct a, b, c; simpl; try reflexivity. f_equal; lra. Qed.

(** The sum of an array does not depend on the order of its entries. *)
Lemma sum_Permutation (l l' : list float) : Permutation l l' -> sum l = sum l'.
Proof.
  induction 1; simpl.
  - reflexivity.
  - now rewrite IHPermutation.
  - rewrite !add_assoc. f_equal. apply add_comm.
  - congruence.
Qed.

End FloatFacts.

(** ** The error monad and dictionaries *)

Lemma mapM_Ok {A B : Type} (f : A -> B) (l : list A) :
  mapM (fun x => Ok (f x)) l = Ok (map f l).
Proof. induction l as [|x l IH]; simpl; [reflexivity | now rewrite IH]. Qed.

Lemma mapM_ext_in {A B : Type} (f g : A -> result B) (l : list A) :
  (forall x, In x l -> f x = g x) -> mapM f l = mapM g l.
Proof.
  induction l as [|x l IH]; simpl; intros H; [reflexivity|].
  rewrite (H x) by now left. rewrite IH; [reflexivity|].
  intros y Hy; apply H; now right.
Qed.

Module DictFacts.
Import Dict.

Section Facts.
Variable V : Type.

Lemma lookup_insert (k k' : string) (v : V) (d : dict V) :
  lookup k' (insert k v d) = if String.eqb k' k then Some v else lookup k' d.
Proof.
  induction d as [|[k0 v0] d IH]; simpl.
  - reflexivity.
  - destruct (String.eqb k k0) eqn:E; simpl.
    + apply String.eqb_eq in E; subst k0.
      destruct (String.eqb k' k); reflexivity.
    + destruct (String.eqb k' k0) eqn:E0.
      * apply String.eqb_eq in E0; subst k0.
        rewrite String.eqb_sym, E. reflexivity.
      * exact IH.
Qed.

Lemma lookup_insert_eq (k : string) (v : V) (d : dict V) :
  lookup k (insert k v d) = Some v.
Proof. rewrite lookup_insert, String.eqb_refl. reflexivity. Qed.

Lemma lookup_insert_ne (k k' : string) (v : V) (d : dict V) :
  k' <> k -> lookup k' (insert k v d) = lookup k' d.
Proof.
  intros H. rewrite lookup_insert.
  destruct (String.eqb k' k) eqn:E; [apply String.eqb_eq in E; contradiction | reflexivity].
Qed.

Lemma lookup_fold_insert (k : string) (items : list (string * V)) (d : dict V) :
  lookup k (fold_left (fun d kv => insert (fst kv) (snd kv) d) items d) =
  match lookup k (rev items) with
  | Some v => Some v
  | None => lookup k d
  end.
Proof.
  revert d; induction items as [|[k0 v0] items IH]; intros d; simpl.
  - reflexivity.
  - rewrite IH, lookup_insert; simpl.
    assert (L : forall (l1 : dict V),
               lookup k (l1 ++ [(k0, v0)]) =
               match lookup k l1 with
               | Some v => Some v
               | None => if String.eqb k k0 then Some v0 else None
               end).
    { induction l1 as [|[k1 v1] l1 IHl]; simpl; [reflexivity|].
      destruct (String.eqb k k1); [reflexivity | exact IHl]. }
    rewrite L. destruct (lookup k (rev items)); [reflexivity|].
    destruct (String.eqb k k0); reflexivity.
Qed.

(** In [{**a, **b}] an entry of [b] wins over an entry of [a]. *)
Lemma lookup_merge (k : string) (a b : dict V) :
  lookup k (merge a b) =
  match lookup k (rev b) with
  | Some v => Some v
  | None => lookup k a
  end.
Proof. apply lookup_fold_insert. Qed.

End Facts.

End DictFacts.

(** ** Indexing by the result of [np.where] *)

Module NpFacts.
Import Np.

Lemma item_app {A : Type} (pre : list A) (x : A) (l : list A) :
  item (pre ++ x :: l) (Z.of_nat (length pre)) = Ok x.
Proof.
  unfold item. rewrite length_app; simpl length.
  assert (H0 : (Z.of_nat (length pre) <? 0)%Z = false) by (apply Z.ltb_ge; lia).
  rewrite H0.
  assert (H1 : ((0 <=? Z.of_nat (length pre)) &&
                (Z.of_nat (length pre) <? Z.of_nat (length pre + S (length l))))%Z = true).
  { apply andb_true_iff; split; [apply Z.leb_le | apply Z.ltb_lt]; lia. }
  rewrite H1, Nat2Z.id, nth_error_app2 by lia.
  rewrite Nat.sub_diag. reflexivity.
Qed.

Lemma take_where_from {A : Type} (mask : list bool) (l pre : list A) :
  length mask = length l ->
  take (pre ++ l) (where_from (Z.of_nat (length pre)) mask) = Ok (compress mask l).
Proof.
  revert l pre; induction mask as [|b mask IH]; intros [|x l] pre Hlen;
    simpl in Hlen; try discriminate; [reflexivity|].
  injection Hlen as Hlen.
  assert (Hpre : pre ++ x :: l = (pre ++ [x]) ++ l) by now rewrite <- app_assoc.
  assert (Hn : (Z.of_nat (length pre) + 1)%Z = Z.of_nat (length (pre ++ [x])))
    by (rewrite length_app; simpl; lia).
  specialize (IH l (pre ++ [x]) Hlen).
  rewrite <- Hpre, <- Hn in IH.
  simpl. destruct b.
  - unfold take in *; simpl. rewrite item_app; simpl. rewrite IH. reflexivity.
  - exact IH.
Qed.

(** Indexing by the positions of a mask selects the masked entries, and
    raises nothing. *)
Lemma take_where0 {A : Type} (mask : list bool) (l : list A) :
  length mask = length l -> take l (where0 mask) = Ok (compress mask l).
Proof. intros H. exact (take_where_from mask l [] H). Qed.

Lemma compress_map {A B : Type} (p : A -> bool) (g : A -> B) (l : list A) :
  compress (map p l) (map g l) = map g (filter p l).
Proof.
  induction l as [|x l IH]; simpl; [reflexivity|].
  destruct (p x); simpl; now rewrite IH.
Qed.

Lemma band_map {A : Type} (p q : A -> bool) (l : list A) :
  band (map p l) (map q l) = map (fun x => p x && q x) l.
Proof. induction l as [|x l IH]; simpl; [reflexivity | now rewrite IH]. Qed.

Lemma where_from_bounds (mask : list bool) (n : Z) :
  Forall (fun i => (n <= i < n + Z.of_nat (length mask))%Z) (where_from n mask).
Proof.
  revert n; induction mask as [|b mask IH]; intros n; cbn [where_from length]; [constructor|].
  assert (H : Forall (fun i => (n <= i < n + Z.of_nat (S (length mask)))%Z)
                     (where_from (n + 1) mask)).
  { eapply Forall_impl; [|apply IH]. cbv beta; intros i Hi; lia. }
  destruct b; [constructor; [lia | exact H] | exact H].
Qed.

(** For a position [i] of [l], [l[~i]] is the entry at [i] counted from the
    end. *)
Lemma item_lnot {A : Type} (l : list A) (i : Z) :
  (0 <= i < Z.of_nat (length l))%Z -> item l (Z.lnot i) = item (rev l) i.
Proof.
  intros Hi. unfold item. rewrite length_rev, Z.lnot_eq_pred_opp.
  assert (H0 : (- i - 1 <? 0)%Z = true) by (apply Z.ltb_lt; lia).
  assert (H1 : (i <? 0)%Z = false) by (apply Z.ltb_ge; lia).
  assert (H2 : ((0 <=? - i - 1 + Z.of_nat (length l)) &&
                (- i - 1 + Z.of_nat (length l) <? Z.of_nat (length l)))%Z = true).
  { apply andb_true_iff; split; [apply Z.leb_le | apply Z.ltb_lt]; lia. }
  assert (H3 : ((0 <=? i) && (i <? Z.of_nat (length l)))%Z = true).
  { apply andb_true_iff; split; [apply Z.leb_le | apply Z.ltb_lt]; lia. }
  rewrite H0, H1, H2, H3, nth_error_rev.
  assert (H4 : (Z.to_nat i <? length l)%nat = true) by (apply Nat.ltb_lt; lia).
  rewrite H4.
  replace (length l - S (Z.to_nat i))%nat
    with (Z.to_nat (- i - 1 + Z.of_nat (length l))) by lia.
  reflexivity.
Qed.

(** Indexing by the complemented positions of a mask selects, from the
    reversed array, the entries at which the mask holds. *)
Lemma take_invert_where0 {A : Type} (mask : list bool) (l : list A) :
  length mask = length l ->
  take l (invert (where0 mask)) = Ok (compress mask (rev l)).
Proof.
  intros Hlen.
  rewrite <- (take_where0 mask (rev l)) by now rewrite length_rev.
  unfold take, invert, where0.
  pose proof (where_from_bounds mask 0) as Hb.
  induction (where_from 0 mask) as [|i idx IH]; simpl; [reflexivity|].
  inversion Hb as [|? ? Hi Hb']; subst.
  rewrite item_lnot by (rewrite <- Hlen; lia).
  rewrite (IH Hb'). reflexivity.
Qed.

End NpFacts.

(** ** [process_data]: the rows of one filter *)

Lemma gtb_ltb (a b : float) : Float.gtb a b = Float.ltb b a.
Proof. reflexivity. Qed.

Lemma ltb_irrefl (a : float) : Float.ltb a a = false.
Proof.
  destruct a; simpl; try reflexivity.
  apply FloatFacts.Rltb_false. apply Rlt_irrefl.
Qed.

(** Lines 164-165 keep the rows of the open window, in order, and raise
    nothing. *)
Lemma window_rows (lo hi : float) (a : list row) :
  let kept := filter (in_open_window lo hi) a in
  window lo hi (col_time a) (col_mag a) (col_err a) =
  Ok (col_time kept, col_mag kept, col_err kept).
Proof.
  intros kept. unfold window, col_time, col_mag, col_err.
  rewrite !map_map.
  rewrite (NpFacts.band_map (fun r => Float.gtb (fst (fst r)) lo)
                            (fun r => Float.ltb (fst (fst r)) hi) a).
  change (fun x : row => Float.gtb (fst (fst x)) lo && Float.ltb (fst (fst x)) hi)
    with (in_open_window lo hi).
  rewrite !NpFacts.take_where0 by now rewrite !length_map.
  rewrite !NpFacts.compress_map. reflexivity.
Qed.

(** Lines 162-175 for one filter: the detections are the rows of the window
    whose error is not [+inf]; the arrays stored as non-detections are cut,
    by the mask of the detections, out of the reversed rows of the window. *)
Lemma process_filter_rows (self : EMLikelihood) (filt : string) (a : list row) :
  let kept := filter (in_open_window (tmin self) (tmax self)) a in
  let det := filter is_detection kept in
  let mask := map is_detection kept in
  process_filter self filt a =
  Ok (set_nondet filt (compress mask (rev (col_time kept)))
                      (compress mask (rev (col_mag kept)))
        (set_det filt (col_time det) (col_mag det) (col_err det) self)).
Proof.
  intros kept det mask. unfold process_filter.
  rewrite window_rows. fold kept. cbn [rbind].
  assert (Hm : map (fun e => Float.neb e Float.inf) (col_err kept) = mask).
  { unfold col_err, mask. rewrite map_map. reflexivity. }
  rewrite Hm.
  assert (Hl : forall g : row -> float, length mask = length (map g kept)).
  { intros g. unfold mask. now rewrite !length_map. }
  unfold col_time, col_mag, col_err.
  rewrite !NpFacts.take_where0 by apply Hl. cbn [rbind].
  rewrite !NpFacts.take_invert_where0 by apply Hl. cbn [rbind].
  unfold mask. rewrite !NpFacts.compress_map. reflexivity.
Qed.

(** ** The chi-square term of one filter *)

Section ChisqFacts.

Variable truncated_gaussian :
  list float -> list float -> list float -> float -> list float.

Local Open Scope R_scope.

Ltac rcases :=
  unfold Float.with_sign, Float.Rltb, Float.Reqb;
  repeat match goal with
    | |- context [Rlt_dec ?a ?b] => destruct (Rlt_dec a b)
    | |- context [Req_dec_T ?a ?b] => destruct (Req_dec_T a b)
    end.

(** [a**2 / s**2] is [(a / s)**2], on the special values too. *)
Lemma div_sqr (a s : float) :
  Float.div (Float.sqr a) (Float.sqr s) = Float.sqr (Float.div a s).
Proof.
  destruct a as [x| | |], s as [y| | |]; unfold Float.sqr; cbn [Float.mul Float.div];
    try reflexivity.
  - rcases; cbn [Float.mul Float.neg]; try reflexivity; try (exfalso; nra).
    all: f_equal; field; assumption.
  - f_equal. lra.
  - f_equal. lra.
  - rcases; try reflexivity; exfalso; nra.
  - rcases; try reflexivity; exfalso; nra.
Qed.

(** On the idealised numbers, where no operation rounds or overflows, the
    term of the code is the formula of the specification. *)
Lemma compute_chisq_spec (mag_est mag_det sigma : list float) (lim : float) :
  compute_chisq mag_est mag_det sigma lim = chisq_spec mag_est mag_det sigma.
Proof.
  unfold compute_chisq, chisq_spec. do 2 f_equal.
  revert mag_det sigma; induction mag_est as [|e mag_est IH];
    intros [|d mag_det] [|s sigma]; cbn [Float.map2 map squared_residuals];
    try reflexivity.
  rewrite div_sqr, IH. reflexivity.
Qed.


End ChisqFacts.

(** ** The heap and the loop over the filters *)

Lemma nth_list_set_eq {A : Type} (r : nat) (x d : A) (l : list A) :
  r < length l -> nth r (list_set r x l) d = x.
Proof.
  revert r; induction l as [|y l IH]; intros [|r] H; simpl in *; try lia.
  - reflexivity.
  - apply IH; lia.
Qed.

Lemma nth_list_set_ne {A : Type} (r r' : nat) (x d : A) (l : list A) :
  r' <> r -> nth r' (list_set r x l) d = nth r' l d.
Proof.
  revert r r'; induction l as [|y l IH]; intros [|r] [|r'] H; simpl; try reflexivity.
  - contradiction.
  - apply IH; lia.
Qed.

Lemma length_list_set {A : Type} (r : nat) (x : A) (l : list A) :
  length (list_set r x l) = length l.
Proof.
  revert r; induction l as [|y l IH]; intros [|r]; simpl; try reflexivity.
  now rewrite IH.
Qed.

Lemma nth_nonempty_valid {A : Type} (r : nat) (l : list (list A)) (i : nat) (x : A) :
  nth_error (nth r l []) i = Some x -> r < length l.
Proof.
  intros H. destruct (Nat.lt_ge_cases r (length l)) as [Hlt|Hge]; [exact Hlt|].
  rewrite nth_overflow in H by exact Hge. destruct i; discriminate.
Qed.

Lemma length_list_remove_le (x : string) (l : list string) :
  length (list_remove x l) <= length l.
Proof.
  induction l as [|y l IH]; simpl; [lia|].
  destruct (String.eqb x y); simpl; lia.
Qed.

Lemma length_list_remove_in (x : string) (l : list string) :
  In x l -> S (length (list_remove x l)) = length l.
Proof.
  induction l as [|y l IH]; simpl; [tauto|]. intros [->|H].
  - now rewrite String.eqb_refl.
  - destruct (String.eqb x y); simpl; [reflexivity | now rewrite IH].
Qed.

Lemma heap_eta (h : heap) : mkHeap (str_lists h) (param_dicts h) (obs_dicts h) = h.
Proof. destruct h; reflexivity. Qed.

Lemma process_filter_config (self self' : EMLikelihood) (filt : string) (a : list row) :
  process_filter self filt a = Ok self' -> config self' = config self.
Proof. rewrite process_filter_rows. intros H; injection H as <-. reflexivity. Qed.

(** The loop raises nothing; of the heap it changes at most the list of
    filters, which never grows; it changes no attribute of [config]. *)
Lemma process_loop_frame (fuel : nat) :
  forall (i : nat) (pd : observations) (self : EMLikelihood) (h : heap),
  exists self' sl',
    process_loop_on fuel i pd self h = (Ok self', mkHeap sl' (param_dicts h) (obs_dicts h)) /\
    config self' = config self /\
    length sl' = length (str_lists h) /\
    (forall r, r <> filters self -> nth r sl' [] = nth r (str_lists h) []) /\
    length (nth (filters self) sl' []) <= length (nth (filters self) (str_lists h) []).
Proof.
  induction fuel as [|fuel IH]; intros i pd self h.
  - exists self, (str_lists h). cbn. rewrite heap_eta. auto.
  - cbn [process_loop_on]. unfold bind at 1. unfold read_list at 1.
    destruct (nth_error (nth (filters self) (str_lists h) []) i) as [filt|] eqn:Hi.
    + destruct (Dict.lookup filt (obs_keys pd)) as [a|] eqn:Hpd.
      * unfold bind at 1, lift. rewrite process_filter_rows.
        match goal with |- context [process_loop_on fuel (S i) ?pd' ?s' h] =>
          destruct (IH (S i) pd' s' h) as (self' & sl' & E & Hc & Hl & Hn & Hle);
          exists self', sl'; rewrite E end.
        repeat split; auto.
      * unfold bind at 1, write_list.
        pose proof (nth_nonempty_valid _ _ _ Hi) as Hv.
        match goal with |- context [process_loop_on fuel (S i) pd self ?h1] =>
          destruct (IH (S i) pd self h1) as (self' & sl' & E & Hc & Hl & Hn & Hle);
          exists self', sl'; rewrite E end.
        cbn [str_lists param_dicts obs_dicts] in *.
        rewrite length_list_set in Hl. rewrite nth_list_set_eq in Hle by exact Hv.
        repeat split; auto.
        -- intros r Hr. rewrite Hn by exact Hr. now apply nth_list_set_ne.
        -- etransitivity; [exact Hle | apply length_list_remove_le].
    + exists self, (str_lists h). cbn. rewrite heap_eta. auto.
Qed.

(** One step of the loop. *)
Lemma process_loop_S (fuel i : nat) (pd : observations) (self : EMLikelihood)
  (h : heap) :
  process_loop_on (S fuel) i pd self h =
  match nth_error (nth (filters self) (str_lists h) []) i with
  | None => (Ok self, h)
  | Some filt =>
      match Dict.lookup filt (obs_keys pd) with
      | None =>
          process_loop_on fuel (S i) pd self
            (mkHeap (list_set (filters self)
                       (list_remove filt (nth (filters self) (str_lists h) []))
                       (str_lists h))
                    (param_dicts h) (obs_dicts h))
      | Some r =>
          let a' := shift_times (trigger_time self)
                                (rows (nth r (obs_arrays pd) no_array)) in
          match process_filter self filt a' with
          | Ok self' => process_loop_on fuel (S i) (shift_in_place r a' pd) self' h
          | Err e => (Err e, h)
          end
      end
  end.
Proof.
  cbn [process_loop_on]. unfold bind at 1. unfold read_list.
  destruct (nth_error (nth (filters self) (str_lists h) []) i) as [filt|];
    [|reflexivity].
  destruct (Dict.lookup filt (obs_keys pd)) as [r|]; [|reflexivity].
  unfold bind, lift. cbv zeta.
  destruct (process_filter self filt
              (shift_times (trigger_time self) (rows (nth r (obs_arrays pd) no_array))));
    reflexivity.
Qed.

(** One step per element of the list the loop starts with is enough: more
    fuel changes nothing. *)
Lemma process_loop_fuel (fuel : nat) :
  forall (i : nat) (pd : observations) (self : EMLikelihood) (h : heap) (k : nat),
  length (nth (filters self) (str_lists h) []) - i <= fuel ->
  process_loop_on (fuel + k) i pd self h = process_loop_on fuel i pd self h.
Proof.
  induction fuel as [|fuel IH]; intros i pd self h k Hf.
  - destruct k; [reflexivity|]. cbn [Nat.add]. rewrite process_loop_S.
    assert (E : nth_error (nth (filters self) (str_lists h) []) i = None)
      by (apply nth_error_None; lia).
    rewrite E. reflexivity.
  - cbn [Nat.add]. rewrite !process_loop_S.
    destruct (nth_error (nth (filters self) (str_lists h) []) i) as [filt|] eqn:Hi;
      [|reflexivity].
    destruct (Dict.lookup filt (obs_keys pd)) as [a|] eqn:Hpd.
    + cbv zeta. rewrite process_filter_rows.
      apply IH. cbn [filters set_nondet set_det]. lia.
    + pose proof (nth_nonempty_valid _ _ _ Hi) as Hv.
      apply IH. cbn [str_lists]. rewrite nth_list_set_eq by exact Hv.
      pose proof (length_list_remove_le filt (nth (filters self) (str_lists h) [])).
      lia.
Qed.

(** When every filter of the list is found in the data, the loop leaves the
    heap as it is. *)
Lemma process_loop_all_present (fuel : nat) :
  forall (i : nat) (pd : observations) (self : EMLikelihood) (h : heap),
  (forall f, In f (nth (filters self) (str_lists h) []) -> Dict.mem f (obs_keys pd) = true) ->
  snd (process_loop_on fuel i pd self h) = h.
Proof.
  induction fuel as [|fuel IH]; intros i pd self h Hall; [reflexivity|].
  rewrite process_loop_S.
  destruct (nth_error (nth (filters self) (str_lists h) []) i) as [filt|] eqn:Hi;
    [|reflexivity].
  pose proof (Hall filt (nth_error_In _ _ Hi)) as Hp. unfold Dict.mem in Hp.
  destruct (Dict.lookup filt (obs_keys pd)) as [a|] eqn:Hpd; [|discriminate].
  cbv zeta. rewrite process_filter_rows.
  apply IH. cbn [filters set_nondet set_det obs_keys shift_in_place]. exact Hall.
Qed.

(** When a filter at or behind the position of the iterator is not found in
    the data, the loop shortens the list. *)
Lemma process_loop_absent (fuel : nat) :
  forall (i j : nat) (f : string) (pd : observations) (self : EMLikelihood)
         (h : heap),
  i <= j ->
  nth_error (nth (filters self) (str_lists h) []) j = Some f ->
  Dict.mem f (obs_keys pd) = false ->
  length (nth (filters self) (str_lists h) []) - i <= fuel ->
  length (nth (filters self) (str_lists (snd (process_loop_on fuel i pd self h))) [])
  < length (nth (filters self) (str_lists h) []).
Proof.
  induction fuel as [|fuel IH]; intros i j f pd self h Hij Hj Hf Hfuel.
  - assert (j < length (nth (filters self) (str_lists h) []))
      by (apply nth_error_Some; congruence).
    lia.
  - rewrite process_loop_S.
    destruct (nth_error (nth (filters self) (str_lists h) []) i) as [g|] eqn:Hi.
    + destruct (Dict.lookup g (obs_keys pd)) as [a|] eqn:Hpd.
      * cbv zeta. rewrite process_filter_rows.
        assert (Hne : i <> j).
        { intros ->. rewrite Hj in Hi. injection Hi as ->.
          unfold Dict.mem in Hf. rewrite Hpd in Hf. discriminate. }
        match goal with |- context [process_loop_on fuel (S i) ?pd' ?s' h] =>
          apply (IH (S i) j f pd' s' h) end.
        -- lia.
        -- exact Hj.
        -- exact Hf.
        -- cbn [filters set_nondet set_det]. lia.
      * pose proof (nth_nonempty_valid _ _ _ Hi) as Hv.
        match goal with |- context [process_loop_on fuel (S i) pd self ?h1] =>
          destruct (process_loop_frame fuel (S i) pd self h1)
            as (self' & sl' & E & _ & _ & _ & Hle); rewrite E end.
        cbn [snd str_lists] in *.
        rewrite nth_list_set_eq in Hle by exact Hv.
        pose proof (length_list_remove_in g _ (nth_error_In _ _ Hi)). lia.
    + apply nth_error_None in Hi.
      assert (j < length (nth (filters self) (str_lists h) []))
        by (apply nth_error_Some; congruence).
      lia.
Qed.

(** ** The constructor *)

Lemma list_set_last {A : Type} (l : list A) (x y : A) :
  list_set (length l) x (l ++ [y]) = l ++ [x].
Proof. induction l as [|z l IH]; cbn; [reflexivity | now rewrite IH]. Qed.

(** The loop on the copy at the end of the store is the loop on the value
    of the copy; of the heap it changes the list of filters and the copy. *)
Lemma process_loop_value (fuel : nat) :
  forall (i : nat) (o : observations) (self : EMLikelihood)
         (sl : list (list string)) (pl : list (dict float)) (os : list observations),
  exists o',
    process_loop fuel i (length os) self (mkHeap sl pl (os ++ [o]))
    = (fst (process_loop_on fuel i o self (mkHeap sl pl os)),
       mkHeap (str_lists (snd (process_loop_on fuel i o self (mkHeap sl pl os))))
              pl (os ++ [o'])).
Proof.
  induction fuel as [|fuel IH]; intros i o self sl pl os.
  - exists o. reflexivity.
  - rewrite process_loop_S. cbn [process_loop str_lists param_dicts obs_dicts].
    unfold bind at 1. unfold read_list. cbn [str_lists].
    destruct (nth_error (nth (filters self) sl []) i) as [filt|];
      [|exists o; reflexivity].
    unfold bind at 1. unfold read_obs. cbn [obs_dicts]. rewrite nth_middle.
    destruct (Dict.lookup filt (obs_keys o)) as [r|].
    + cbv zeta. unfold bind at 1. unfold write_obs.
      cbn [str_lists param_dicts obs_dicts]. rewrite list_set_last.
      unfold bind at 1. unfold lift. rewrite process_filter_rows. apply IH.
    + unfold bind at 1. unfold write_list. cbn [str_lists param_dicts obs_dicts].
      apply IH.
Qed.

(** The copy is made, its keys are replaced, the loop runs on it, and it is
    gone when [process_data] returns. *)
Lemma process_data_eq (self : EMLikelihood) (dr : ref) (h : heap) :
  process_data self dr h
  = process_loop_on (length (nth (filters self) (str_lists h) [])) 0
      (normalize_obs (nth dr (obs_dicts h) no_observations)) self h.
Proof.
  destruct h as [sl pl os]. unfold process_data.
  unfold bind at 1. unfold deepcopy_obs. cbn [str_lists param_dicts obs_dicts].
  unfold bind at 1. unfold read_obs. cbn [obs_dicts]. rewrite nth_middle.
  unfold bind at 1. unfold write_obs. cbn [str_lists param_dicts obs_dicts].
  rewrite list_set_last.
  unfold bind at 1. unfold read_list. cbn [str_lists].
  set (o := normalize_obs (nth dr os no_observations)).
  set (n := length (nth (filters self) sl [])).
  destruct (process_loop_value n 0 o self sl pl os) as [o' E].
  destruct (process_loop_frame n 0 o self (mkHeap sl pl os))
    as (self1 & sl1 & E1 & _).
  unfold bind at 1. rewrite E, E1. cbn [fst snd str_lists param_dicts obs_dicts].
  unfold bind, release_obs, ret. cbn [str_lists param_dicts obs_dicts].
  now rewrite removelast_last.
Qed.

Lemma init_eq (m : LightcurveModel) (fr dr : ref) (trig lo hi : float)
  (eb : budget_arg) (fp : ref) (ign : bool) (dl : limit_arg) (h : heap) :
  __init__ m fr dr trig lo hi eb fp ign dl h =
  let fl := nth fr (str_lists h) [] in
  let budget := match eb with BudgetScalar x => broadcast fl x | BudgetDict d => d end in
  let limit := match dl with
               | LimitScalar x => broadcast fl x
               | LimitNone => broadcast fl Float.inf
               | LimitDict d => d
               end in
  let self0 := mkEM m fr trig lo hi ign limit budget [] [] [] [] [] [] fp in
  match process_loop_on (length fl) 0
          (normalize_obs (nth dr (obs_dicts h) no_observations)) self0 h with
  | (Ok self1, h1) =>
      let self2 := if (length (times_nondet self1) =? 0)%nat
                   then set_ignore_nondetections true self1 else self1 in
      match sigma_loop (nth (filters self2) (str_lists h1) []) self2 with
      | Ok self3 => (Ok (set_fixed_params fp self3), h1)
      | Err e => (Err e, h1)
      end
  | (Err e, h1) => (Err e, h1)
  end.
Proof.
  unfold __init__. unfold bind at 1. unfold read_list at 1. cbv zeta.
  unfold bind at 1. rewrite process_data_eq. cbn [filters].
  destruct (process_loop_on _ _ _ _ h) as [[self1|e] h1]; [|reflexivity].
  unfold bind, read_list, lift, ret.
  destruct (sigma_loop _ _); reflexivity.
Qed.

(** The loop of lines 85-86 changes [sigma] alone, and gives every filter of
    the list its combined uncertainty. *)
Lemma sigma_loop_spec (fl : list string) :
  forall self self',
  sigma_loop fl self = Ok self' ->
  set_sigma [] self' = set_sigma [] self /\
  (forall f, ~ In f fl -> Dict.lookup f (sigma self') = Dict.lookup f (sigma self)) /\
  (forall f, In f fl ->
     exists err b,
       Dict.lookup f (mag_err self) = Some err /\
       Dict.lookup f (error_budget self) = Some b /\
       Dict.lookup f (sigma self') = Some (combined b err)).
Proof.
  induction fl as [|g fl IH]; intros self self' H; cbn [sigma_loop] in H.
  - injection H as <-. split; [reflexivity|]. split; [reflexivity|]. intros f [].
  - unfold Dict.getitem in H.
    destruct (Dict.lookup g (mag_err self)) as [err|] eqn:He; [|discriminate].
    destruct (Dict.lookup g (error_budget self)) as [b|] eqn:Hb; [|discriminate].
    cbn [rbind] in H. apply IH in H. destruct H as (Hs & Hout & Hin).
    cbn [set_sigma mag_err error_budget sigma] in *.
    split; [|split].
    + rewrite Hs. reflexivity.
    + intros f Hf. rewrite Hout by (intros Hc; apply Hf; now right).
      apply DictFacts.lookup_insert_ne. intros ->. apply Hf. now left.
    + intros f Hf. destruct (in_dec string_dec f fl) as [Hfl|Hfl].
      * exact (Hin f Hfl).
      * destruct Hf as [->|Hf]; [|contradiction].
        exists err, b. repeat split; try assumption.
        rewrite Hout by exact Hfl. apply DictFacts.lookup_insert_eq.
Qed.

Lemma lookup_In {V : Type} (k : string) (v : V) (d : dict V) :
  Dict.lookup k d = Some v -> In (k, v) d.
Proof.
  induction d as [|[k' v'] d IH]; simpl; [discriminate|].
  destruct (String.eqb k k') eqn:E.
  - apply String.eqb_eq in E; subst k'. intros H; injection H as ->. now left.
  - intros H. right. now apply IH.
Qed.

Lemma In_lookup {V : Type} (k : string) (v : V) (d : dict V) :
  In (k, v) d -> exists v', Dict.lookup k d = Some v'.
Proof.
  induction d as [|[k' v'] d IH]; simpl; [tauto|].
  destruct (String.eqb k k') eqn:E; [intros _; now exists v'|].
  intros [H|H]; [|now apply IH].
  injection H as -> ->. rewrite String.eqb_refl in E. discriminate.
Qed.

(** [dict(zip(filters, [x] * len(filters)))] maps every filter of the list
    to [x], and nothing else. *)
Lemma lookup_broadcast (fl : list string) (x : float) (f : string) :
  (In f fl -> Dict.lookup f (broadcast fl x) = Some x) /\
  (forall v, Dict.lookup f (broadcast fl x) = Some v -> v = x).
Proof.
  unfold broadcast, Dict.of_items. rewrite DictFacts.lookup_fold_insert.
  assert (Hv : forall v, In (f, v) (rev (combine fl (repeat x (length fl)))) -> v = x).
  { intros v Hin. apply in_rev, in_combine_r in Hin. now apply repeat_spec in Hin. }
  split.
  - intros Hf.
    assert (Hin : In (f, x) (rev (combine fl (repeat x (length fl))))).
    { apply -> in_rev. clear Hv. induction fl as [|g fl IH]; simpl in *; [tauto|].
      destruct Hf as [->|Hf]; [now left | right; now apply IH]. }
    destruct (In_lookup _ _ _ Hin) as [v' Hv'].
    rewrite Hv'. f_equal. apply Hv. now apply lookup_In.
  - intros v. destruct (Dict.lookup f (rev _)) as [v'|] eqn:E; [|discriminate].
    intros H; injection H as <-. apply Hv. now apply lookup_In.
Qed.

(** Evaluate a closed call: unfold the program, decide the comparisons of
    the reals it meets. *)
Ltac run :=
  repeat (progress (cbv -[Rplus Rminus Rmult Rdiv Ropp Rinv IZR R_sqrt.sqrt
                           Float.Rltb Float.Reqb];
                    FloatFacts.rdec)).

(** C8.  When construction succeeds: a scalar error budget is the budget of
    every requested filter; without a detection limit every requested filter
    has the limit [+inf]; every active filter has
    [sigma = sqrt(mag_err^2 + budget^2)]; and with the scalar budget [0.5]
    every sigma is [sqrt(mag_err^2 + 0.25)]. *)
Theorem C8_sigma_and_broadcast (m : LightcurveModel) (fr dr : ref)
  (trig lo hi : float) (eb : budget_arg) (fp : ref) (ign : bool) (dl : limit_arg)
  (h h' : heap) (self : EMLikelihood) :
  __init__ m fr dr trig lo hi eb fp ign dl h = (Ok self, h') ->
  (forall x, eb = BudgetScalar x ->
     forall f, In f (nth fr (str_lists h) []) ->
       Dict.lookup f (error_budget self) = Some x) /\
  (dl = LimitNone ->
     forall f, In f (nth fr (str_lists h) []) ->
       Dict.lookup f (detection_limit self) = Some Float.inf) /\
  (forall f, In f (nth (filters self) (str_lists h') []) ->
     exists err b,
       Dict.lookup f (mag_err self) = Some err /\
       Dict.lookup f (error_budget self) = Some b /\
       Dict.lookup f (sigma self) = Some (combined b err)) /\
  (eb = BudgetScalar (Float.Fin 0.5) ->
     forall f, In f (nth (filters self) (str_lists h') []) ->
       exists err,
         Dict.lookup f (mag_err self) = Some err /\
         Dict.lookup f (sigma self) =
         Some (map (fun e => Float.sqrt (Float.add (Float.sqr e) (Float.Fin 0.25)))
                   err)).
Proof.
  rewrite init_eq. cbv zeta.
  match goal with |- context [process_loop_on ?n 0 ?pd ?s0 h] =>
    destruct (process_loop_frame n 0 pd s0 h) as (self1 & sl1 & E & Hc & _);
    rewrite E end.
  set (self2 := if (length (times_nondet self1) =? 0)%nat
                then set_ignore_nondetections true self1 else self1).
  assert (Hc2 : filters self2 = fr /\
                detection_limit self2 = detection_limit self1 /\
                error_budget self2 = error_budget self1).
  { unfold config in Hc. cbn in Hc. injection Hc as _ Hf _ _ _ _ _ _ _ _.
    unfold self2. destruct (_ =? _)%nat; cbn; auto. }
  destruct Hc2 as (Hf2 & Hd2 & Hb2).
  unfold config in Hc. cbn in Hc. injection Hc as _ _ _ _ _ _ Hdl Hbud _ _.
  destruct (sigma_loop _ self2) as [self3|e] eqn:Es; [|discriminate].
  intros H; injection H as <- <-.
  apply sigma_loop_spec in Es. destruct Es as (Hs & _ & Hin).
  assert (Hfields : detection_limit self3 = detection_limit self2 /\
                    error_budget self3 = error_budget self2 /\
                    mag_err self3 = mag_err self2 /\
                    filters self3 = filters self2).
  { destruct self3, self2. cbn in Hs. injection Hs; intros; subst. cbn. auto. }
  destruct Hfields as (Hd3 & Hb3 & He3 & Hf3).
  cbn [error_budget detection_limit mag_err sigma filters set_fixed_params str_lists].
  rewrite Hd3, Hb3, He3, Hf3, Hd2, Hb2, Hf2, Hdl, Hbud.
  rewrite Hf2, Hb2, Hbud in Hin. cbn [str_lists] in Hin.
  split; [|split; [|split]].
  - intros x -> f Hf. now apply lookup_broadcast.
  - intros -> f Hf. now apply lookup_broadcast.
  - intros f Hf. destruct (Hin f Hf) as (err & b & H1 & H2 & H3).
    exists err, b. auto.
  - intros -> f Hf. destruct (Hin f Hf) as (err & b & H1 & H2 & H3).
    exists err. split; [exact H1|]. rewrite H3.
    apply lookup_broadcast in H2. subst b. f_equal. unfold combined.
    apply map_ext. intros e. do 2 f_equal. unfold Float.sqr; cbn. f_equal. lra.
Qed.

Lemma sample_init :
  __init__ sample_model 1 0 (Float.Fin 0) (Float.Fin 0) (Float.Fin 14)
           (BudgetScalar (Float.Fin 0.5)) 1 false LimitNone sample_heap
  = (Ok sample_object, sample_heap).
Proof. run. reflexivity. Qed.

Lemma C8_witness :
  exists err,
    Dict.lookup "b" (mag_err sample_object) = Some err /\
    Dict.lookup "b" (sigma sample_object) =
    Some (map (fun e => Float.sqrt (Float.add (Float.sqr e) (Float.Fin 0.25))) err).
Proof.
  refine (proj2 (proj2 (proj2 (C8_sigma_and_broadcast _ _ _ _ _ _ _ _ _ _ _
                                 sample_init))) eq_refl "b"%string _).
  simpl. left. reflexivity.
Defined.

Lemma list_remove_Permutation (g : string) (l : list string) :
  In g l -> Permutation (g :: list_remove g l) l.
Proof.
  induction l as [|y l IH]; cbn; [tauto|]. intros Hin.
  destruct (String.eqb g y) eqn:E.
  - apply String.eqb_eq in E. now subst y.
  - destruct Hin as [->|Hin]; [rewrite String.eqb_refl in E; discriminate|].
    etransitivity; [apply perm_swap|]. constructor. now apply IH.
Qed.

Lemma filter_list_remove (p : string -> bool) (g : string) (l : list string) :
  p g = false -> filter p (list_remove g l) = filter p l.
Proof.
  intros Hg. induction l as [|y l IH]; cbn; [reflexivity|].
  destruct (String.eqb g y) eqn:E.
  - apply String.eqb_eq in E. subst y. now rewrite Hg.
  - cbn. now rewrite IH.
Qed.

(** What the loop takes out of the list are names that are not keys of the
    data; the filters found in the data stay, in their order. *)
Lemma process_loop_removed (keys : dict nat) (r : ref) (fuel : nat) :
  forall (i : nat) (pd : observations) (self : EMLikelihood) (h : heap),
  obs_keys pd = keys -> filters self = r ->
  let final := nth r (str_lists (snd (process_loop_on fuel i pd self h))) [] in
  (exists gone,
     Permutation (final ++ gone) (nth r (str_lists h) []) /\
     Forall (fun g => Dict.mem g keys = false) gone) /\
  filter (fun f => Dict.mem f keys) final
  = filter (fun f => Dict.mem f keys) (nth r (str_lists h) []).
Proof.
  induction fuel as [|fuel IH]; intros i pd self h Hk Hr; cbv zeta.
  - cbn. split; [|reflexivity]. exists []. now rewrite app_nil_r.
  - rewrite process_loop_S. rewrite Hr, Hk.
    destruct (nth_error (nth r (str_lists h) []) i) as [g|] eqn:Hi.
    2:{ cbn. split; [|reflexivity]. exists []. now rewrite app_nil_r. }
    destruct (Dict.lookup g keys) as [a|] eqn:Hg.
    + cbv zeta. rewrite process_filter_rows. apply IH; [exact Hk | exact Hr].
    + pose proof (nth_nonempty_valid _ _ _ Hi) as Hv.
      assert (Hm : Dict.mem g keys = false) by (unfold Dict.mem; now rewrite Hg).
      match goal with |- context [process_loop_on fuel (S i) pd self ?h1] =>
        destruct (IH (S i) pd self h1 Hk Hr) as ((gone & Hp & Hgone) & Hf) end.
      cbn [str_lists] in Hp, Hf. rewrite nth_list_set_eq in Hp, Hf by exact Hv.
      split.
      * exists (g :: gone). split; [|now constructor].
        etransitivity; [symmetry; apply Permutation_middle|].
        etransitivity; [apply perm_skip; exact Hp|].
        apply list_remove_Permutation. exact (nth_error_In _ _ Hi).
      * rewrite Hf. now apply filter_list_remove.
Qed.

(** C10.  The constructor keeps the caller's list of filters by reference
    and removes from it in place: what goes are names that are not keys of
    the data, the filters found in the data stay in their order, the list is
    shorter as soon as one requested filter is missing and unchanged when
    none is.  The observation mappings of the caller are as before, although
    the loop shifts the times of numpy arrays in place: it does so in the
    deep copy.  No other list changes. *)
Theorem C10_filters_by_reference (m : LightcurveModel) (fr dr : ref)
  (trig lo hi : float) (eb : budget_arg) (fp : ref) (ign : bool) (dl : limit_arg)
  (h : heap) :
  let out := __init__ m fr dr trig lo hi eb fp ign dl h in
  let requested := nth fr (str_lists h) [] in
  let final := nth fr (str_lists (snd out)) [] in
  let data := normalize_keys (obs_keys (nth dr (obs_dicts h) no_observations)) in
  (forall self, fst out = Ok self -> filters self = fr) /\
  obs_dicts (snd out) = obs_dicts h /\
  (forall r, r <> fr -> nth r (str_lists (snd out)) [] = nth r (str_lists h) []) /\
  (exists gone,
     Permutation (final ++ gone) requested /\
     Forall (fun g => Dict.mem g data = false) gone) /\
  filter (fun f => Dict.mem f data) final
  = filter (fun f => Dict.mem f data) requested /\
  ((exists f, In f requested /\ Dict.mem f data = false) ->
   length final < length requested) /\
  ((forall f, In f requested -> Dict.mem f data = true) -> final = requested).
Proof.
  intros out requested final data. subst final out. rewrite init_eq. cbv zeta.
  fold requested.
  set (pd := normalize_obs (nth dr (obs_dicts h) no_observations)).
  set (self0 := mkEM m fr trig lo hi ign _ _ [] [] [] [] [] [] fp).
  assert (Hout : exists r,
             match process_loop_on (length requested) 0 pd self0 h with
             | (Ok self1, h1) =>
                 match sigma_loop (nth (filters
                          (if (length (times_nondet self1) =? 0)%nat
                           then set_ignore_nondetections true self1 else self1))
                          (str_lists h1) [])
                         (if (length (times_nondet self1) =? 0)%nat
                          then set_ignore_nondetections true self1 else self1) with
                 | Ok self3 => (Ok (set_fixed_params fp self3), h1)
                 | Err e => (Err e, h1)
                 end
             | (Err e, h1) => (Err e, h1)
             end = (r, snd (process_loop_on (length requested) 0 pd self0 h)) /\
             forall self, r = Ok self -> filters self = fr).
  { destruct (process_loop_frame (length requested) 0 pd self0 h)
      as (self1 & sl1 & E & Hc & _). rewrite E. cbn [snd].
    set (self2 := if (length (times_nondet self1) =? 0)%nat
                  then set_ignore_nondetections true self1 else self1).
    assert (Hf2 : filters self2 = fr).
    { unfold config in Hc. injection Hc as _ Hf _ _ _ _ _ _ _ _.
      unfold self2. destruct (_ =? _)%nat; cbn; exact Hf. }
    destruct (sigma_loop _ self2) as [self3|e] eqn:Es.
    - eexists; split; [reflexivity|]. intros self H; injection H as <-.
      apply sigma_loop_spec in Es. destruct Es as (Hs & _).
      destruct self3, self2. cbn in *. injection Hs; intros; subst. reflexivity.
    - eexists; split; [reflexivity|]. discriminate. }
  destruct Hout as (r & -> & Hr). cbn [fst snd].
  destruct (process_loop_frame (length requested) 0 pd self0 h)
    as (self1 & sl1 & E & _ & _ & Hn & _).
  destruct (@process_loop_removed data fr (length requested) 0 pd self0 h
              eq_refl eq_refl) as (Hgone & Hfound).
  split; [exact Hr|]. split; [now rewrite E|].
  split; [rewrite E; exact Hn|].
  split; [exact Hgone|]. split; [exact Hfound|]. split.
  - intros (f & Hf & Habs). destruct (In_nth_error _ _ Hf) as [j Hj].
    apply (@process_loop_absent (length requested) 0 j f pd self0 h);
      [lia | exact Hj | exact Habs | cbn [filters self0]; fold requested; lia].
  - intros Hall. rewrite process_loop_all_present; [reflexivity | exact Hall].
Qed.

(** The list [["b"; "a"]] is the caller's; ["a"] is not in the data: after
    the construction the filters of the caller's list that are found in the
    data are those of the list before, ["b"]. *)
Lemma C10_witness :
  filter (fun f => Dict.mem f (normalize_keys
                                 (obs_keys (nth 0 (obs_dicts sample_heap)
                                                no_observations))))
         (nth 2 (str_lists (snd (__init__ sample_model 2 0 (Float.Fin 0)
                                   (Float.Fin 0) (Float.Fin 14)
                                   (BudgetScalar (Float.Fin 0.5)) 1
                                   false LimitNone sample_heap))) [])
  = ["b"%string] /\
  length (nth 2 (str_lists (snd (__init__ sample_model 2 0 (Float.Fin 0) (Float.Fin 0)
                                   (Float.Fin 14) (BudgetScalar (Float.Fin 0.5)) 1
                                   false LimitNone sample_heap))) [])
  < length (nth 2 (str_lists sample_heap) []).
Proof.
  pose proof (C10_filters_by_reference sample_model 2 0 (Float.Fin 0) (Float.Fin 0)
                (Float.Fin 14) (BudgetScalar (Float.Fin 0.5)) 1 false LimitNone
                sample_heap) as (_ & _ & _ & _ & Hfound & Hshort & _).
  split.
  - exact Hfound.
  - apply Hshort. exists "a"%string. split; [simpl; auto | reflexivity].
Defined.

(** The same call, evaluated: it succeeds and leaves ["b"] in the caller's
    list. *)
Lemma sample_soft_drop :
  exists self,
    __init__ sample_model 2 0 (Float.Fin 0) (Float.Fin 0) (Float.Fin 14)
             (BudgetScalar (Float.Fin 0.5)) 1 false LimitNone sample_heap
    = (Ok self,
       mkHeap [["a"; "b"]; ["b"]; ["b"]]%string (param_dicts sample_heap)
              (obs_dicts sample_heap)).
Proof. eexists. run. reflexivity. Qed.

(** ** What the constructor does where the claims fail *)

(** C3.  The requested filters are [["a"; "b"]] and the data holds ["b"]
    alone.  Removing ["a"] while the loop runs over the list makes the loop
    step over ["b"]: ["b"] stays in the list without processed rows, and the
    loop of the sigmas raises [KeyError "b"]. *)
Theorem C3_absent_filter_raises :
  Dict.mem "b" (normalize_keys (obs_keys (nth 0 (obs_dicts sample_heap) no_observations))) = true /\
  __init__ sample_model 0 0 (Float.Fin 0) (Float.Fin 0) (Float.Fin 14)
           (BudgetScalar (Float.Fin 0.5)) 1 false LimitNone sample_heap
  = (Err (KeyError "b"),
     mkHeap [["b"]; ["b"]; ["b"; "a"]]%string (param_dicts sample_heap)
            (obs_dicts sample_heap)).
Proof. split; [reflexivity|]. run. reflexivity. Qed.

(** C4.  The three rows of [sample_rows] lie in the window; the second one
    has the error [+inf].  The constructed object stores the two detections
    as detections and, again, in reverse order, as non-detections; the row
    of magnitude [21] is in neither. *)
Theorem C4_upper_limit_row_lost :
  __init__ sample_model 1 0 (Float.Fin 0) (Float.Fin 0) (Float.Fin 14)
           (BudgetScalar (Float.Fin 0.5)) 1 false LimitNone sample_heap
  = (Ok sample_object, sample_heap) /\
  map is_detection
      (filter (in_open_window (Float.Fin 0) (Float.Fin 14))
              (shift_times (Float.Fin 0) sample_rows))
  = [true; false; true] /\
  Dict.lookup "b" (mag_det sample_object) = Some [Float.Fin 20; Float.Fin 22] /\
  Dict.lookup "b" (mag_nondet sample_object) = Some [Float.Fin 22; Float.Fin 20] /\
  ~ In (Float.Fin 21) [Float.Fin 22; Float.Fin 20].
Proof.
  split; [exact sample_init|]. split; [run; reflexivity|].
  split; [reflexivity|]. split; [reflexivity|].
  simpl. intros [H|[H|[]]]; injection H as H; lra.
Qed.

(** C5.  The one row of [sample_row] is a detection, so the object has no
    non-detection row; the caller passes [ignore_nondetections = False], and
    the flag of the constructed object is still [False]: the test of line 79
    counts the keys of [times_nondet], one per processed filter. *)
Theorem C5_flag_not_forced :
  exists self h',
    __init__ sample_model 1 1 (Float.Fin 0) (Float.Fin 0) (Float.Fin 14)
             (BudgetScalar (Float.Fin 0.5)) 1 false LimitNone sample_heap
    = (Ok self, h') /\
    forallb is_detection sample_row = true /\
    Dict.lookup "b" (mag_det self) = Some [Float.Fin 20] /\
    ignore_nondetections self = false.
Proof.
  eexists. eexists. split; [run; reflexivity|].
  split; [reflexivity|]. split; reflexivity.
Qed.

(** ** Maps over dictionaries *)

Lemma mapM_Forall2 {A B : Type} (f : A -> result B) (l : list A) :
  forall l', mapM f l = Ok l' -> Forall2 (fun x y => f x = Ok y) l l'.
Proof.
  induction l as [|x l IH]; intros l' H; cbn [mapM] in H.
  - injection H as <-. constructor.
  - destruct (f x) as [y|e] eqn:Ex; [|discriminate]. cbn [rbind] in H.
    destruct (mapM f l) as [ys|e]; [|discriminate]. cbn [rbind] in H.
    injection H as <-. constructor; [exact Ex | now apply IH].
Qed.

Lemma mapM_total {A B : Type} (f : A -> result B) (l : list A) :
  (forall x, In x l -> exists y, f x = Ok y) -> exists l', mapM f l = Ok l'.
Proof.
  induction l as [|x l IH]; intros H; cbn [mapM]; [now exists []|].
  destruct (H x (or_introl eq_refl)) as [y ->].
  destruct IH as [ys ->]; [intros z Hz; apply H; now right|].
  now exists (y :: ys).
Qed.

Lemma Forall2_compose {A B C : Type} (P : A -> B -> Prop) (Q : B -> C -> Prop)
  (l1 : list A) (l2 : list B) :
  Forall2 P l1 l2 -> forall l3, Forall2 Q l2 l3 ->
  Forall2 (fun x z => exists y, P x y /\ Q y z) l1 l3.
Proof.
  intros H12; induction H12; intros l3 H23; inversion H23; subst;
    constructor; eauto.
Qed.

Lemma Forall2_values {A B : Type} (P : string * A -> B -> Prop)
  (l1 : list (string * A)) (l2 : list (string * B)) :
  Forall2 (fun x y => P x (snd y)) l1 l2 -> Forall2 P l1 (Dict.values l2).
Proof. induction 1; cbn; constructor; assumption. Qed.

Lemma Forall2_keys {A B : Type} (l1 : dict A) (l2 : dict B) (P : _ -> _ -> Prop) :
  Forall2 (fun x y => fst y = fst x /\ P x y) l1 l2 -> Dict.keys l2 = Dict.keys l1.
Proof.
  unfold Dict.keys.
  induction 1 as [|x y l1 l2 [H _] _ IH]; cbn; [reflexivity | now rewrite H, IH].
Qed.

Lemma tree_map_Forall2 {A C : Type} (f : A -> result C) (d : dict A) (d' : dict C) :
  Jax.tree_map f d = Ok d' ->
  Forall2 (fun kv kv' => fst kv' = fst kv /\ f (snd kv) = Ok (snd kv')) d d'.
Proof.
  intros H. apply mapM_Forall2 in H. eapply Forall2_impl; [|exact H].
  intros [k a] [k' c] Hkv. cbn in *.
  destruct (f a) as [c0|]; [|discriminate]. cbn in Hkv. injection Hkv as <- <-. auto.
Qed.

Lemma zip_tree_Forall2 {A B : Type} (d1 : dict A) (d2 : dict B) (z : dict (A * B)) :
  Jax.zip_tree d1 d2 = Ok z ->
  Forall2 (fun kv kz => fst kz = fst kv /\
                        (fst (snd kz) = snd kv /\
                         Dict.lookup (fst kv) d2 = Some (snd (snd kz)))) d1 z.
Proof.
  unfold Jax.zip_tree. destruct (Jax.same_keys d1 d2); [|discriminate].
  intros H. apply mapM_Forall2 in H. eapply Forall2_impl; [|exact H].
  intros [k a] [k' [a' b]] Hkv. cbn in *. unfold Dict.getitem in Hkv.
  destruct (Dict.lookup k d2) as [b0|]; [|discriminate]. cbn in Hkv.
  injection Hkv as <- <- <-. auto.
Qed.

Lemma lookup_Forall2 {A B : Type} (P : A -> B -> Prop) (d : dict A) (d' : dict B) :
  Forall2 (fun kv kv' => fst kv' = fst kv /\ P (snd kv) (snd kv')) d d' ->
  forall k b, Dict.lookup k d' = Some b ->
              exists a, Dict.lookup k d = Some a /\ P a b.
Proof.
  induction 1 as [|[k0 a0] [k1 b1] d d' [Hk HP] _ IH]; intros k b Hl; cbn in *.
  - discriminate.
  - subst k1. destruct (String.eqb k k0); [|now apply IH].
    injection Hl as <-. now exists a0.
Qed.

Lemma mem_keys {V : Type} (k : string) (d : dict V) :
  Dict.mem k d = existsb (String.eqb k) (Dict.keys d).
Proof.
  unfold Dict.mem. induction d as [|[k' v] d IH]; cbn; [reflexivity|].
  destruct (String.eqb k k'); [reflexivity | exact IH].
Qed.

Lemma forallb_pointwise {A : Type} (f g : A -> bool) (l : list A) :
  (forall x, f x = g x) -> forallb f l = forallb g l.
Proof. intros H. induction l as [|x l IH]; cbn; [reflexivity | now rewrite H, IH]. Qed.

Lemma same_keys_keys {A A' B B' : Type} (d1 : dict A) (d1' : dict A')
  (d2 : dict B) (d2' : dict B') :
  Dict.keys d1' = Dict.keys d1 -> Dict.keys d2' = Dict.keys d2 ->
  Jax.same_keys d1' d2' = Jax.same_keys d1 d2.
Proof.
  intros H1 H2. unfold Jax.same_keys. rewrite H1, H2. f_equal.
  - apply forallb_pointwise. intros k. now rewrite !mem_keys, H2.
  - apply forallb_pointwise. intros k. now rewrite !mem_keys, H1.
Qed.

Lemma zip_tree_total {A B : Type} (d1 : dict A) (d2 : dict B) :
  Jax.same_keys d1 d2 = true ->
  exists z, Jax.zip_tree d1 d2 = Ok z /\ Dict.keys z = Dict.keys d1.
Proof.
  intros Hs.
  assert (H : forall k, In k (Dict.keys d1) -> Dict.mem k d2 = true).
  { apply andb_true_iff in Hs. destruct Hs as [H _]. now apply forallb_forall. }
  destruct (mapM_total
              (fun kv => (b <- Dict.getitem (fst kv) d2 ;;
                          Ok (fst kv, (snd kv, b)))%result) d1) as [z Hz].
  - intros [k a] Hin. cbn.
    assert (Hm : Dict.mem k d2 = true).
    { apply H. unfold Dict.keys. now apply (in_map fst) in Hin. }
    unfold Dict.mem, Dict.getitem in *. destruct (Dict.lookup k d2); [|discriminate].
    cbn. eauto.
  - exists z.
    assert (Hz' : Jax.zip_tree d1 d2 = Ok z) by (unfold Jax.zip_tree; now rewrite Hs).
    split; [exact Hz'|].
    apply zip_tree_Forall2 in Hz'. eapply Forall2_keys. exact Hz'.
Qed.

(** ** [evaluate] *)

Section EvaluateFacts.

Variable mag_app_from_mag_abs : list float -> float -> list float.
Variable truncated_gaussian :
  list float -> list float -> list float -> float -> list float.
Variable interp : list float -> list float -> list float -> list float.

Abbreviation evaluate' := (evaluate mag_app_from_mag_abs truncated_gaussian interp).
Abbreviation log_likelihood' :=
  (log_likelihood mag_app_from_mag_abs truncated_gaussian interp).
Abbreviation is_chisq_term' :=
  (is_chisq_term mag_app_from_mag_abs truncated_gaussian interp).

(** [evaluate] allocates the merged dictionary, computes from it, and
    writes nothing else. *)
Lemma evaluate_eq (self : EMLikelihood) (theta : ref) (h : heap) :
  evaluate' self theta h =
  (log_likelihood' self (merged_theta self theta h),
   mkHeap (str_lists h) (param_dicts h ++ [merged_theta self theta h]) (obs_dicts h)).
Proof.
  unfold evaluate, bind, read_dict, alloc_dict, lift, ret. cbn [param_dicts].
  rewrite nth_middle. fold (merged_theta self theta h).
  unfold log_likelihood. cbv zeta.
  destruct (Jax.tree_map _ (predict (model self) _)) as [mag_app|e]; [|reflexivity].
  cbn [rbind].
  destruct (Jax.tree_map2 _ (times_det self) mag_app) as [mai|e]; [|reflexivity].
  cbn [rbind].
  destruct (Jax.tree_map4 _ mai _ _ _) as [chisq|e]; reflexivity.
Qed.

(** A value of [log_likelihood] is the sum of one chi-square term per entry
    of [times_det]. *)
Lemma log_likelihood_sum (self : EMLikelihood) (theta : dict float) (v : float) :
  log_likelihood' self theta = Ok v ->
  exists terms,
    Forall2 (is_chisq_term' self theta) (times_det self) terms /\
    v = Float.sum terms.
Proof.
  unfold log_likelihood. cbv zeta.
  destruct (Jax.tree_map _ (predict (model self) theta)) as [mag_app|e] eqn:E1;
    [|discriminate]. cbn [rbind].
  destruct (Jax.tree_map2 _ (times_det self) mag_app) as [mai|e] eqn:E2;
    [|discriminate]. cbn [rbind].
  destruct (Jax.tree_map4 _ mai _ _ _) as [chisq|e] eqn:E3; [|discriminate].
  cbn [rbind]. intros H; injection H as <-.
  exists (Dict.values chisq). split; [|apply FloatFacts.add_zero_r].
  apply Forall2_values.
  (* the apparent magnitudes *)
  apply tree_map_Forall2 in E1.
  pose proof (lookup_Forall2
                (fun a c => (d <- Dict.getitem "luminosity_distance" theta ;;
                             Ok (mag_app_from_mag_abs a d))%result = Ok c)
                E1) as L1.
  (* the interpolated magnitudes *)
  unfold Jax.tree_map2 in E2.
  destruct (Jax.zip_tree (times_det self) mag_app) as [z|e] eqn:Z; [|discriminate].
  cbn [rbind] in E2. apply zip_tree_Forall2 in Z. apply tree_map_Forall2 in E2.
  (* the terms *)
  unfold Jax.tree_map4 in E3.
  destruct (Jax.zip_tree mai (mag_det self)) as [z2|e] eqn:Z2; [|discriminate].
  cbn [rbind] in E3.
  destruct (Jax.zip_tree z2 (sigma self)) as [z3|e] eqn:Z3; [|discriminate].
  cbn [rbind] in E3.
  destruct (Jax.zip_tree z3 (detection_limit self)) as [z4|e] eqn:Z4; [|discriminate].
  cbn [rbind] in E3.
  apply zip_tree_Forall2 in Z2, Z3, Z4. apply tree_map_Forall2 in E3.
  pose proof (Forall2_compose Z
                (Forall2_compose E2
                   (Forall2_compose Z2 (Forall2_compose Z3 (Forall2_compose Z4 E3)))))
    as Hall.
  eapply Forall2_impl; [|exact Hall].
  intros [k t] [kc c]. cbn [fst snd].
  intros ([kz [t' m]] & (Hk & Ht & Hm) & [ki est] & (Hki & Hest) &
          [k2 [est2 det]] & (Hk2 & He2 & Hdet) &
          [k3 [[est3 det3] sig]] & (Hk3 & He3 & Hsig) &
          [k4 [[[est4 det4] sig4] lim]] & (Hk4 & He4 & Hlim) & (Hkc & Hterm)).
  cbn [fst snd] in *. subst kz ki k2 k3 k4 kc t'.
  injection He3 as -> ->. injection He4 as -> -> ->. subst est2.
  destruct (L1 _ _ Hm) as (ma & Hma & Hd).
  unfold Dict.getitem in Hd.
  destruct (Dict.lookup "luminosity_distance" theta) as [d|] eqn:Ed; [|discriminate].
  cbn [rbind] in Hd. injection Hd as <-.
  injection Hest as <-. injection Hterm as <-.
  exists ma, d, det, sig, lim. cbn [fst snd]. auto 10.
Qed.

End EvaluateFacts.

Lemma tree_map_pure {A C : Type} (g : A -> C) (d : dict A) :
  Jax.tree_map (fun x => Ok (g x)) d = Ok (map (fun kv => (fst kv, g (snd kv))) d).
Proof.
  unfold Jax.tree_map. induction d as [|[k a] d IH]; cbn; [reflexivity|].
  cbn in IH. now rewrite IH.
Qed.

Lemma keys_map_values {A C : Type} (g : A -> C) (d : dict A) :
  Dict.keys (map (fun kv => (fst kv, g (snd kv))) d) = Dict.keys d.
Proof. unfold Dict.keys. rewrite map_map. reflexivity. Qed.

Lemma lookup_None_iff {V : Type} (k : string) (d : dict V) :
  Dict.lookup k d = None <-> ~ In k (Dict.keys d).
Proof.
  induction d as [|[k' v] d IH]; cbn; [tauto|].
  destruct (String.eqb k k') eqn:E.
  - apply String.eqb_eq in E; subst k'. split; [discriminate | tauto].
  - apply String.eqb_neq in E. rewrite IH. split; [intros H [Hc|Hc]; auto | tauto].
Qed.

Lemma lookup_None_rev {V : Type} (k : string) (d : dict V) :
  Dict.lookup k d = None -> Dict.lookup k (rev d) = None.
Proof.
  rewrite !lookup_None_iff. unfold Dict.keys. rewrite map_rev.
  intros H Hc. apply H. now apply in_rev.
Qed.

Lemma NoDup_In_lookup {V : Type} (k : string) (v : V) (d : dict V) :
  NoDup (Dict.keys d) -> In (k, v) d -> Dict.lookup k d = Some v.
Proof.
  induction d as [|[k' v'] d IH]; cbn; [tauto|]. intros Hnd Hin.
  inversion Hnd as [|? ? Hnotin Hnd']; subst.
  destruct Hin as [Heq|Hin].
  - injection Heq as -> ->. now rewrite String.eqb_refl.
  - destruct (String.eqb k k') eqn:E; [|now apply IH].
    apply String.eqb_eq in E; subst k'. exfalso. apply Hnotin.
    now apply (in_map fst) in Hin.
Qed.

Lemma lookup_rev_NoDup {V : Type} (k : string) (v : V) (d : dict V) :
  NoDup (Dict.keys d) -> Dict.lookup k d = Some v -> Dict.lookup k (rev d) = Some v.
Proof.
  intros Hnd H. apply NoDup_In_lookup.
  - unfold Dict.keys. rewrite map_rev. now apply NoDup_rev.
  - apply -> in_rev. now apply lookup_In.
Qed.


(** ** The rows of the constructed object *)

Lemma process_loop_end (fuel i : nat) (pd : observations) (self : EMLikelihood)
  (h : heap) :
  length (nth (filters self) (str_lists h) []) <= i ->
  process_loop_on fuel i pd self h = (Ok self, h).
Proof.
  intros H. destruct fuel; [reflexivity|]. rewrite process_loop_S.
  assert (E : nth_error (nth (filters self) (str_lists h) []) i = None)
    by now apply nth_error_None.
  now rewrite E.
Qed.

Lemma list_remove_app (g : string) (done rest : list string) :
  ~ In g done -> list_remove g (done ++ g :: rest) = done ++ rest.
Proof.
  induction done as [|y done IH]; intros H; cbn.
  - now rewrite String.eqb_refl.
  - destruct (String.eqb g y) eqn:E.
    + apply String.eqb_eq in E. subst y. exfalso. apply H. now left.
    + rewrite IH; [reflexivity|]. intros Hc. apply H. now right.
Qed.

Lemma nth_error_app_length {A : Type} (done rest : list A) :
  nth_error (done ++ rest) (length done) = nth_error rest 0.
Proof. rewrite nth_error_app2 by lia. now rewrite Nat.sub_diag. Qed.

(** One pass of the body gives the filter the rows of the array [a]. *)
Lemma stored_rows_step (self : EMLikelihood) (g : string) (a : list row) :
  let kept := filter (in_open_window (tmin self) (tmax self))
                     (shift_times (trigger_time self) a) in
  let det := filter is_detection kept in
  let mask := map is_detection kept in
  stored_rows
    (set_nondet g (compress mask (rev (col_time kept)))
                  (compress mask (rev (col_mag kept)))
       (set_det g (col_time det) (col_mag det) (col_err det) self)) g a.
Proof.
  intros kept det mask. unfold stored_rows.
  cbn [times_det mag_det mag_err times_nondet mag_nondet
       tmin tmax trigger_time set_nondet set_det].
  rewrite !DictFacts.lookup_insert_eq. fold kept. fold det. fold mask. auto.
Qed.

(** One pass of the body leaves the rows of the other filters. *)
Lemma stored_rows_other (self : EMLikelihood) (g f : string) (a : list row)
  (t m e tn mn : list float) :
  f <> g -> stored_rows self f a ->
  stored_rows (set_nondet g tn mn (set_det g t m e self)) f a.
Proof.
  intros E Hs. unfold stored_rows in *.
  cbn [times_det mag_det mag_err times_nondet mag_nondet
       tmin tmax trigger_time set_nondet set_det].
  rewrite !DictFacts.lookup_insert_ne by exact E. exact Hs.
Qed.

Lemma no_rows_other (self : EMLikelihood) (g f : string)
  (t m e tn mn : list float) :
  f <> g -> no_rows self f ->
  no_rows (set_nondet g tn mn (set_det g t m e self)) f.
Proof.
  intros E Hn. unfold no_rows in *.
  cbn [times_det mag_det mag_err times_nondet mag_nondet set_nondet set_det].
  rewrite !DictFacts.lookup_insert_ne by exact E. exact Hn.
Qed.

(** One pass of the body keeps [rows_ok]. *)
Lemma rows_ok_step (keys : dict nat) (self : EMLikelihood) (g : string)
  (r : nat) (a : list row) :
  rows_ok keys self -> Dict.lookup g keys = Some r ->
  let kept := filter (in_open_window (tmin self) (tmax self))
                     (shift_times (trigger_time self) a) in
  let det := filter is_detection kept in
  let mask := map is_detection kept in
  rows_ok keys
    (set_nondet g (compress mask (rev (col_time kept)))
                  (compress mask (rev (col_mag kept)))
       (set_det g (col_time det) (col_mag det) (col_err det) self)).
Proof.
  intros Hok Ha kept det mask f.
  destruct (String.eqb f g) eqn:E.
  - apply String.eqb_eq in E. subst f. right. exists r, a. split; [exact Ha|].
    apply stored_rows_step.
  - apply String.eqb_neq in E.
    destruct (Hok f) as [Hn|(r' & a' & Ha' & Hs)].
    + left. now apply no_rows_other.
    + right. exists r', a'. split; [exact Ha'|]. now apply stored_rows_other.
Qed.

(** One pass of the body keeps [rows_exact], when the array of the filter
    is as it is in [arrays]. *)
Lemma rows_exact_step (keys : dict nat) (arrays : list ndarray)
  (self : EMLikelihood) (g : string) (r : nat) :
  rows_exact keys arrays self -> Dict.lookup g keys = Some r ->
  let kept := filter (in_open_window (tmin self) (tmax self))
                     (shift_times (trigger_time self)
                                  (rows (nth r arrays no_array))) in
  let det := filter is_detection kept in
  let mask := map is_detection kept in
  rows_exact keys arrays
    (set_nondet g (compress mask (rev (col_time kept)))
                  (compress mask (rev (col_mag kept)))
       (set_det g (col_time det) (col_mag det) (col_err det) self)).
Proof.
  intros Hok Ha kept det mask f.
  destruct (String.eqb f g) eqn:E.
  - apply String.eqb_eq in E. subst f. right. exists r. split; [exact Ha|].
    apply stored_rows_step.
  - apply String.eqb_neq in E.
    destruct (Hok f) as [Hn|(r' & Ha' & Hs)].
    + left. now apply no_rows_other.
    + right. exists r'. split; [exact Ha'|]. now apply stored_rows_other.
Qed.

(** The loop keeps [rows_ok], whatever the list and the arrays. *)
Lemma process_loop_stored (fuel : nat) :
  forall (i : nat) (pd : observations) (self self' : EMLikelihood) (h h' : heap),
  rows_ok (obs_keys pd) self ->
  process_loop_on fuel i pd self h = (Ok self', h') ->
  rows_ok (obs_keys pd) self'.
Proof.
  induction fuel as [|fuel IH]; intros i pd self self' h h' Hok H.
  - cbn in H. now injection H as <- _.
  - rewrite process_loop_S in H.
    destruct (nth_error (nth (filters self) (str_lists h) []) i) as [g|];
      [|now injection H as <- _].
    destruct (Dict.lookup g (obs_keys pd)) as [r|] eqn:Hg.
    + cbv zeta in H. rewrite process_filter_rows in H.
      refine (IH _ (shift_in_place r _ pd) _ self' _ h' _ H).
      cbn [obs_keys shift_in_place]. now apply rows_ok_step with (r := r).
    + exact (IH _ _ _ self' _ h' Hok H).
Qed.

(** The loop over a list without repetition, when no two of the filters
    still to visit hold one array that is shifted in place: the filters
    still to visit have their arrays as in [arrays], and the object keeps
    [rows_exact]. *)
Lemma process_loop_rows (keys : dict nat) (arrays : list ndarray) (fuel : nat) :
  forall (done rest : list string) (pd : observations) (self : EMLikelihood)
         (h : heap),
  obs_keys pd = keys ->
  nth (filters self) (str_lists h) [] = done ++ rest ->
  NoDup (done ++ rest) ->
  (forall f g r, In f rest -> In g rest -> f <> g ->
     Dict.lookup f keys = Some r -> Dict.lookup g keys = Some r ->
     in_place (nth r arrays no_array) = false) ->
  (forall f r, In f rest -> Dict.lookup f keys = Some r ->
     nth r (obs_arrays pd) no_array = nth r arrays no_array) ->
  rows_exact keys arrays self ->
  forall self' h',
    process_loop_on fuel (length done) pd self h = (Ok self', h') ->
    rows_exact keys arrays self'.
Proof.
  induction fuel as [|fuel IH];
    intros done rest pd self h Hk Hfl Hnd Hown Hpd Hok self' h' H.
  - cbn in H. injection H as <- _. exact Hok.
  - rewrite process_loop_S, Hfl, nth_error_app_length in H.
    destruct rest as [|g rest]; cbn [nth_error] in H.
    + injection H as <- _. exact Hok.
    + assert (Hg : ~ In g (done ++ rest)) by now apply NoDup_remove_2.
      rewrite Hk in H.
      destruct (Dict.lookup g keys) as [rg|] eqn:Ha.
      * cbv zeta in H. rewrite process_filter_rows in H.
        assert (Hlen : S (length done) = length (done ++ [g]))
          by (rewrite length_app; cbn; lia).
        rewrite Hlen in H.
        pose proof (Hpd g rg (or_introl eq_refl) Ha) as Hrg.
        refine (IH (done ++ [g]) rest _ _ h _ _ _ _ _ _ self' h' H).
        -- cbn [obs_keys shift_in_place]. exact Hk.
        -- cbn [filters set_nondet set_det]. now rewrite <- app_assoc.
        -- now rewrite <- app_assoc.
        -- intros f f' r Hf Hf'. apply Hown; now right.
        -- intros f r Hf Hr. cbn [obs_arrays shift_in_place].
           destruct (in_place (nth rg (obs_arrays pd) no_array)) eqn:Hip;
             [|apply (Hpd f r); [now right | exact Hr]].
           assert (Hne : r <> rg).
           { intros ->. rewrite Hrg in Hip.
             rewrite (Hown f g rg) in Hip; try assumption; try discriminate.
             - now right.
             - now left.
             - intros ->. apply Hg. apply in_or_app. now right. }
           rewrite nth_list_set_ne by exact Hne.
           apply (Hpd f r); [now right | exact Hr].
        -- rewrite Hrg. now apply rows_exact_step.
      * assert (Hv : filters self < length (str_lists h)).
        { apply (@nth_nonempty_valid _ _ _ (length done) g).
          now rewrite Hfl, nth_error_app_length. }
        rewrite list_remove_app in H
          by (intros Hc; apply Hg; apply in_or_app; now left).
        destruct rest as [|y rest].
        -- rewrite process_loop_end in H.
           ++ injection H as <- _. exact Hok.
           ++ cbn [str_lists]. rewrite nth_list_set_eq by exact Hv.
              rewrite app_nil_r. lia.
        -- assert (Hlen : S (length done) = length (done ++ [y]))
             by (rewrite length_app; cbn; lia).
           rewrite Hlen in H.
           refine (IH (done ++ [y]) rest _ _ _ Hk _ _ _ _ Hok self' h' H).
           ++ cbn [str_lists]. rewrite nth_list_set_eq by exact Hv.
              now rewrite <- app_assoc.
           ++ rewrite <- app_assoc. cbn. now apply NoDup_remove_1 in Hnd.
           ++ intros f f' r Hf Hf'. apply Hown; right; now right.
           ++ intros f r Hf. apply (Hpd f r). right. now right.
Qed.

(** From the invariant of the loop to the constructed object: a filter of
    the final list has its sigma, so it has rows. *)
Lemma init_rows_of (P : EMLikelihood -> Prop)
  (m : LightcurveModel) (fr dr : ref) (trig lo hi : float)
  (eb : budget_arg) (fp : ref) (ign : bool) (dl : limit_arg) (h h' : heap)
  (self : EMLikelihood) :
  (forall s1 s2, set_sigma [] (set_ignore_nondetections false (set_fixed_params 0 s1))
                 = set_sigma [] (set_ignore_nondetections false (set_fixed_params 0 s2)) ->
                 P s1 -> P s2) ->
  (forall self1 h1,
     process_loop_on (length (nth fr (str_lists h) [])) 0
       (normalize_obs (nth dr (obs_dicts h) no_observations))
       (mkEM m fr trig lo hi ign
          match dl with
          | LimitScalar x => broadcast (nth fr (str_lists h) []) x
          | LimitNone => broadcast (nth fr (str_lists h) []) Float.inf
          | LimitDict d => d
          end
          match eb with
          | BudgetScalar x => broadcast (nth fr (str_lists h) []) x
          | BudgetDict d => d
          end [] [] [] [] [] [] fp) h = (Ok self1, h1) -> P self1) ->
  __init__ m fr dr trig lo hi eb fp ign dl h = (Ok self, h') ->
  P self /\
  trigger_time self = trig /\ tmin self = lo /\ tmax self = hi /\
  forall f, In f (nth (filters self) (str_lists h') []) ->
    Dict.lookup f (mag_err self) <> None.
Proof.
  intros HP Hloop. rewrite init_eq. cbv zeta. intros H.
  match type of H with context [process_loop_on ?n 0 ?pd ?s0 h] =>
    destruct (process_loop_on n 0 pd s0 h) as [[self1|e] h1] eqn:E; [|discriminate];
    destruct (process_loop_frame n 0 pd s0 h) as (self1' & sl1 & E' & Hc & _)
  end.
  rewrite E in E'. injection E' as <- ->.
  specialize (Hloop self1 _ eq_refl).
  set (self2 := if (length (times_nondet self1) =? 0)%nat
                then set_ignore_nondetections true self1 else self1) in H.
  assert (H2 : set_ignore_nondetections false self2
               = set_ignore_nondetections false self1).
  { unfold self2. destruct (_ =? _)%nat; reflexivity. }
  destruct (sigma_loop _ self2) as [self3|e] eqn:Es; [|discriminate].
  injection H as <- <-.
  pose proof (sigma_loop_spec _ _ Es) as (Hs & _ & Hin).
  assert (Hcfg : trigger_time self3 = trig /\ tmin self3 = lo /\ tmax self3 = hi /\
                 filters self3 = filters self2 /\ mag_err self3 = mag_err self2).
  { unfold config in Hc. destruct self3, self2, self1. cbn in Hs, H2, Hc |- *.
    injection Hs; injection H2; injection Hc; intros; subst. auto. }
  destruct Hcfg as (Ht & Hlo & Hhi & Hf & He).
  cbn [trigger_time tmin tmax filters mag_err set_fixed_params].
  split.
  - refine (HP self1 _ _ Hloop). destruct self3, self2, self1. cbn in Hs, H2 |- *.
    injection Hs; injection H2; intros; subst. reflexivity.
  - repeat split; try assumption.
    intros f Hfin. rewrite Hf in Hfin. destruct (Hin f Hfin) as (err & b & Herr & _).
    rewrite He. congruence.
Qed.

Lemma stored_rows_fields (s1 s2 : EMLikelihood) (f : string) (a : list row) :
  set_sigma [] (set_ignore_nondetections false (set_fixed_params 0 s1))
  = set_sigma [] (set_ignore_nondetections false (set_fixed_params 0 s2)) ->
  (stored_rows s1 f a -> stored_rows s2 f a) /\
  (no_rows s1 f -> no_rows s2 f).
Proof.
  destruct s1, s2. cbn. intros H. injection H; intros; subst. split; auto.
Qed.

(** A successful construction: every filter of the final list is a key of
    the data and has the rows of an array. *)
Lemma init_rows (m : LightcurveModel) (fr dr : ref) (trig lo hi : float)
  (eb : budget_arg) (fp : ref) (ign : bool) (dl : limit_arg) (h h' : heap)
  (self : EMLikelihood) :
  __init__ m fr dr trig lo hi eb fp ign dl h = (Ok self, h') ->
  trigger_time self = trig /\ tmin self = lo /\ tmax self = hi /\
  forall f, In f (nth (filters self) (str_lists h') []) ->
    exists r a,
      Dict.lookup f (normalize_keys (obs_keys (nth dr (obs_dicts h) no_observations)))
      = Some r /\
      stored_rows self f a.
Proof.
  intros Hinit.
  destruct (@init_rows_of
              (rows_ok (normalize_keys
                          (obs_keys (nth dr (obs_dicts h) no_observations))))
              m fr dr trig lo hi eb fp ign dl h h' self) as (Hok & Ht & Hlo & Hhi & He).
  - intros s1 s2 E Hok f. destruct (stored_rows_fields f [] E) as (_ & Hn).
    destruct (Hok f) as [H|(r & a & Hr & Hs)]; [left; now apply Hn|].
    right. exists r, a. split; [exact Hr|].
    now apply (proj1 (stored_rows_fields f a E)).
  - intros self1 h1 E.
    refine (@process_loop_stored _ 0 _ _ self1 h h1 _ E).
    intros f. left. repeat split.
  - exact Hinit.
  - repeat split; try assumption. intros f Hf.
    destruct (Hok f) as [Hn|H]; [|exact H].
    destruct Hn as (_ & _ & Hn & _). now destruct (He f Hf).
Qed.

(** A successful construction from a list of filters without repetition, no
    two of which hold one array that is shifted in place: every filter of
    the final list has the rows of its array in the data. *)
Lemma init_rows_exact (m : LightcurveModel) (fr dr : ref) (trig lo hi : float)
  (eb : budget_arg) (fp : ref) (ign : bool) (dl : limit_arg) (h h' : heap)
  (self : EMLikelihood) :
  __init__ m fr dr trig lo hi eb fp ign dl h = (Ok self, h') ->
  NoDup (nth fr (str_lists h) []) ->
  own_arrays (nth fr (str_lists h) [])
             (normalize_obs (nth dr (obs_dicts h) no_observations)) ->
  trigger_time self = trig /\ tmin self = lo /\ tmax self = hi /\
  forall f, In f (nth (filters self) (str_lists h') []) ->
    exists r,
      Dict.lookup f (normalize_keys (obs_keys (nth dr (obs_dicts h) no_observations)))
      = Some r /\
      stored_rows self f
        (rows (nth r (obs_arrays (nth dr (obs_dicts h) no_observations)) no_array)).
Proof.
  intros Hinit Hnd Hown.
  set (o := nth dr (obs_dicts h) no_observations) in *.
  destruct (@init_rows_of
              (rows_exact (normalize_keys (obs_keys o)) (obs_arrays o))
              m fr dr trig lo hi eb fp ign dl h h' self) as (Hok & Ht & Hlo & Hhi & He).
  - intros s1 s2 E Hok f.
    destruct (Hok f) as [H|(r & Hr & Hs)].
    + left. now apply (proj2 (stored_rows_fields f [] E)).
    + right. exists r. split; [exact Hr|].
      now apply (proj1 (stored_rows_fields f _ E)).
  - intros self1 h1 E. fold o in E.
    match type of E with process_loop_on _ _ _ ?s0 _ = _ =>
      refine (@process_loop_rows (normalize_keys (obs_keys o)) (obs_arrays o) _ []
                _ (normalize_obs o) s0 h eq_refl eq_refl Hnd _ _ _ self1 h1 E)
    end.
    + intros f g r Hf Hg. now apply Hown.
    + reflexivity.
    + intros f. left. repeat split.
  - exact Hinit.
  - repeat split; try assumption. intros f Hf.
    destruct (Hok f) as [Hn|H]; [|exact H].
    destruct Hn as (_ & _ & Hn & _). now destruct (He f Hf).
Qed.

(** ** The time window *)

(** C6, as the code has it.  Of the rows of an array, the window keeps
    exactly those whose shifted time [t = time - trigger_time] satisfies
    [tmin < t < tmax], in their order; a row with [t = tmin] or [t = tmax]
    goes; and the selection raises nothing.  In an object constructed from a
    list of filters without repetition, no two of which hold one array that
    is shifted in place, the detections of every filter of the final list
    are the rows of that window of its array whose error is not [+inf]. *)
Theorem C6_open_window (trig lo hi : float) :
  (forall a : list row,
     let shifted := shift_times trig a in
     let kept := filter (in_open_window lo hi) shifted in
     window lo hi (col_time shifted) (col_mag shifted) (col_err shifted)
     = Ok (col_time kept, col_mag kept, col_err kept) /\
     (forall t m e,
        In (t, m, e) kept <->
        (exists t0, In (t0, m, e) a /\ t = Float.sub t0 trig) /\
        Float.ltb lo t = true /\ Float.ltb t hi = true) /\
     (forall r, In r kept -> row_time r <> lo /\ row_time r <> hi)) /\
  (forall (m : LightcurveModel) (fr dr : ref) (eb : budget_arg) (fp : ref)
          (ign : bool) (dl : limit_arg) (h h' : heap) (self : EMLikelihood),
     let data := nth dr (obs_dicts h) no_observations in
     __init__ m fr dr trig lo hi eb fp ign dl h = (Ok self, h') ->
     NoDup (nth fr (str_lists h) []) ->
     own_arrays (nth fr (str_lists h) []) (normalize_obs data) ->
     forall f, In f (nth (filters self) (str_lists h') []) ->
       exists r,
         Dict.lookup f (normalize_keys (obs_keys data)) = Some r /\
         let a := rows (nth r (obs_arrays data) no_array) in
         let det := filter is_detection
                      (filter (in_open_window lo hi) (shift_times trig a)) in
         Dict.lookup f (times_det self) = Some (col_time det) /\
         Dict.lookup f (mag_det self) = Some (col_mag det) /\
         Dict.lookup f (mag_err self) = Some (col_err det)).
Proof.
  split.
  - intros a shifted kept. split; [apply window_rows|]. split.
    + intros t m e. unfold kept. rewrite filter_In. unfold in_open_window, row_time.
      cbn [fst snd]. rewrite andb_true_iff. unfold shifted, shift_times.
      rewrite in_map_iff. split.
      * intros [([[t0 m0] e0] & Heq & Hin) Hw]. cbn [fst snd] in Heq.
        injection Heq as <- <- <-. split; [|exact Hw]. now exists t0.
      * intros [(t0 & Hin & ->) Hw]. split; [|exact Hw].
        exists (t0, m, e). split; [reflexivity | exact Hin].
    + intros r Hr. unfold kept in Hr. apply filter_In in Hr. destruct Hr as [_ Hw].
      unfold in_open_window in Hw. apply andb_true_iff in Hw. destruct Hw as [H1 H2].
      split; intros Heq; rewrite Heq in *; rewrite ltb_irrefl in *; discriminate.
  - intros m fr dr eb fp ign dl h h' self data Hinit Hnd Hown f Hf.
    destruct (init_rows_exact _ _ _ _ _ _ _ _ _ _ _ Hinit Hnd Hown)
      as (Ht & Hlo & Hhi & Hrows).
    destruct (Hrows f Hf) as (r & Ha & Hst). exists r. split; [exact Ha|].
    unfold stored_rows in Hst. rewrite Ht, Hlo, Hhi in Hst.
    destruct Hst as (H1 & H2 & H3 & _). auto.
Qed.

(** The sample object: its detections are the rows of the open window. *)
Lemma C6_witness :
  exists r,
    Dict.lookup "b" (normalize_keys
                       (obs_keys (nth 0 (obs_dicts sample_heap) no_observations)))
    = Some r /\
    let a := rows (nth r (obs_arrays (nth 0 (obs_dicts sample_heap) no_observations))
                       no_array) in
    let det := filter is_detection
                 (filter (in_open_window (Float.Fin 0) (Float.Fin 14))
                         (shift_times (Float.Fin 0) a)) in
    Dict.lookup "b" (times_det sample_object) = Some (col_time det) /\
    Dict.lookup "b" (mag_det sample_object) = Some (col_mag det) /\
    Dict.lookup "b" (mag_err sample_object) = Some (col_err det).
Proof.
  refine (proj2 (C6_open_window (Float.Fin 0) (Float.Fin 0) (Float.Fin 14))
                _ _ _ _ _ _ _ _ _ _ sample_init _ _ "b"%string _).
  - cbn. repeat constructor. simpl. tauto.
  - intros f g r [<-|[]] [<-|[]] Hne. now destruct Hne.
  - cbn. now left.
Defined.

(** A row observed at the trigger time, with [tmin = 0]: its shifted time is
    [tmin], inside the window closed on the left, and the constructed object
    holds no row of the filter. *)
Lemma C6_counterexample :
  exists self h',
    __init__ sample_model 1 1 (Float.Fin 1) (Float.Fin 0) (Float.Fin 14)
             (BudgetScalar (Float.Fin 0.5)) 1 false LimitNone sample_heap
    = (Ok self, h') /\
    forallb (in_half_open_window (Float.Fin 0) (Float.Fin 14))
            (shift_times (Float.Fin 1) sample_row) = true /\
    Dict.lookup "b" (times_det self) = Some [] /\
    Dict.lookup "b" (times_nondet self) = Some [].
Proof.
  eexists. eexists. split; [run; reflexivity|].
  split; [run; reflexivity|]. split; reflexivity.
Qed.

(** The hypothesis on the arrays is needed.  When two filters hold one
    numpy array, line 163 shifts the array once per filter, and the second
    filter has its times shifted twice; a JAX array is shifted once for
    every filter.  The caller's mapping is as before in both cases. *)
Lemma shared_array_shifted_twice :
  exists self h',
    __init__ sample_model 0 0 (Float.Fin 1) (Float.Fin (- 5)) (Float.Fin 14)
             (BudgetScalar (Float.Fin 0.5)) 0 false LimitNone
             (sample_heap_shared true)
    = (Ok self, h') /\
    Dict.lookup "a" (times_det self)
    = Some [Float.sub (Float.Fin 1) (Float.Fin 1)] /\
    Dict.lookup "b" (times_det self)
    = Some [Float.sub (Float.sub (Float.Fin 1) (Float.Fin 1)) (Float.Fin 1)] /\
    obs_dicts h' = obs_dicts (sample_heap_shared true).
Proof. eexists. eexists. split; [run; reflexivity|]. repeat split. Qed.

Lemma shared_jax_array_shifted_once :
  exists self h',
    __init__ sample_model 0 0 (Float.Fin 1) (Float.Fin (- 5)) (Float.Fin 14)
             (BudgetScalar (Float.Fin 0.5)) 0 false LimitNone
             (sample_heap_shared false)
    = (Ok self, h') /\
    Dict.lookup "a" (times_det self)
    = Some [Float.sub (Float.Fin 1) (Float.Fin 1)] /\
    Dict.lookup "b" (times_det self)
    = Some [Float.sub (Float.Fin 1) (Float.Fin 1)].
Proof. eexists. eexists. split; [run; reflexivity|]. repeat split. Qed.

(** The loop writes into the mapping it is given: run on the caller's
    mapping instead of the copy, it shifts the caller's numpy array. *)
Lemma process_loop_in_place :
  obs_dicts
    (snd (process_loop 1 0 0
            (mkEM sample_model 1 (Float.Fin 1) (Float.Fin 0) (Float.Fin 14) false
                  [] [] [] [] [] [] [] [] 1)
            sample_heap))
  = [mkObs [("b"%string, 0)] [mkArray true (shift_times (Float.Fin 1) sample_rows)];
     mkObs [("b"%string, 0)] [mkArray true sample_row]].
Proof. run. reflexivity. Qed.

(** The flag of a constructed object: the caller's value, or [True] when
    [times_nondet] has no key, that is when no filter was processed. *)
Lemma init_flag (m : LightcurveModel) (fr dr : ref) (trig lo hi : float)
  (eb : budget_arg) (fp : ref) (ign : bool) (dl : limit_arg) (h h' : heap)
  (self : EMLikelihood) :
  __init__ m fr dr trig lo hi eb fp ign dl h = (Ok self, h') ->
  ignore_nondetections self = ign || (length (times_nondet self) =? 0)%nat.
Proof.
  rewrite init_eq. cbv zeta.
  match goal with |- context [process_loop_on ?n 0 ?pd ?s0 h] =>
    destruct (process_loop_frame n 0 pd s0 h) as (self1 & sl1 & E & Hc & _);
    rewrite E end.
  assert (Hign : ignore_nondetections self1 = ign).
  { unfold config in Hc. cbn in Hc. now injection Hc as _ _ _ _ _ Hi _ _ _ _. }
  set (self2 := if (length (times_nondet self1) =? 0)%nat
                then set_ignore_nondetections true self1 else self1).
  assert (H2 : ignore_nondetections self2
               = ign || (length (times_nondet self2) =? 0)%nat).
  { unfold self2. destruct (length (times_nondet self1) =? 0)%nat eqn:E0; cbn.
    - rewrite E0. now rewrite orb_true_r.
    - rewrite E0, orb_false_r. exact Hign. }
  clearbody self2.
  destruct (sigma_loop _ self2) as [self3|e] eqn:Es; [|discriminate].
  intros H; injection H as <- _.
  apply sigma_loop_spec in Es. destruct Es as (Hs & _).
  pose proof (f_equal ignore_nondetections Hs) as Hi.
  pose proof (f_equal times_nondet Hs) as Ht.
  cbn in Hi, Ht |- *. now rewrite Hi, Ht.
Qed.

(** ** A filter that follows a missing one *)




(** ** The active filters and the keys of the processed rows *)

Lemma keys_insert_new {V : Type} (k : string) (v : V) (d : dict V) :
  Dict.lookup k d = None -> Dict.keys (Dict.insert k v d) = Dict.keys d ++ [k].
Proof.
  unfold Dict.keys. induction d as [|[k' v'] d IH]; cbn; [reflexivity|].
  destruct (String.eqb k k'); [discriminate|]. intros H. cbn. now rewrite IH.
Qed.

Lemma filter_all {A : Type} (p : A -> bool) (l : list A) :
  (forall x, In x l -> p x = true) -> filter p l = l.
Proof.
  induction l as [|x l IH]; intros H; cbn; [reflexivity|].
  rewrite (H x (or_introl eq_refl)), IH; [reflexivity|].
  intros y Hy. apply H. now right.
Qed.

Lemma filter_none {A : Type} (p : A -> bool) (l : list A) :
  (forall x, In x l -> p x = false) -> filter p l = [].
Proof.
  induction l as [|x l IH]; intros H; cbn; [reflexivity|].
  rewrite (H x (or_introl eq_refl)). apply IH. intros y Hy. apply H. now right.
Qed.

(** The keys of [times_det] are, in their order, the filters of the list
    that have processed rows. *)
Lemma process_loop_keys (fuel : nat) :
  forall (done rest : list string) (pd : observations) (self : EMLikelihood)
         (h : heap),
  nth (filters self) (str_lists h) [] = done ++ rest ->
  NoDup (done ++ rest) ->
  Dict.keys (times_det self) = filter (fun f => Dict.mem f (times_det self)) done ->
  (forall f, In f rest -> Dict.lookup f (times_det self) = None) ->
  forall self' h',
    process_loop_on fuel (length done) pd self h = (Ok self', h') ->
    Dict.keys (times_det self')
    = filter (fun f => Dict.mem f (times_det self'))
             (nth (filters self) (str_lists h') []).
Proof.
  assert (Hstop : forall (done rest : list string) (self : EMLikelihood),
             Dict.keys (times_det self)
             = filter (fun f => Dict.mem f (times_det self)) done ->
             (forall f, In f rest -> Dict.lookup f (times_det self) = None) ->
             Dict.keys (times_det self)
             = filter (fun f => Dict.mem f (times_det self)) (done ++ rest)).
  { intros done rest self Hk Hrest. rewrite filter_app, <- Hk.
    rewrite (filter_none _ rest); [now rewrite app_nil_r|].
    intros f Hf. unfold Dict.mem. now rewrite (Hrest f Hf). }
  induction fuel as [|fuel IH]; intros done rest pd self h Hfl Hnd Hk Hrest self' h' H.
  - cbn in H. injection H as <- <-. rewrite Hfl. now apply Hstop.
  - rewrite process_loop_S, Hfl, nth_error_app_length in H.
    destruct rest as [|g rest]; cbn [nth_error] in H.
    + injection H as <- <-. rewrite Hfl. now apply Hstop.
    + assert (Hg : ~ In g (done ++ rest)) by now apply NoDup_remove_2.
      destruct (Dict.lookup g (obs_keys pd)) as [a|] eqn:Ha.
      * cbv zeta in H. rewrite process_filter_rows in H.
        assert (Hlen : S (length done) = length (done ++ [g]))
          by (rewrite length_app; cbn; lia).
        rewrite Hlen in H.
        refine (IH (done ++ [g]) rest _ _ h _ _ _ _ self' h' H).
        -- cbn [filters set_nondet set_det]. now rewrite <- app_assoc.
        -- now rewrite <- app_assoc.
        -- cbn [times_det set_nondet set_det].
           rewrite keys_insert_new by (apply Hrest; now left).
           rewrite filter_app. cbn [filter]. unfold Dict.mem at 2.
           rewrite DictFacts.lookup_insert_eq. rewrite Hk. f_equal.
           apply filter_ext_in. intros f Hf. unfold Dict.mem.
           rewrite DictFacts.lookup_insert_ne; [reflexivity|].
           intros ->. apply Hg. apply in_or_app. now left.
        -- intros f Hf. cbn [times_det set_nondet set_det].
           rewrite DictFacts.lookup_insert_ne; [apply Hrest; now right|].
           intros ->. apply Hg. apply in_or_app. now right.
      * assert (Hv : filters self < length (str_lists h)).
        { apply (@nth_nonempty_valid _ _ _ (length done) g).
          now rewrite Hfl, nth_error_app_length. }
        rewrite list_remove_app in H
          by (intros Hc; apply Hg; apply in_or_app; now left).
        destruct rest as [|z rest].
        -- rewrite process_loop_end in H.
           ++ injection H as <- <-. cbn [str_lists].
              rewrite nth_list_set_eq by exact Hv. apply Hstop; [exact Hk|].
              intros f [].
           ++ cbn [str_lists]. rewrite nth_list_set_eq by exact Hv.
              rewrite app_nil_r. lia.
        -- assert (Hlen : S (length done) = length (done ++ [z]))
             by (rewrite length_app; cbn; lia).
           rewrite Hlen in H.
           refine (IH (done ++ [z]) rest _ _ _ _ _ _ _ self' h' H).
           ++ cbn [str_lists]. rewrite nth_list_set_eq by exact Hv.
              now rewrite <- app_assoc.
           ++ rewrite <- app_assoc. cbn. now apply NoDup_remove_1 in Hnd.
           ++ apply Hstop; [exact Hk|]. intros f [<-|[]]. apply Hrest. right. now left.
           ++ intros f Hf. apply Hrest. right. now right.
Qed.

(** After a successful construction from a list of filters without
    repetition, the keys of [times_det] are the active filters, in the order
    of the list. *)
Lemma init_active_keys (m : LightcurveModel) (fr dr : ref) (trig lo hi : float)
  (eb : budget_arg) (fp : ref) (ign : bool) (dl : limit_arg) (h h' : heap)
  (self : EMLikelihood) :
  __init__ m fr dr trig lo hi eb fp ign dl h = (Ok self, h') ->
  NoDup (nth fr (str_lists h) []) ->
  Dict.keys (times_det self) = nth (filters self) (str_lists h') [].
Proof.
  intros Hinit Hnd.
  destruct (init_rows _ _ _ _ _ _ _ _ _ _ _ Hinit) as (_ & _ & _ & Hrows).
  assert (Hk : Dict.keys (times_det self)
               = filter (fun f => Dict.mem f (times_det self))
                        (nth (filters self) (str_lists h') [])).
  { revert Hinit. rewrite init_eq. cbv zeta. intros H.
    match type of H with context [process_loop_on ?n 0 ?pd ?s0 h] =>
      destruct (process_loop_on n 0 pd s0 h) as [[self1|e] h1] eqn:E; [|discriminate];
      pose proof (@process_loop_keys n [] _ pd s0 h eq_refl Hnd eq_refl
                    (fun f _ => eq_refl) self1 h1 E) as Hkeys;
      destruct (process_loop_frame n 0 pd s0 h) as (self1' & sl1 & E' & Hc & _)
    end.
    rewrite E in E'. injection E' as <- ->.
    set (self2 := if (length (times_nondet self1) =? 0)%nat
                  then set_ignore_nondetections true self1 else self1) in H.
    assert (H2 : times_det self2 = times_det self1 /\ filters self2 = fr).
    { unfold config in Hc. cbn in Hc. injection Hc as _ Hf _ _ _ _ _ _ _ _.
      unfold self2. destruct (_ =? _)%nat; cbn; auto. }
    destruct H2 as (Ht2 & Hf2). clearbody self2.
    destruct (sigma_loop _ self2) as [self3|e] eqn:Es; [|discriminate].
    injection H as <- <-.
    apply sigma_loop_spec in Es. destruct Es as (Hs & _).
    pose proof (f_equal times_det Hs) as Ht3.
    pose proof (f_equal filters Hs) as Hf3.
    cbn in Ht3, Hf3. cbn [times_det filters set_fixed_params str_lists].
    cbn [filters str_lists] in Hkeys. now rewrite Ht3, Hf3, Ht2, Hf2. }
  rewrite Hk. apply filter_all. intros f Hf.
  destruct (Hrows f Hf) as (r & a & _ & Hst & _). unfold Dict.mem. now rewrite Hst.
Qed.

(** ** The claims on [evaluate] *)

Section EvaluateClaims.

Variable mag_app_from_mag_abs : list float -> float -> list float.
Variable truncated_gaussian :
  list float -> list float -> list float -> float -> list float.
Variable interp : list float -> list float -> list float -> list float.

Abbreviation evaluate' := (evaluate mag_app_from_mag_abs truncated_gaussian interp).
Abbreviation log_likelihood' :=
  (log_likelihood mag_app_from_mag_abs truncated_gaussian interp).
Abbreviation is_chisq_term' :=
  (is_chisq_term mag_app_from_mag_abs truncated_gaussian interp).

(** When the keys agree, every map of [evaluate] goes through. *)
Lemma log_likelihood_total (self : EMLikelihood) (theta : dict float) :
  keys_agree self theta -> exists v, log_likelihood' self theta = Ok v.
Proof.
  intros (Kabs & Kdet & Ksig & Klim & Hd). unfold log_likelihood. cbv zeta.
  (* the apparent magnitudes *)
  assert (E1 : exists mag_app,
             Jax.tree_map
               (fun x => (d <- Dict.getitem "luminosity_distance" theta ;;
                          Ok (mag_app_from_mag_abs x d))%result)
               (predict (model self) theta) = Ok mag_app /\
             Dict.keys mag_app = Dict.keys (predict (model self) theta)).
  { destruct Hd as [Hnil|Hlum].
    - rewrite Hnil in Kabs. unfold Jax.same_keys in Kabs. cbn in Kabs.
      destruct (predict (model self) theta) as [|[k a] d]; [|discriminate].
      exists []. split; reflexivity.
    - unfold Dict.mem, Dict.getitem in *.
      destruct (Dict.lookup "luminosity_distance" theta) as [d|]; [|discriminate].
      cbn [rbind]. rewrite tree_map_pure. eexists. split; [reflexivity|].
      apply (keys_map_values (fun x => mag_app_from_mag_abs x d)). }
  destruct E1 as (mag_app & -> & K1). cbn [rbind].
  (* the interpolated magnitudes *)
  unfold Jax.tree_map2.
  destruct (@zip_tree_total _ _ (times_det self) mag_app) as (z & -> & Kz).
  { rewrite <- Kabs. now apply same_keys_keys. }
  cbn [rbind]. rewrite tree_map_pure. cbn [rbind].
  set (mai := map _ z).
  assert (Kmai : Dict.keys mai = Dict.keys (times_det self)).
  { unfold mai. unfold Dict.keys in *. rewrite map_map. exact Kz. }
  (* the terms *)
  unfold Jax.tree_map4.
  destruct (@zip_tree_total _ _ mai (mag_det self)) as (z2 & -> & Kz2).
  { rewrite <- Kdet. now apply same_keys_keys. }
  cbn [rbind].
  destruct (@zip_tree_total _ _ z2 (sigma self)) as (z3 & -> & Kz3).
  { rewrite <- Ksig. apply same_keys_keys; [congruence | reflexivity]. }
  cbn [rbind].
  destruct (@zip_tree_total _ _ z3 (detection_limit self)) as (z4 & -> & Kz4).
  { rewrite <- Klim. apply same_keys_keys; [congruence | reflexivity]. }
  cbn [rbind]. rewrite tree_map_pure. cbn [rbind]. eauto.
Qed.

(** C1.  The value of [evaluate] does not depend on the non-detection rows;
    a value it returns is the sum, over the entries of [times_det], of the
    chi-square terms of [get_chisq_filt], the non-detection term adding [0];
    it returns a value whenever the dictionaries it maps over have the keys
    of [times_det]; and in an object constructed from a list of filters
    without repetition the keys of [times_det] are the active filters. *)
Theorem C1_evaluate_is_chisq_total (self : EMLikelihood) (theta : ref) (h : heap) :
  (forall times_n mag_n,
     evaluate' (with_nondet times_n mag_n self) theta h = evaluate' self theta h) /\
  (forall v,
     fst (evaluate' self theta h) = Ok v ->
     exists terms,
       Forall2 (is_chisq_term' self (merged_theta self theta h))
               (times_det self) terms /\
       v = Float.sum terms) /\
  (keys_agree self (merged_theta self theta h) ->
   exists v, fst (evaluate' self theta h) = Ok v) /\
  (forall (m : LightcurveModel) (fr dr : ref) (trig lo hi : float)
          (eb : budget_arg) (fp : ref) (ign : bool) (dl : limit_arg)
          (h0 h1 : heap),
     __init__ m fr dr trig lo hi eb fp ign dl h0 = (Ok self, h1) ->
     NoDup (nth fr (str_lists h0) []) ->
     Dict.keys (times_det self) = nth (filters self) (str_lists h1) []).
Proof.
  split; [|split; [|split]].
  - intros times_n mag_n. rewrite !evaluate_eq. reflexivity.
  - intros v. rewrite evaluate_eq. cbn [fst]. apply log_likelihood_sum.
  - intros K. rewrite evaluate_eq. cbn [fst]. now apply log_likelihood_total.
  - intros m fr dr trig lo hi eb fp ign dl h0 h1. apply init_active_keys.
Qed.

(** C9.  [evaluate] computes from the merged dictionary, a new object in
    which an entry of [fixed_params] stands for its key and every other key
    has the entry of [theta]; the dictionaries that existed before the call,
    the caller's [theta] among them, are as they were; and the surrogate is
    asked at the merged dictionary only. *)
Theorem C9_immutable_merge (self : EMLikelihood) (theta : ref) (h : heap) :
  let fixed := nth (fixed_params self) (param_dicts h) [] in
  let merged := merged_theta self theta h in
  let out := evaluate' self theta h in
  fst out = log_likelihood' self merged /\
  snd out = mkHeap (str_lists h) (param_dicts h ++ [merged]) (obs_dicts h) /\
  (forall r, r < length (param_dicts h) ->
     nth r (param_dicts (snd out)) [] = nth r (param_dicts h) []) /\
  (forall k v, NoDup (Dict.keys fixed) -> Dict.lookup k fixed = Some v ->
     Dict.lookup k merged = Some v) /\
  (forall k, Dict.lookup k fixed = None ->
     Dict.lookup k merged = Dict.lookup k (nth theta (param_dicts h) [])) /\
  (forall m, predict m merged = predict (model self) merged ->
             times m = times (model self) ->
             fst (evaluate' (with_model m self) theta h) = fst out).
Proof.
  intros fixed merged out. subst out. rewrite evaluate_eq. cbn [fst snd param_dicts].
  fold merged. split; [reflexivity|]. split; [reflexivity|].
  split; [|split; [|split]].
  - intros r Hr. now apply app_nth1.
  - intros k v Hnd Hk. unfold merged, merged_theta. rewrite DictFacts.lookup_merge.
    fold fixed. now rewrite (@lookup_rev_NoDup _ k v fixed Hnd Hk).
  - intros k Hk. unfold merged, merged_theta. rewrite DictFacts.lookup_merge.
    fold fixed. now rewrite (@lookup_None_rev _ k fixed Hk).
  - intros m Hp Ht. rewrite evaluate_eq. cbn [fst].
    change (merged_theta (with_model m self) theta h) with merged.
    unfold log_likelihood. cbn [model with_model times_det mag_det sigma detection_limit].
    rewrite Hp, Ht. reflexivity.
Qed.

End EvaluateClaims.

(** The sample object is evaluated at the caller's [theta]. *)
Lemma sample_evaluate :
  exists v,
    fst (evaluate sample_mag_app sample_truncated_gaussian sample_interp
                  sample_object 0 sample_heap) = Ok v.
Proof. eexists. run. reflexivity. Qed.

Lemma C1_witness :
  exists v terms,
    fst (evaluate sample_mag_app sample_truncated_gaussian sample_interp
                  sample_object 0 sample_heap) = Ok v /\
    Forall2 (is_chisq_term sample_mag_app sample_truncated_gaussian sample_interp
                           sample_object (merged_theta sample_object 0 sample_heap))
            (times_det sample_object) terms /\
    v = Float.sum terms.
Proof.
  destruct sample_evaluate as [v Hv]. exists v.
  destruct (proj1 (proj2 (C1_evaluate_is_chisq_total sample_mag_app
                            sample_truncated_gaussian sample_interp
                            sample_object 0 sample_heap)) v Hv) as [terms Ht].
  exists terms. split; [exact Hv | exact Ht].
Defined.

(** [theta] has the luminosity distance [30] and [fixed_params] has [40]:
    the merged dictionary has [40]. *)
Lemma C9_witness :
  Dict.lookup "luminosity_distance" (merged_theta sample_object 0 sample_heap)
  = Some (Float.Fin 40).
Proof.
  apply (C9_immutable_merge sample_mag_app sample_truncated_gaussian sample_interp
           sample_object 0 sample_heap).
  - repeat constructor; simpl; tauto.
  - reflexivity.
Defined.


Section DoubleFacts.

Import PrimFloat.
Local Open Scope float_scope.


End DoubleFacts.

(** * Further properties of the likelihood *)

(** ** The attributes of a constructed object *)

(** The attributes the constructor copies from its arguments. *)
Lemma init_static (m : LightcurveModel) (fr dr : ref) (trig lo hi : float)
  (eb : budget_arg) (fp : ref) (ign : bool) (dl : limit_arg) (h h' : heap)
  (self : EMLikelihood) :
  __init__ m fr dr trig lo hi eb fp ign dl h = (Ok self, h') ->
  model self = m /\ filters self = fr /\ fixed_params self = fp /\
  trigger_time self = trig /\ tmin self = lo /\ tmax self = hi /\
  detection_limit self
  = match dl with
    | LimitScalar x => broadcast (nth fr (str_lists h) []) x
    | LimitNone => broadcast (nth fr (str_lists h) []) Float.inf
    | LimitDict d => d
    end /\
  error_budget self
  = match eb with
    | BudgetScalar x => broadcast (nth fr (str_lists h) []) x
    | BudgetDict d => d
    end.
Proof.
  rewrite init_eq. cbv zeta.
  match goal with |- context [process_loop_on ?n 0 ?pd ?s0 h] =>
    destruct (process_loop_frame n 0 pd s0 h) as (self1 & sl1 & E & Hc & _);
    rewrite E end.
  set (self2 := if (length (times_nondet self1) =? 0)%nat
                then set_ignore_nondetections true self1 else self1).
  assert (H2 : set_ignore_nondetections false self2
               = set_ignore_nondetections false self1).
  { unfold self2. destruct (_ =? _)%nat; reflexivity. }
  clearbody self2.
  destruct (sigma_loop _ self2) as [self3|e] eqn:Es; [|discriminate].
  intros H; injection H as <- _.
  apply sigma_loop_spec in Es. destruct Es as (Hs & _).
  unfold config in Hc. cbn in Hc.
  injection Hc as Hm Hf Ht Hlo Hhi _ Hdl Hbud _ Hfp.
  pose proof (f_equal model Hs) as E1. pose proof (f_equal model H2) as F1.
  pose proof (f_equal filters Hs) as E2. pose proof (f_equal filters H2) as F2.
  pose proof (f_equal trigger_time Hs) as E3. pose proof (f_equal trigger_time H2) as F3.
  pose proof (f_equal tmin Hs) as E4. pose proof (f_equal tmin H2) as F4.
  pose proof (f_equal tmax Hs) as E5. pose proof (f_equal tmax H2) as F5.
  pose proof (f_equal detection_limit Hs) as E6.
  pose proof (f_equal detection_limit H2) as F6.
  pose proof (f_equal error_budget Hs) as E7.
  pose proof (f_equal error_budget H2) as F7.
  cbn in E1, E2, E3, E4, E5, E6, E7, F1, F2, F3, F4, F5, F6, F7 |- *.
  repeat split; congruence.
Qed.

(** Every filter of the final list has its measurement errors, its budget
    and, from the two, its sigma. *)
Lemma init_sigma (m : LightcurveModel) (fr dr : ref) (trig lo hi : float)
  (eb : budget_arg) (fp : ref) (ign : bool) (dl : limit_arg) (h h' : heap)
  (self : EMLikelihood) :
  __init__ m fr dr trig lo hi eb fp ign dl h = (Ok self, h') ->
  forall f, In f (nth fr (str_lists h') []) ->
    exists err b,
      Dict.lookup f (mag_err self) = Some err /\
      Dict.lookup f (error_budget self) = Some b /\
      Dict.lookup f (sigma self) = Some (combined b err).
Proof.
  rewrite init_eq. cbv zeta.
  match goal with |- context [process_loop_on ?n 0 ?pd ?s0 h] =>
    destruct (process_loop_frame n 0 pd s0 h) as (self1 & sl1 & E & Hc & _);
    rewrite E end.
  set (self2 := if (length (times_nondet self1) =? 0)%nat
                then set_ignore_nondetections true self1 else self1).
  assert (Hf2 : filters self2 = fr).
  { unfold config in Hc. cbn in Hc. injection Hc as _ Hf _ _ _ _ _ _ _ _.
    unfold self2. destruct (_ =? _)%nat; cbn; exact Hf. }
  clearbody self2. rewrite Hf2. cbn [str_lists].
  destruct (sigma_loop _ self2) as [self3|e] eqn:Es; [|discriminate].
  intros H; injection H as <- <-. intros f Hf.
  apply sigma_loop_spec in Es. destruct Es as (Hs & _ & Hin).
  destruct (Hin f Hf) as (err & b & H1 & H2 & H3).
  pose proof (f_equal mag_err Hs) as E1. pose proof (f_equal error_budget Hs) as E2.
  cbn in E1, E2 |- *. exists err, b. rewrite E1, E2. auto.
Qed.

(** The loop of the sigmas raises nothing but a [KeyError], for a filter of
    the list that has no measurement errors or no budget. *)
Lemma sigma_loop_error (fl : list string) :
  forall self e,
  sigma_loop fl self = Err e ->
  exists k, e = KeyError k /\ In k fl /\
            (Dict.lookup k (mag_err self) = None \/
             Dict.lookup k (error_budget self) = None).
Proof.
  induction fl as [|g fl IH]; intros self e H; cbn [sigma_loop] in H; [discriminate|].
  unfold Dict.getitem in H.
  destruct (Dict.lookup g (mag_err self)) as [err|] eqn:He.
  - destruct (Dict.lookup g (error_budget self)) as [b|] eqn:Hb.
    + cbn [rbind] in H. apply IH in H. destruct H as (k & -> & Hk & Hnone).
      exists k. cbn [mag_err error_budget set_sigma] in Hnone.
      split; [reflexivity|]. split; [now right | exact Hnone].
    + cbn [rbind] in H. injection H as <-. exists g.
      split; [reflexivity|]. split; [now left | now right].
  - cbn [rbind] in H. injection H as <-. exists g.
    split; [reflexivity|]. split; [now left | now left].
Qed.

Lemma list_remove_incl (g k : string) (l : list string) :
  In k (list_remove g l) -> In k l.
Proof.
  induction l as [|y l IH]; cbn; [tauto|].
  destruct (String.eqb g y); [tauto|]. intros [H|H]; [now left | right; now apply IH].
Qed.




(** ** When [evaluate] returns and what it raises *)

Lemma mem_In_keys {V : Type} (k : string) (d : dict V) :
  Dict.mem k d = true <-> In k (Dict.keys d).
Proof.
  rewrite mem_keys, existsb_exists. split.
  - intros (x & Hx & E). apply String.eqb_eq in E. now subst x.
  - intros H. exists k. split; [exact H | apply String.eqb_refl].
Qed.

Lemma same_keys_mem {A B : Type} (d1 : dict A) (d2 : dict B) :
  Jax.same_keys d1 d2 = true -> forall k, Dict.mem k d1 = Dict.mem k d2.
Proof.
  unfold Jax.same_keys. rewrite andb_true_iff, !forallb_forall. intros [H1 H2] k.
  destruct (Dict.mem k d1) eqn:E1.
  - symmetry. apply H1. now apply mem_In_keys.
  - destruct (Dict.mem k d2) eqn:E2; [|reflexivity].
    assert (Dict.mem k d1 = true) by (apply H2; now apply mem_In_keys).
    congruence.
Qed.

Lemma zip_tree_ok {A B : Type} (d1 : dict A) (d2 : dict B) (z : dict (A * B)) :
  Jax.zip_tree d1 d2 = Ok z ->
  Jax.same_keys d1 d2 = true /\ Dict.keys z = Dict.keys d1.
Proof.
  intros H. split.
  - unfold Jax.zip_tree in H. destruct (Jax.same_keys d1 d2); [reflexivity | discriminate].
  - apply zip_tree_Forall2 in H. eapply Forall2_keys. exact H.
Qed.

(** A mismatch of keys is the one error of [zip_tree]. *)
Lemma zip_tree_error {A B : Type} (d1 : dict A) (d2 : dict B) (e : error) :
  Jax.zip_tree d1 d2 = Err e -> e = ValueError.
Proof.
  destruct (Jax.same_keys d1 d2) eqn:Hs.
  - destruct (zip_tree_total d1 d2 Hs) as (z & -> & _). discriminate.
  - unfold Jax.zip_tree. rewrite Hs. intros H. now injection H.
Qed.

Lemma tree_map_keys {A C : Type} (f : A -> result C) (d : dict A) (d' : dict C) :
  Jax.tree_map f d = Ok d' -> Dict.keys d' = Dict.keys d.
Proof. intros H. apply tree_map_Forall2 in H. eapply Forall2_keys. exact H. Qed.

Section EvaluateErrors.

Variable mag_app_from_mag_abs : list float -> float -> list float.
Variable truncated_gaussian :
  list float -> list float -> list float -> float -> list float.
Variable interp : list float -> list float -> list float -> list float.

Abbreviation evaluate' := (evaluate mag_app_from_mag_abs truncated_gaussian interp).
Abbreviation log_likelihood' :=
  (log_likelihood mag_app_from_mag_abs truncated_gaussian interp).

(** The first map of [evaluate]: it goes through when the luminosity
    distance is known or nothing is predicted, and raises a [KeyError]
    otherwise. *)
Lemma mag_app_cases (theta : dict float) (mag_abs : dict (list float)) :
  let f := fun x => (d <- Dict.getitem "luminosity_distance" theta ;;
                     Ok (mag_app_from_mag_abs x d))%result in
  (exists mag_app, Jax.tree_map f mag_abs = Ok mag_app /\
                   Dict.keys mag_app = Dict.keys mag_abs /\
                   (mag_abs = [] \/ Dict.mem "luminosity_distance" theta = true)) \/
  (Jax.tree_map f mag_abs = Err (KeyError "luminosity_distance") /\
   mag_abs <> [] /\ Dict.lookup "luminosity_distance" theta = None).
Proof.
  intros f. unfold f, Dict.getitem, Dict.mem.
  destruct (Dict.lookup "luminosity_distance" theta) as [d|] eqn:Ed.
  - left. cbn [rbind]. rewrite tree_map_pure. eexists. split; [reflexivity|].
    split; [apply (keys_map_values (fun x => mag_app_from_mag_abs x d)) | now right].
  - destruct mag_abs as [|[k a] mag_abs].
    + left. exists []. repeat split. now left.
    + right. split; [reflexivity|]. split; [discriminate | reflexivity].
Qed.

Lemma log_likelihood_keys_agree (self : EMLikelihood) (theta : dict float) (v : float) :
  log_likelihood' self theta = Ok v -> keys_agree self theta.
Proof.
  unfold log_likelihood. cbv zeta.
  destruct (mag_app_cases theta (predict (model self) theta))
    as [(mag_app & -> & K1 & Hlum)|(-> & _)]; [|discriminate].
  cbn [rbind]. unfold Jax.tree_map2.
  destruct (Jax.zip_tree (times_det self) mag_app) as [z|e] eqn:Z; [|discriminate].
  cbn [rbind]. rewrite tree_map_pure. cbn [rbind].
  set (mai := map _ z).
  apply zip_tree_ok in Z. destruct Z as (S1 & Kz).
  assert (Kmai : Dict.keys mai = Dict.keys (times_det self)).
  { unfold mai. unfold Dict.keys in *. rewrite map_map. exact Kz. }
  unfold Jax.tree_map4.
  destruct (Jax.zip_tree mai (mag_det self)) as [z2|e] eqn:Z2; [|discriminate].
  cbn [rbind].
  destruct (Jax.zip_tree z2 (sigma self)) as [z3|e] eqn:Z3; [|discriminate].
  cbn [rbind].
  destruct (Jax.zip_tree z3 (detection_limit self)) as [z4|e] eqn:Z4; [|discriminate].
  intros _.
  apply zip_tree_ok in Z2, Z3, Z4.
  destruct Z2 as (S2 & K2), Z3 as (S3 & K3), Z4 as (S4 & K4).
  unfold keys_agree. repeat split.
  - rewrite <- S1. now apply same_keys_keys.
  - rewrite <- S2. now apply same_keys_keys.
  - rewrite <- S3. apply same_keys_keys; [congruence | reflexivity].
  - rewrite <- S4. apply same_keys_keys; [congruence | reflexivity].
  - destruct Hlum as [Hnil|Hlum]; [|now right]. left.
    rewrite Hnil in K1. unfold Dict.keys in K1.
    apply map_eq_nil in K1. subst mag_app.
    unfold Jax.same_keys in S1. apply andb_true_iff in S1. destruct S1 as [S1 _].
    destruct (times_det self) as [|[k t] td]; [reflexivity | discriminate].
Qed.

(** X2.  [evaluate] returns a value exactly when the surrogate's prediction,
    [mag_det], [sigma] and [detection_limit] have the keys of [times_det]
    and, unless [times_det] is empty, the merged parameters hold the
    luminosity distance; what it raises otherwise is a [ValueError] or the
    [KeyError] of the luminosity distance. *)
Theorem evaluate_returns_iff_keys_agree (self : EMLikelihood) (theta : ref)
  (h : heap) :
  ((exists v, fst (evaluate' self theta h) = Ok v) <->
   keys_agree self (merged_theta self theta h)) /\
  (forall e, fst (evaluate' self theta h) = Err e ->
             e = ValueError \/ e = KeyError "luminosity_distance").
Proof.
  rewrite evaluate_eq. cbn [fst]. split; [split|].
  - intros [v Hv]. exact (log_likelihood_keys_agree _ _ Hv).
  - apply (@log_likelihood_total mag_app_from_mag_abs truncated_gaussian interp).
  - intros e. unfold log_likelihood. cbv zeta.
    destruct (mag_app_cases (merged_theta self theta h)
                (predict (model self) (merged_theta self theta h)))
      as [(mag_app & -> & _)|(-> & _)].
    2:{ cbn [rbind]. intros H. injection H as <-. now right. }
    cbn [rbind]. unfold Jax.tree_map2.
    destruct (Jax.zip_tree (times_det self) mag_app) as [z|e1] eqn:Z.
    2:{ cbn [rbind]. intros H. injection H as <-. left. exact (zip_tree_error _ _ Z). }
    cbn [rbind]. rewrite tree_map_pure. cbn [rbind]. unfold Jax.tree_map4.
    destruct (Jax.zip_tree _ (mag_det self)) as [z2|e2] eqn:Z2.
    2:{ cbn [rbind]. intros H. injection H as <-. left. exact (zip_tree_error _ _ Z2). }
    cbn [rbind].
    destruct (Jax.zip_tree z2 (sigma self)) as [z3|e3] eqn:Z3.
    2:{ cbn [rbind]. intros H. injection H as <-. left. exact (zip_tree_error _ _ Z3). }
    cbn [rbind].
    destruct (Jax.zip_tree z3 (detection_limit self)) as [z4|e4] eqn:Z4.
    2:{ cbn [rbind]. intros H. injection H as <-. left. exact (zip_tree_error _ _ Z4). }
    cbn [rbind]. rewrite tree_map_pure. cbn [rbind]. discriminate.
Qed.

(** X3.  When the surrogate predicts at least one filter and neither
    [theta] nor [fixed_params] holds the luminosity distance, [evaluate]
    raises [KeyError "luminosity_distance"], whatever the other keys. *)
Theorem evaluate_without_distance (self : EMLikelihood) (theta : ref) (h : heap) :
  predict (model self) (merged_theta self theta h) <> [] ->
  Dict.lookup "luminosity_distance" (nth theta (param_dicts h) []) = None ->
  Dict.lookup "luminosity_distance" (nth (fixed_params self) (param_dicts h) [])
  = None ->
  fst (evaluate' self theta h) = Err (KeyError "luminosity_distance").
Proof.
  intros Hne Ht Hf. rewrite evaluate_eq. cbn [fst].
  assert (Hm : Dict.lookup "luminosity_distance" (merged_theta self theta h) = None).
  { unfold merged_theta. rewrite DictFacts.lookup_merge.
    now rewrite (@lookup_None_rev _ _ _ Hf). }
  unfold log_likelihood. cbv zeta.
  destruct (mag_app_cases (merged_theta self theta h)
              (predict (model self) (merged_theta self theta h)))
    as [(mag_app & _ & _ & [Hnil|Hmem])|(-> & _)].
  - contradiction.
  - unfold Dict.mem in Hmem. rewrite Hm in Hmem. discriminate.
  - reflexivity.
Qed.

(** X4.  A construction that dropped a requested filter, with no detection
    limit or a scalar one: the dictionary of the limits keeps the key of the
    dropped filter, and [evaluate] returns no value, for any parameters. *)
Theorem evaluate_after_drop (m : LightcurveModel) (fr dr : ref)
  (trig lo hi : float) (eb : budget_arg) (fp : ref) (ign : bool) (dl : limit_arg)
  (h h' : heap) (self : EMLikelihood) (f : string) (theta : ref) (h2 : heap) :
  __init__ m fr dr trig lo hi eb fp ign dl h = (Ok self, h') ->
  NoDup (nth fr (str_lists h) []) ->
  In f (nth fr (str_lists h) []) ->
  Dict.mem f (normalize_keys (obs_keys (nth dr (obs_dicts h) no_observations))) = false ->
  (forall d, dl <> LimitDict d) ->
  Dict.mem f (detection_limit self) = true /\
  exists e, fst (evaluate' self theta h2) = Err e.
Proof.
  intros Hinit Hnd Hf Habs Hdl.
  destruct (init_static _ _ _ _ _ _ _ _ _ _ _ Hinit)
    as (_ & Hfr & _ & _ & _ & _ & Hlim & _).
  assert (Hmem : Dict.mem f (detection_limit self) = true).
  { rewrite Hlim. unfold Dict.mem.
    destruct dl as [|x|d]; [| |now destruct (Hdl d)];
      now rewrite (proj1 (lookup_broadcast _ _ f) Hf). }
  split; [exact Hmem|].
  destruct (fst (evaluate' self theta h2)) as [v|e] eqn:Ev; [|now exists e].
  exfalso.
  rewrite evaluate_eq in Ev. cbn [fst] in Ev.
  pose proof (log_likelihood_keys_agree _ _ Ev) as K.
  destruct K as (_ & _ & _ & Klim & _).
  rewrite <- (same_keys_mem _ _ Klim f) in Hmem.
  apply mem_In_keys in Hmem.
  rewrite (init_active_keys _ _ _ _ _ _ _ _ _ _ _ Hinit Hnd) in Hmem.
  destruct (init_rows _ _ _ _ _ _ _ _ _ _ _ Hinit) as (_ & _ & _ & Hrows).
  destruct (Hrows f Hmem) as (r & a & Ha & _).
  unfold Dict.mem in Habs. rewrite Ha in Habs. discriminate.
Qed.

(** X5.  The constructor keeps [fixed_params] by reference: [evaluate]
    merges the dictionary that reference holds when it is called, so a
    change the caller makes to it after the construction changes the
    parameters of every later evaluation. *)
Theorem fixed_params_by_reference (m : LightcurveModel) (fr dr : ref)
  (trig lo hi : float) (eb : budget_arg) (fp : ref) (ign : bool) (dl : limit_arg)
  (h h' : heap) (self : EMLikelihood) :
  __init__ m fr dr trig lo hi eb fp ign dl h = (Ok self, h') ->
  fixed_params self = fp /\
  param_dicts h' = param_dicts h /\
  forall (theta : ref) (h2 : heap),
    fst (evaluate' self theta h2)
    = log_likelihood' self
        (Dict.merge (nth theta (param_dicts h2) []) (nth fp (param_dicts h2) [])).
Proof.
  intros Hinit.
  destruct (init_static _ _ _ _ _ _ _ _ _ _ _ Hinit) as (_ & _ & Hfp & _).
  split; [exact Hfp|]. split.
  - revert Hinit. rewrite init_eq. cbv zeta.
    match goal with |- context [process_loop_on ?n 0 ?pd ?s0 h] =>
      destruct (process_loop_frame n 0 pd s0 h) as (self1 & sl1 & E & _);
      rewrite E end.
    destruct (sigma_loop _ _); [|discriminate]. intros H. now injection H as _ <-.
  - intros theta h2. rewrite evaluate_eq. cbn [fst]. unfold merged_theta.
    now rewrite Hfp.
Qed.

End EvaluateErrors.

Lemma sample_dropped_init :
  __init__ sample_model 2 0 (Float.Fin 0) (Float.Fin 0) (Float.Fin 14)
           (BudgetScalar (Float.Fin 0.5)) 1 false LimitNone sample_heap
  = (Ok sample_dropped,
     mkHeap [["a"; "b"]; ["b"]; ["b"]]%string (param_dicts sample_heap)
            (obs_dicts sample_heap)).
Proof. run. reflexivity. Qed.

Lemma evaluate_without_distance_witness :
  fst (evaluate sample_mag_app sample_truncated_gaussian sample_interp
         sample_object 0 sample_heap_no_distance)
  = Err (KeyError "luminosity_distance").
Proof.
  apply (evaluate_without_distance sample_mag_app sample_truncated_gaussian
           sample_interp sample_object 0 sample_heap_no_distance).
  - discriminate.
  - reflexivity.
  - reflexivity.
Defined.

Lemma evaluate_after_drop_witness :
  Dict.mem "a" (detection_limit sample_dropped) = true /\
  exists e, fst (evaluate sample_mag_app sample_truncated_gaussian sample_interp
                   sample_dropped 0 sample_heap) = Err e.
Proof.
  apply (@evaluate_after_drop sample_mag_app sample_truncated_gaussian sample_interp
           sample_model 2 0 (Float.Fin 0) (Float.Fin 0) (Float.Fin 14)
           (BudgetScalar (Float.Fin 0.5)) 1 false LimitNone sample_heap _
           sample_dropped "a"%string 0 sample_heap sample_dropped_init).
  - repeat constructor; simpl; intuition discriminate.
  - simpl. auto.
  - reflexivity.
  - discriminate.
Defined.

Lemma fixed_params_by_reference_witness :
  fixed_params sample_object = 1 /\
  param_dicts sample_heap = param_dicts sample_heap /\
  forall (theta : ref) (h2 : heap),
    fst (evaluate sample_mag_app sample_truncated_gaussian sample_interp
           sample_object theta h2)
    = log_likelihood sample_mag_app sample_truncated_gaussian sample_interp
        sample_object
        (Dict.merge (nth theta (param_dicts h2) []) (nth 1 (param_dicts h2) [])).
Proof.
  exact (@fixed_params_by_reference sample_mag_app sample_truncated_gaussian
           sample_interp sample_model 1 0 (Float.Fin 0) (Float.Fin 0) (Float.Fin 14)
           (BudgetScalar (Float.Fin 0.5)) 1 false LimitNone sample_heap sample_heap
           sample_object sample_init).
Defined.

(** ** The arrays of a constructed object *)

Lemma compress_length {A B : Type} (p : A -> bool) (l : list A) :
  forall l' : list B,
  length l' = length l -> length (compress (map p l) l') = length (filter p l).
Proof.
  induction l as [|x l IH]; intros [|y l'] H; cbn in *; try reflexivity; try lia.
  destruct (p x); cbn; rewrite IH by lia; reflexivity.
Qed.

Lemma compress_In {A : Type} (x : A) (mask : list bool) :
  forall l, In x (compress mask l) -> In x l.
Proof.
  induction mask as [|b mask IH]; intros [|y l]; cbn; try tauto.
  destruct b; cbn; intros H; [destruct H as [H|H]; [now left|] |]; right; now apply IH.
Qed.

Lemma ltb_trans (a b c : float) :
  Float.ltb a b = true -> Float.ltb b c = true -> Float.ltb a c = true.
Proof.
  destruct a as [x| | |], b as [y| | |], c as [z| | |]; cbn;
    try discriminate; try reflexivity.
  rewrite !FloatFacts.Rltb_iff. apply Rlt_trans.
Qed.

(** The times of the rows of the window lie in the window. *)
Lemma window_times (lo hi : float) (a : list row) (x : float) :
  In x (col_time (filter (in_open_window lo hi) a)) ->
  Float.ltb lo x = true /\ Float.ltb x hi = true.
Proof.
  unfold col_time. rewrite in_map_iff. intros (r & <- & Hr).
  apply filter_In in Hr. destruct Hr as (_ & Hw).
  unfold in_open_window, row_time in Hw. now apply andb_true_iff in Hw.
Qed.

(** X6.  After a successful construction from a list of filters without
    repetition, every filter of the final list has its detection times,
    magnitudes, errors and sigmas, the four of one length; none of the
    errors is [+inf], and every detection time lies strictly between [tmin]
    and [tmax]. *)
Theorem init_detection_arrays (m : LightcurveModel) (fr dr : ref)
  (trig lo hi : float) (eb : budget_arg) (fp : ref) (ign : bool) (dl : limit_arg)
  (h h' : heap) (self : EMLikelihood) (f : string) :
  __init__ m fr dr trig lo hi eb fp ign dl h = (Ok self, h') ->
  NoDup (nth fr (str_lists h) []) ->
  In f (nth fr (str_lists h') []) ->
  exists t mg e s,
    Dict.lookup f (times_det self) = Some t /\
    Dict.lookup f (mag_det self) = Some mg /\
    Dict.lookup f (mag_err self) = Some e /\
    Dict.lookup f (sigma self) = Some s /\
    length mg = length t /\ length e = length t /\ length s = length t /\
    Forall (fun x => Float.eqb x Float.inf = false) e /\
    Forall (fun x => Float.ltb lo x = true /\ Float.ltb x hi = true) t.
Proof.
  intros Hinit Hnd Hf.
  destruct (init_static _ _ _ _ _ _ _ _ _ _ _ Hinit) as (_ & Hfr & _).
  destruct (init_rows _ _ _ _ _ _ _ _ _ _ _ Hinit) as (_ & Hlo & Hhi & Hrows).
  rewrite Hfr in Hrows. destruct (Hrows f Hf) as (rf & a & _ & Ht & Hm & He & _).
  destruct (init_sigma _ _ _ _ _ _ _ _ _ _ _ Hinit f Hf) as (err & b & He' & _ & Hs).
  rewrite He in He'. injection He' as <-. rewrite Hlo, Hhi in *.
  do 4 eexists.
  split; [exact Ht|]. split; [exact Hm|]. split; [exact He|]. split; [exact Hs|].
  repeat split.
  - unfold col_mag, col_time. now rewrite !length_map.
  - unfold col_err, col_time. now rewrite !length_map.
  - unfold combined, col_err, col_time. now rewrite !length_map.
  - unfold col_err. apply Forall_map, Forall_forall. intros r Hr.
    apply filter_In in Hr. destruct Hr as (_ & Hd).
    unfold is_detection, Float.neb, row_err in Hd. now apply negb_true_iff in Hd.
  - apply Forall_forall. intros x Hx.
    apply (window_times lo hi (shift_times (trigger_time self) a)).
    unfold col_time in *. apply in_map_iff in Hx. destruct Hx as (r & <- & Hr).
    apply filter_In in Hr. apply in_map_iff. exists r. split; [reflexivity | tauto].
Qed.

(** X7.  After a successful construction from a list of filters without
    repetition, the stored non-detections of a filter of the final list are
    as many as its detections, whatever the number of its upper limits (the
    index array of the detections is negated bitwise and used as an index
    array again); their times are times of rows of the window. *)
Theorem init_nondetection_count (m : LightcurveModel) (fr dr : ref)
  (trig lo hi : float) (eb : budget_arg) (fp : ref) (ign : bool) (dl : limit_arg)
  (h h' : heap) (self : EMLikelihood) (f : string) :
  __init__ m fr dr trig lo hi eb fp ign dl h = (Ok self, h') ->
  NoDup (nth fr (str_lists h) []) ->
  In f (nth fr (str_lists h') []) ->
  exists td tn mn,
    Dict.lookup f (times_det self) = Some td /\
    Dict.lookup f (times_nondet self) = Some tn /\
    Dict.lookup f (mag_nondet self) = Some mn /\
    length tn = length td /\ length mn = length td /\
    Forall (fun x => Float.ltb lo x = true /\ Float.ltb x hi = true) tn.
Proof.
  intros Hinit Hnd Hf.
  destruct (init_static _ _ _ _ _ _ _ _ _ _ _ Hinit) as (_ & Hfr & _).
  destruct (init_rows _ _ _ _ _ _ _ _ _ _ _ Hinit) as (_ & Hlo & Hhi & Hrows).
  rewrite Hfr in Hrows. destruct (Hrows f Hf) as (rf & a & _ & Ht & _ & _ & Htn & Hmn).
  rewrite Hlo, Hhi in *.
  do 3 eexists.
  split; [exact Ht|]. split; [exact Htn|]. split; [exact Hmn|].
  repeat split.
  - rewrite compress_length by (unfold col_time; now rewrite length_rev, length_map).
    unfold col_time. now rewrite length_map.
  - rewrite compress_length by (unfold col_mag; now rewrite length_rev, length_map).
    unfold col_time. now rewrite length_map.
  - apply Forall_forall. intros x Hx. apply compress_In, in_rev in Hx.
    exact (window_times _ _ _ _ Hx).
Qed.

(** X8.  A window that holds no time ([tmin < tmax] fails): the construction,
    when it succeeds, leaves every filter of the final list with empty
    arrays of detections, sigmas and non-detections. *)
Theorem init_empty_window (m : LightcurveModel) (fr dr : ref)
  (trig lo hi : float) (eb : budget_arg) (fp : ref) (ign : bool) (dl : limit_arg)
  (h h' : heap) (self : EMLikelihood) (f : string) :
  __init__ m fr dr trig lo hi eb fp ign dl h = (Ok self, h') ->
  NoDup (nth fr (str_lists h) []) ->
  In f (nth fr (str_lists h') []) ->
  Float.ltb lo hi = false ->
  Dict.lookup f (times_det self) = Some [] /\
  Dict.lookup f (mag_det self) = Some [] /\
  Dict.lookup f (sigma self) = Some [] /\
  Dict.lookup f (times_nondet self) = Some [] /\
  Dict.lookup f (mag_nondet self) = Some [].
Proof.
  intros Hinit Hnd Hf Hw.
  destruct (init_static _ _ _ _ _ _ _ _ _ _ _ Hinit) as (_ & Hfr & _).
  destruct (init_rows _ _ _ _ _ _ _ _ _ _ _ Hinit) as (_ & Hlo & Hhi & Hrows).
  rewrite Hfr in Hrows. destruct (Hrows f Hf) as (rf & a & _ & Ht & Hm & He & Htn & Hmn).
  destruct (init_sigma _ _ _ _ _ _ _ _ _ _ _ Hinit f Hf) as (err & b & He' & _ & Hs).
  rewrite He in He'. injection He' as <-. rewrite Hlo, Hhi in *.
  assert (Hk : filter (in_open_window lo hi) (shift_times (trigger_time self) a) = []).
  { apply filter_none. intros r _. unfold in_open_window.
    destruct (Float.ltb lo (row_time r)) eqn:E1; [|reflexivity].
    destruct (Float.ltb (row_time r) hi) eqn:E2; [|reflexivity].
    rewrite (ltb_trans _ _ _ E1 E2) in Hw. discriminate. }
  rewrite Hk in *. cbn in Ht, Hm, Hs, Htn, Hmn. auto.
Qed.

(** ** The sigmas and the sign of the likelihood *)

Section SigmaFacts.

Local Open Scope R_scope.

(** [sqrt(e**2 + b**2)] is [nan] exactly when [e] or [b] is, and is not
    negative otherwise; neither fact rests on exact arithmetic. *)
Lemma sigma_sign (b e : float) :
  let s := Float.sqrt (Float.add (Float.sqr e) (Float.sqr b)) in
  (s = Float.NaN <-> e = Float.NaN \/ b = Float.NaN) /\
  (s <> Float.NaN -> Float.leb Float.zero s = true).
Proof.
  destruct e as [x| | |], b as [y| | |]; cbn;
    try (split; [split; [discriminate | intros [H|H]; discriminate] | reflexivity]);
    try (split; [split; [auto | reflexivity] | intros H; now destruct H]).
  assert (H0 : 0 <= x * x + y * y) by nra.
  rewrite FloatFacts.Rltb_false by lra. split.
  - split; [discriminate | intros [H|H]; discriminate].
  - intros _. cbn. rewrite FloatFacts.Rltb_false; [reflexivity|].
    apply Rle_not_lt, sqrt_pos.
Qed.

(** The squares, their quotients and their sums are [nan], [+inf] or a
    number that is not negative. *)
Lemma sqr_sign (a : float) :
  Float.sqr a = Float.NaN \/ Float.leb Float.zero (Float.sqr a) = true.
Proof.
  destruct a as [x| | |]; cbn; auto. right.
  rewrite FloatFacts.Rltb_false; [reflexivity | nra].
Qed.

Lemma div_sign (a b : float) :
  a = Float.NaN \/ Float.leb Float.zero a = true ->
  b = Float.NaN \/ Float.leb Float.zero b = true ->
  Float.div a b = Float.NaN \/ Float.leb Float.zero (Float.div a b) = true.
Proof.
  intros [->|Ha] [->|Hb]; [now left | now left | destruct a; now left |].
  destruct a as [x| | |], b as [y| | |]; cbn in *; try discriminate; auto.
  - apply negb_true_iff in Ha, Hb.
    apply Bool.not_true_iff_false in Ha, Hb. rewrite FloatFacts.Rltb_iff in Ha, Hb.
    unfold Float.Reqb. destruct (Req_dec_T y 0) as [->|Hy].
    + unfold Float.with_sign, Float.Rltb.
      destruct (Rlt_dec 0 x); [now right|]. destruct (Rlt_dec x 0); [lra | now left].
    + right. cbn. rewrite FloatFacts.Rltb_false; [reflexivity|].
      apply Rle_not_lt. apply Rle_mult_inv_pos; lra.
  - right. cbn. rewrite FloatFacts.Rltb_false; [reflexivity | lra].
  - apply negb_true_iff in Hb.
    apply Bool.not_true_iff_false in Hb. rewrite FloatFacts.Rltb_iff in Hb.
    rewrite FloatFacts.Rltb_false by lra. now right.
Qed.

Lemma add_sign (a b : float) :
  a = Float.NaN \/ Float.leb Float.zero a = true ->
  b = Float.NaN \/ Float.leb Float.zero b = true ->
  Float.add a b = Float.NaN \/ Float.leb Float.zero (Float.add a b) = true.
Proof.
  intros [->|Ha] [->|Hb]; [now left | now left | destruct a; now left |].
  destruct a as [x| | |], b as [y| | |]; cbn in *; try discriminate; auto.
  apply negb_true_iff in Ha, Hb.
  apply Bool.not_true_iff_false in Ha, Hb. rewrite FloatFacts.Rltb_iff in Ha, Hb.
  right. rewrite FloatFacts.Rltb_false; [reflexivity | lra].
Qed.

Lemma add_nonpositive (a b : float) :
  a = Float.NaN \/ Float.leb a Float.zero = true ->
  b = Float.NaN \/ Float.leb b Float.zero = true ->
  Float.add a b = Float.NaN \/ Float.leb (Float.add a b) Float.zero = true.
Proof.
  intros [->|Ha] [->|Hb]; [now left | now left | destruct a; now left |].
  destruct a as [x| | |], b as [y| | |]; cbn in *; try discriminate; auto.
  apply negb_true_iff in Ha, Hb.
  apply Bool.not_true_iff_false in Ha, Hb. rewrite FloatFacts.Rltb_iff in Ha, Hb.
  right. rewrite FloatFacts.Rltb_false; [reflexivity | lra].
Qed.

Lemma sum_nonpositive (l : list float) :
  Forall (fun a => a = Float.NaN \/ Float.leb a Float.zero = true) l ->
  Float.sum l = Float.NaN \/ Float.leb (Float.sum l) Float.zero = true.
Proof.
  induction 1 as [|a l Ha _ IH]; cbn.
  - right. rewrite FloatFacts.Rltb_false; [reflexivity | lra].
  - now apply add_nonpositive.
Qed.

Variable mag_app_from_mag_abs : list float -> float -> list float.
Variable truncated_gaussian :
  list float -> list float -> list float -> float -> list float.
Variable interp : list float -> list float -> list float -> list float.

(** The untruncated term is [nan] or not positive, whatever the values of
    the arrays. *)
Lemma compute_chisq_nonpositive (mag_est mag_det sig : list float) (lim : float) :
  let c := compute_chisq mag_est mag_det sig lim in
  c = Float.NaN \/ Float.leb c Float.zero = true.
Proof.
  cbv zeta. unfold compute_chisq.
  assert (Hgen : forall l s,
             Forall (fun a => a = Float.NaN \/ Float.leb Float.zero a = true)
                    (Float.map2 Float.div (map Float.sqr l) (map Float.sqr s))).
  { induction l as [|x l IH]; intros [|s0 s]; cbn [map Float.map2]; constructor.
    - apply div_sign; apply sqr_sign.
    - apply IH. }
  specialize (Hgen (Float.map2 Float.sub mag_det mag_est) sig).
  set (terms := Float.map2 _ _ _) in *. rename Hgen into Ht.
  assert (Hs : Float.sum terms = Float.NaN \/
               Float.leb Float.zero (Float.sum terms) = true).
  { clearbody terms. induction Ht as [|a l Ha _ IH]; cbn.
    - right. rewrite FloatFacts.Rltb_false; [reflexivity | lra].
    - now apply add_sign. }
  destruct Hs as [->|Hs]; [now left|].
  destruct (Float.sum terms) as [x| | |]; cbn in *; try discriminate; auto.
  - apply negb_true_iff in Hs.
    apply Bool.not_true_iff_false in Hs. rewrite FloatFacts.Rltb_iff in Hs.
    right. rewrite FloatFacts.Rltb_false; [reflexivity | lra].
  - right. unfold Float.with_sign.
    rewrite FloatFacts.Rltb_false by lra. rewrite FloatFacts.Rltb_true by lra.
    reflexivity.
Qed.

(** X9.  After a successful construction, the sigmas of a filter of the
    final list stand entry by entry beside its magnitude errors: a sigma is
    [nan] exactly when the error or the error budget of the filter is [nan],
    and is not negative otherwise. *)
Theorem init_sigma_sign (m : LightcurveModel) (fr dr : ref)
  (trig lo hi : float) (eb : budget_arg) (fp : ref) (ign : bool) (dl : limit_arg)
  (h h' : heap) (self : EMLikelihood) (f : string) :
  __init__ m fr dr trig lo hi eb fp ign dl h = (Ok self, h') ->
  In f (nth fr (str_lists h') []) ->
  exists err b s,
    Dict.lookup f (mag_err self) = Some err /\
    Dict.lookup f (error_budget self) = Some b /\
    Dict.lookup f (sigma self) = Some s /\
    Forall2 (fun e x => (x = Float.NaN <-> e = Float.NaN \/ b = Float.NaN) /\
                        (x <> Float.NaN -> Float.leb Float.zero x = true))
            err s.
Proof.
  intros Hinit Hf.
  destruct (init_sigma _ _ _ _ _ _ _ _ _ _ _ Hinit f Hf) as (err & b & He & Hb & Hs).
  exists err, b, (combined b err). repeat split; try assumption.
  unfold combined. clear He Hs. induction err as [|e err IH]; cbn; constructor.
  - apply sigma_sign.
  - exact IH.
Qed.

(** X10.  Where every detection limit is [+inf] (the constructor's choice
    when no limit is given), a value of [evaluate] is [nan] or not
    positive. *)
Theorem evaluate_nonpositive (self : EMLikelihood) (theta : ref) (h : heap)
  (v : float) :
  (forall f lim, Dict.lookup f (detection_limit self) = Some lim ->
                 lim = Float.inf) ->
  fst (evaluate mag_app_from_mag_abs truncated_gaussian interp self theta h)
  = Ok v ->
  v = Float.NaN \/ Float.leb v Float.zero = true.
Proof.
  intros Hlim. rewrite evaluate_eq. cbn [fst]. intros Hv.
  apply log_likelihood_sum in Hv. destruct Hv as (terms & Hterms & ->).
  apply sum_nonpositive.
  induction Hterms as [|kv t l ts Hkv _ IH]; constructor; [|exact IH].
  destruct Hkv as (ma & d & det & sig & lim & _ & _ & _ & _ & Hl & ->).
  rewrite (Hlim _ _ Hl). unfold get_chisq_filt, Jax.lax_cond. cbn [Float.eqb Float.inf].
  apply compute_chisq_nonpositive.
Qed.

End SigmaFacts.

Lemma sample_empty_window_init :
  __init__ sample_model 1 0 (Float.Fin 0) (Float.Fin 14) (Float.Fin 0)
           (BudgetScalar (Float.Fin 0.5)) 1 false LimitNone sample_heap
  = (Ok sample_empty_window, sample_heap).
Proof. run. reflexivity. Qed.

Lemma init_detection_arrays_witness :
  exists t mg e s,
    Dict.lookup "b" (times_det sample_object) = Some t /\
    Dict.lookup "b" (mag_det sample_object) = Some mg /\
    Dict.lookup "b" (mag_err sample_object) = Some e /\
    Dict.lookup "b" (sigma sample_object) = Some s /\
    length mg = length t /\ length e = length t /\ length s = length t /\
    Forall (fun x => Float.eqb x Float.inf = false) e /\
    Forall (fun x => Float.ltb (Float.Fin 0) x = true /\
                     Float.ltb x (Float.Fin 14) = true) t.
Proof.
  apply (@init_detection_arrays sample_model 1 0 (Float.Fin 0) (Float.Fin 0)
           (Float.Fin 14) (BudgetScalar (Float.Fin 0.5)) 1 false LimitNone
           sample_heap sample_heap sample_object "b"%string sample_init).
  - repeat constructor; simpl; tauto.
  - simpl. auto.
Defined.

Lemma init_nondetection_count_witness :
  exists td tn mn,
    Dict.lookup "b" (times_det sample_object) = Some td /\
    Dict.lookup "b" (times_nondet sample_object) = Some tn /\
    Dict.lookup "b" (mag_nondet sample_object) = Some mn /\
    length tn = length td /\ length mn = length td /\
    Forall (fun x => Float.ltb (Float.Fin 0) x = true /\
                     Float.ltb x (Float.Fin 14) = true) tn.
Proof.
  apply (@init_nondetection_count sample_model 1 0 (Float.Fin 0) (Float.Fin 0)
           (Float.Fin 14) (BudgetScalar (Float.Fin 0.5)) 1 false LimitNone
           sample_heap sample_heap sample_object "b"%string sample_init).
  - repeat constructor; simpl; tauto.
  - simpl. auto.
Defined.

Lemma init_empty_window_witness :
  Dict.lookup "b" (times_det sample_empty_window) = Some [] /\
  Dict.lookup "b" (mag_det sample_empty_window) = Some [] /\
  Dict.lookup "b" (sigma sample_empty_window) = Some [] /\
  Dict.lookup "b" (times_nondet sample_empty_window) = Some [] /\
  Dict.lookup "b" (mag_nondet sample_empty_window) = Some [].
Proof.
  apply (@init_empty_window sample_model 1 0 (Float.Fin 0) (Float.Fin 14)
           (Float.Fin 0) (BudgetScalar (Float.Fin 0.5)) 1 false LimitNone
           sample_heap sample_heap sample_empty_window "b"%string
           sample_empty_window_init).
  - repeat constructor; simpl; tauto.
  - simpl. auto.
  - cbn. apply FloatFacts.Rltb_false. lra.
Defined.

Lemma init_sigma_sign_witness :
  exists err b s,
    Dict.lookup "b" (mag_err sample_object) = Some err /\
    Dict.lookup "b" (error_budget sample_object) = Some b /\
    Dict.lookup "b" (sigma sample_object) = Some s /\
    Forall2 (fun e x => (x = Float.NaN <-> e = Float.NaN \/ b = Float.NaN) /\
                        (x <> Float.NaN -> Float.leb Float.zero x = true))
            err s.
Proof.
  apply (@init_sigma_sign sample_model 1 0 (Float.Fin 0) (Float.Fin 0)
           (Float.Fin 14) (BudgetScalar (Float.Fin 0.5)) 1 false LimitNone
           sample_heap sample_heap sample_object "b"%string sample_init).
  simpl. auto.
Defined.

Lemma evaluate_nonpositive_witness :
  exists v,
    fst (evaluate sample_mag_app sample_truncated_gaussian sample_interp
                  sample_object 0 sample_heap) = Ok v /\
    (v = Float.NaN \/ Float.leb v Float.zero = true).
Proof.
  destruct sample_evaluate as [v Hv]. exists v. split; [exact Hv|].
  apply (@evaluate_nonpositive sample_mag_app sample_truncated_gaussian
           sample_interp sample_object 0 sample_heap v).
  - intros f lim. cbn. destruct (String.eqb f "b"); intros H; inversion H.
    reflexivity.
  - exact Hv.
Defined.

(** ** The keys of the data *)

Lemma str_replace_out (old new : ascii) (s : string) :
  new <> old -> str_in old (str_replace old new s) = false.
Proof.
  intros Hn. induction s as [|c s IH]; cbn; [reflexivity|].
  rewrite IH, orb_false_r. destruct (Ascii.eqb c old) eqn:E.
  - now apply Ascii.eqb_neq.
  - exact E.
Qed.

Lemma str_replace_id (old new : ascii) (s : string) :
  str_in old s = false -> str_replace old new s = s.
Proof.
  induction s as [|c s IH]; cbn; [reflexivity|]. intros H.
  apply orb_false_iff in H. destruct H as (-> & H). now rewrite IH.
Qed.

Lemma insert_new {V : Type} (k : string) (v : V) (d : dict V) :
  Dict.lookup k d = None -> Dict.insert k v d = d ++ [(k, v)].
Proof.
  induction d as [|[k' v'] d IH]; cbn; [reflexivity|].
  destruct (String.eqb k k'); [discriminate|]. intros H. now rewrite IH.
Qed.

Lemma keys_insert {V : Type} (k : string) (v : V) (d : dict V) :
  Dict.keys (Dict.insert k v d)
  = if Dict.mem k d then Dict.keys d else Dict.keys d ++ [k].
Proof.
  unfold Dict.mem, Dict.keys. induction d as [|[k' v'] d IH]; cbn; [reflexivity|].
  destruct (String.eqb k k') eqn:E; cbn; [reflexivity|].
  rewrite IH. now destruct (Dict.lookup k d).
Qed.

Lemma NoDup_keys_insert {V : Type} (k : string) (v : V) (d : dict V) :
  NoDup (Dict.keys d) -> NoDup (Dict.keys (Dict.insert k v d)).
Proof.
  intros H. rewrite keys_insert. destruct (Dict.mem k d) eqn:E; [exact H|].
  apply NoDup_app; [exact H | repeat constructor; cbn; tauto |].
  intros x Hx [<-|[]]. apply mem_In_keys in Hx. congruence.
Qed.

Lemma fold_insert_keys {V : Type} (items : list (string * V)) :
  forall d : dict V,
  NoDup (Dict.keys d) ->
  let d' := fold_left (fun d kv => Dict.insert (fst kv) (snd kv) d) items d in
  NoDup (Dict.keys d') /\
  forall k, In k (Dict.keys d') -> In k (Dict.keys d) \/ In k (map fst items).
Proof.
  induction items as [|[k0 v0] items IH]; intros d Hd; cbn.
  - split; [exact Hd | now left].
  - destruct (IH (Dict.insert k0 v0 d) (NoDup_keys_insert k0 v0 d Hd)) as (Hn & Hk).
    split; [exact Hn|]. intros k Hin. destruct (Hk k Hin) as [H|H]; [|now right; right].
    rewrite keys_insert in H. destruct (Dict.mem k0 d); [now left|].
    apply in_app_or in H. destruct H as [H|[<-|[]]]; [now left | right; now left].
Qed.

Lemma fold_insert_fresh {V : Type} (items : list (string * V)) :
  forall d : dict V,
  NoDup (Dict.keys d ++ map fst items) ->
  fold_left (fun d kv => Dict.insert (fst kv) (snd kv) d) items d = d ++ items.
Proof.
  induction items as [|[k0 v0] items IH]; intros d Hd; cbn.
  - now rewrite app_nil_r.
  - cbn in Hd.
    assert (Hk : Dict.lookup k0 d = None).
    { apply lookup_None_iff. intros Hc. apply NoDup_remove_2 in Hd. apply Hd.
      apply in_or_app. now left. }
    rewrite (insert_new k0 v0 d Hk), IH.
    + now rewrite <- app_assoc.
    + unfold Dict.keys in *. rewrite map_app. cbn. now rewrite <- app_assoc.
Qed.

(** Line 154 leaves a dictionary without a colon in its keys as it is. *)
Lemma normalize_keys_id (V : Type) (d : dict V) :
  NoDup (Dict.keys d) ->
  (forall k, In k (Dict.keys d) -> str_in ":" k = false) ->
  normalize_keys d = d.
Proof.
  intros Hn Hc. unfold normalize_keys, Dict.of_items.
  assert (Hm : map (fun kv : string * V =>
                      (str_replace ":" "_" (fst kv), snd kv)) d = d).
  { rewrite <- (map_id d) at 2. apply map_ext_in. intros [k v] Hin. cbn.
    rewrite str_replace_id; [reflexivity|]. apply Hc. now apply (in_map fst) in Hin. }
  rewrite Hm. exact (fold_insert_fresh d [] Hn).
Qed.

(** X11.  The keys of the processed data (line 154) hold no colon and none
    twice, and processing them again changes nothing; so a filter requested
    under a name with a colon is never found in the data. *)
Theorem normalize_keys_idempotent (V : Type) (d : dict V) :
  NoDup (Dict.keys (normalize_keys d)) /\
  (forall k, In k (Dict.keys (normalize_keys d)) -> str_in ":" k = false) /\
  normalize_keys (normalize_keys d) = normalize_keys d /\
  (forall f, str_in ":" f = true -> Dict.mem f (normalize_keys d) = false).
Proof.
  destruct (fold_insert_keys
              (map (fun kv : string * V =>
                      (str_replace ":" "_" (fst kv), snd kv)) d) []
              (NoDup_nil _)) as (Hn & Hk).
  fold (Dict.of_items (map (fun kv : string * V =>
                              (str_replace ":" "_" (fst kv), snd kv)) d)) in Hn, Hk.
  fold (normalize_keys d) in Hn, Hk. cbv zeta in Hn, Hk.
  assert (Hc : forall k, In k (Dict.keys (normalize_keys d)) -> str_in ":" k = false).
  { intros k Hin. destruct (Hk k Hin) as [[]|H].
    rewrite map_map in H. cbn in H. apply in_map_iff in H. destruct H as (kv & <- & _).
    apply str_replace_out. discriminate. }
  split; [exact Hn|]. split; [exact Hc|]. split; [now apply normalize_keys_id|].
  intros f Hf. destruct (Dict.mem f (normalize_keys d)) eqn:E; [|reflexivity].
  apply mem_In_keys, Hc in E. congruence.
Qed.

(** ** Constructions that succeed *)

Lemma skipn_nth_error {A : Type} (l : list A) :
  forall (i : nat) (x : A), nth_error l i = Some x -> skipn i l = x :: skipn (S i) l.
Proof.
  induction l as [|y l IH]; intros [|i] x H; cbn in *; try discriminate.
  - now injection H as ->.
  - now apply IH.
Qed.

(** When every filter of the list is found in the data, the loop gives
    every filter at or behind the iterator its arrays. *)
Lemma process_loop_visits (fuel : nat) :
  forall (i : nat) (pd : observations) (self self' : EMLikelihood) (h h' : heap),
  (forall f, In f (nth (filters self) (str_lists h) []) -> Dict.mem f (obs_keys pd) = true) ->
  length (nth (filters self) (str_lists h) []) - i <= fuel ->
  process_loop_on fuel i pd self h = (Ok self', h') ->
  forall f,
    In f (skipn i (nth (filters self) (str_lists h) [])) \/
    Dict.mem f (mag_err self) = true ->
    Dict.mem f (mag_err self') = true.
Proof.
  induction fuel as [|fuel IH]; intros i pd self self' h h' Hall Hfuel H f Hf.
  - cbn in H. injection H as <- _. destruct Hf as [Hf|Hf]; [|exact Hf].
    rewrite skipn_all2 in Hf by lia. destruct Hf.
  - rewrite process_loop_S in H.
    destruct (nth_error (nth (filters self) (str_lists h) []) i) as [filt|] eqn:Hi.
    + pose proof (Hall filt (nth_error_In _ _ Hi)) as Hp. unfold Dict.mem in Hp.
      destruct (Dict.lookup filt (obs_keys pd)) as [a|] eqn:Hpd; [|discriminate].
      cbv zeta in H. rewrite process_filter_rows in H.
      refine (IH (S i) _ _ self' h h' _ _ H f _).
      * cbn [filters set_nondet set_det obs_keys shift_in_place]. exact Hall.
      * cbn [filters set_nondet set_det]. lia.
      * cbn [filters mag_err set_nondet set_det].
        rewrite (skipn_nth_error _ _ Hi) in Hf.
        unfold Dict.mem. rewrite DictFacts.lookup_insert.
        destruct (String.eqb f filt) eqn:E; [now right|].
        apply String.eqb_neq in E.
        destruct Hf as [[Hf|Hf]|Hf]; [congruence | now left | now right].
    + injection H as <- _. destruct Hf as [Hf|Hf]; [|exact Hf].
      apply nth_error_None in Hi. rewrite skipn_all2 in Hf by exact Hi. destruct Hf.
Qed.

(** The loop of the sigmas goes through when every filter of the list has
    its errors and its budget. *)
Lemma sigma_loop_total (fl : list string) (self : EMLikelihood) :
  (forall f, In f fl -> Dict.mem f (mag_err self) = true) ->
  (forall f, In f fl -> Dict.mem f (error_budget self) = true) ->
  exists self', sigma_loop fl self = Ok self'.
Proof.
  intros He Hb. destruct (sigma_loop fl self) as [self'|e] eqn:E; [now exists self'|].
  apply sigma_loop_error in E. destruct E as (k & _ & Hk & [Hn|Hn]).
  - specialize (He k Hk). unfold Dict.mem in He. rewrite Hn in He. discriminate.
  - specialize (Hb k Hk). unfold Dict.mem in Hb. rewrite Hn in Hb. discriminate.
Qed.

(** What the constructor does when no requested filter is missing from the
    data: the loop over the filters visits every one of them, and the loop
    of the sigmas runs over the unchanged list. *)
Lemma init_all_present (m : LightcurveModel) (fr dr : ref) (trig lo hi : float)
  (eb : budget_arg) (fp : ref) (ign : bool) (dl : limit_arg) (h : heap) :
  (forall f, In f (nth fr (str_lists h) []) ->
     Dict.mem f (normalize_keys (obs_keys (nth dr (obs_dicts h) no_observations))) = true) ->
  exists self2,
    (forall f, In f (nth fr (str_lists h) []) -> Dict.mem f (mag_err self2) = true) /\
    error_budget self2
    = match eb with
      | BudgetScalar x => broadcast (nth fr (str_lists h) []) x
      | BudgetDict d => d
      end /\
    __init__ m fr dr trig lo hi eb fp ign dl h
    = match sigma_loop (nth fr (str_lists h) []) self2 with
      | Ok self3 => (Ok (set_fixed_params fp self3), h)
      | Err e => (Err e, h)
      end.
Proof.
  intros Hall. rewrite init_eq. cbv zeta.
  match goal with |- context [process_loop_on ?n 0 ?pd ?s0 h] =>
    pose proof (@process_loop_all_present n 0 pd s0 h Hall) as Hh;
    pose proof (fun self' h' => @process_loop_visits n 0 pd s0 self' h h' Hall
                                  ltac:(cbn [filters]; lia)) as Hvis;
    destruct (process_loop_frame n 0 pd s0 h) as (self1 & sl1 & E & Hc & _)
  end.
  rewrite E in Hh |- *. cbn [snd] in Hh. rewrite Hh in *.
  specialize (Hvis self1 h E). cbn [filters skipn] in Hvis.
  set (self2 := if (length (times_nondet self1) =? 0)%nat
                then set_ignore_nondetections true self1 else self1).
  assert (H2 : filters self2 = fr /\ mag_err self2 = mag_err self1 /\
               error_budget self2 = error_budget self1).
  { unfold config in Hc. cbn in Hc. injection Hc as _ Hf _ _ _ _ _ _ _ _.
    unfold self2. destruct (_ =? _)%nat; cbn; auto. }
  destruct H2 as (Hf2 & He2 & Hb2). exists self2. rewrite Hf2, He2, Hb2.
  split; [intros f Hf; apply Hvis; now left|]. split; [|reflexivity].
  unfold config in Hc. cbn in Hc. now injection Hc as _ _ _ _ _ _ _ Hbud _ _.
Qed.



(** ** The flag of the non-detections *)

Lemma keys_insert_congr {A B : Type} (k : string) (v : A) (w : B)
  (d1 : dict A) (d2 : dict B) :
  Dict.keys d1 = Dict.keys d2 ->
  Dict.keys (Dict.insert k v d1) = Dict.keys (Dict.insert k w d2).
Proof. intros H. rewrite !keys_insert, !mem_keys, H. reflexivity. Qed.

(** The loop keeps the keys of [times_nondet] those of [times_det]. *)
Lemma process_loop_nondet_keys (fuel : nat) :
  forall (i : nat) (pd : observations) (self self' : EMLikelihood) (h h' : heap),
  Dict.keys (times_nondet self) = Dict.keys (times_det self) ->
  process_loop_on fuel i pd self h = (Ok self', h') ->
  Dict.keys (times_nondet self') = Dict.keys (times_det self').
Proof.
  induction fuel as [|fuel IH]; intros i pd self self' h h' Hk H.
  - cbn in H. now injection H as <- _.
  - rewrite process_loop_S in H.
    destruct (nth_error (nth (filters self) (str_lists h) []) i) as [filt|];
      [|now injection H as <- _].
    destruct (Dict.lookup filt (obs_keys pd)) as [a|].
    + cbv zeta in H. rewrite process_filter_rows in H.
      refine (IH _ _ _ self' _ h' _ H). cbn [times_nondet times_det set_nondet set_det].
      now apply keys_insert_congr.
    + exact (IH _ _ _ self' _ h' Hk H).
Qed.

(** X13.  After a successful construction from a list of filters without
    repetition, the keys of [times_nondet] are the filters of the final
    list, and [ignore_nondetections] is the argument or-ed with "no filter
    is left": the flag is forced when the final list is empty, not when the
    data holds no upper limit. *)
Theorem init_flag_forced (m : LightcurveModel) (fr dr : ref)
  (trig lo hi : float) (eb : budget_arg) (fp : ref) (ign : bool) (dl : limit_arg)
  (h h' : heap) (self : EMLikelihood) :
  __init__ m fr dr trig lo hi eb fp ign dl h = (Ok self, h') ->
  NoDup (nth fr (str_lists h) []) ->
  Dict.keys (times_nondet self) = nth fr (str_lists h') [] /\
  ignore_nondetections self
  = ign || (length (nth fr (str_lists h') []) =? 0)%nat.
Proof.
  intros Hinit Hnd.
  destruct (init_static _ _ _ _ _ _ _ _ _ _ _ Hinit) as (_ & Hfr & _).
  pose proof (init_active_keys _ _ _ _ _ _ _ _ _ _ _ Hinit Hnd) as Hact.
  rewrite Hfr in Hact.
  assert (Hk : Dict.keys (times_nondet self) = Dict.keys (times_det self)).
  { revert Hinit. rewrite init_eq. cbv zeta. intros H.
    match type of H with context [process_loop_on ?n 0 ?pd ?s0 h] =>
      destruct (process_loop_on n 0 pd s0 h) as [[self1|e] h1] eqn:E; [|discriminate];
      pose proof (@process_loop_nondet_keys n 0 pd s0 self1 h h1 eq_refl E) as Hkeys
    end.
    set (self2 := if (length (times_nondet self1) =? 0)%nat
                  then set_ignore_nondetections true self1 else self1) in H.
    assert (H2 : times_det self2 = times_det self1 /\
                 times_nondet self2 = times_nondet self1).
    { unfold self2. destruct (_ =? _)%nat; cbn; auto. }
    destruct H2 as (Ht2 & Hn2). clearbody self2.
    destruct (sigma_loop _ self2) as [self3|e] eqn:Es; [|discriminate].
    injection H as <- _.
    apply sigma_loop_spec in Es. destruct Es as (Hs & _).
    pose proof (f_equal times_det Hs) as Ht3.
    pose proof (f_equal times_nondet Hs) as Hn3.
    cbn in Ht3, Hn3. cbn [times_det times_nondet set_fixed_params].
    now rewrite Ht3, Hn3, Ht2, Hn2. }
  split; [congruence|].
  rewrite (init_flag _ _ _ _ _ _ _ _ _ _ _ Hinit). f_equal.
  rewrite <- Hact, <- Hk. unfold Dict.keys. now rewrite length_map.
Qed.

Lemma init_flag_forced_witness :
  Dict.keys (times_nondet sample_object) = nth 1 (str_lists sample_heap) [] /\
  ignore_nondetections sample_object
  = false || (length (nth 1 (str_lists sample_heap) []) =? 0)%nat.
Proof.
  apply (@init_flag_forced sample_model 1 0 (Float.Fin 0) (Float.Fin 0)
           (Float.Fin 14) (BudgetScalar (Float.Fin 0.5)) 1 false LimitNone
           sample_heap sample_heap sample_object sample_init).
  repeat constructor; simpl; tauto.
Defined.

(** ** Constructing again from the list a construction left behind *)

Lemma list_remove_NoDup (g : string) (l : list string) :
  NoDup l -> NoDup (list_remove g l).
Proof.
  induction 1 as [|y l Hy Hl IH]; cbn; [constructor|].
  destruct (String.eqb g y); [exact Hl|]. constructor; [|exact IH].
  intros Hc. apply Hy. now apply list_remove_incl in Hc.
Qed.

(** The loop keeps the list of filters free of repetitions, and reads the
    observation mappings only. *)
Lemma process_loop_NoDup (fuel : nat) :
  forall (i : nat) (pd : observations) (self : EMLikelihood) (h : heap) (r : ref),
  filters self = r ->
  NoDup (nth r (str_lists h) []) ->
  NoDup (nth r (str_lists (snd (process_loop_on fuel i pd self h))) []).
Proof.
  induction fuel as [|fuel IH]; intros i pd self h r Hr Hnd; [exact Hnd|].
  rewrite process_loop_S. rewrite Hr.
  destruct (nth_error (nth r (str_lists h) []) i) as [g|] eqn:Hi; [|exact Hnd].
  destruct (Dict.lookup g (obs_keys pd)) as [a|].
  - cbv zeta. rewrite process_filter_rows. apply IH; [exact Hr | exact Hnd].
  - apply IH; [exact Hr|]. cbn [str_lists].
    rewrite nth_list_set_eq by exact (nth_nonempty_valid _ _ _ Hi).
    now apply list_remove_NoDup.
Qed.

Lemma init_heap (m : LightcurveModel) (fr dr : ref) (trig lo hi : float)
  (eb : budget_arg) (fp : ref) (ign : bool) (dl : limit_arg) (h : heap) :
  NoDup (nth fr (str_lists h) []) ->
  let h' := snd (__init__ m fr dr trig lo hi eb fp ign dl h) in
  NoDup (nth fr (str_lists h') []) /\ obs_dicts h' = obs_dicts h.
Proof.
  intros Hnd. rewrite init_eq. cbv zeta.
  match goal with |- context [process_loop_on ?n 0 ?pd ?s0 h] =>
    pose proof (@process_loop_NoDup n 0 pd s0 h fr eq_refl Hnd) as Hn;
    destruct (process_loop_frame n 0 pd s0 h) as (self1 & sl1 & E & _);
    rewrite E in Hn |- *
  end.
  cbn [snd filters] in Hn.
  destruct (sigma_loop _ _); cbn [snd obs_dicts]; auto.
Qed.

Lemma keys_broadcast (fl : list string) (x : float) :
  NoDup fl -> Dict.keys (broadcast fl x) = fl.
Proof.
  intros Hnd. unfold broadcast, Dict.of_items.
  assert (Hk : map fst (combine fl (repeat x (length fl))) = fl).
  { assert (Hgen : forall (l : list string) (k : nat), length l <= k ->
              map fst (combine l (repeat x k)) = l).
    { induction l as [|y l IH]; intros [|k] Hl; cbn in *; try reflexivity; try lia.
      rewrite IH by lia. reflexivity. }
    apply Hgen. lia. }
  rewrite (fold_insert_fresh _ []); [exact Hk | cbn; now rewrite Hk].
Qed.

(** X14.  Constructing again with the same arguments, on the heap a
    successful construction left behind: the second construction succeeds,
    removes nothing from the list, and yields the same filters as keys of
    [times_det]; without a dictionary of detection limits its limits have
    exactly these keys. *)
Theorem init_again (m : LightcurveModel) (fr dr : ref)
  (trig lo hi : float) (eb : budget_arg) (fp : ref) (ign : bool) (dl : limit_arg)
  (h h' : heap) (self : EMLikelihood) :
  __init__ m fr dr trig lo hi eb fp ign dl h = (Ok self, h') ->
  NoDup (nth fr (str_lists h) []) ->
  exists self',
    __init__ m fr dr trig lo hi eb fp ign dl h' = (Ok self', h') /\
    Dict.keys (times_det self') = Dict.keys (times_det self) /\
    ((forall d, dl <> LimitDict d) ->
     Dict.keys (detection_limit self') = Dict.keys (times_det self')).
Proof.
  intros Hinit Hnd.
  destruct (init_heap m fr dr trig lo hi eb fp ign dl h Hnd) as (Hnd' & Hobs).
  rewrite Hinit in Hnd', Hobs. cbn [snd] in Hnd', Hobs.
  destruct (init_static _ _ _ _ _ _ _ _ _ _ _ Hinit) as (_ & Hfr & _ & _ & _ & _ & _ & Hbud).
  destruct (init_rows _ _ _ _ _ _ _ _ _ _ _ Hinit) as (_ & _ & _ & Hrows).
  rewrite Hfr in Hrows.
  assert (Hall : forall f, In f (nth fr (str_lists h') []) ->
                   Dict.mem f (normalize_keys (obs_keys (nth dr (obs_dicts h') no_observations))) = true).
  { intros f Hf. destruct (Hrows f Hf) as (r & a & Ha & _).
    unfold Dict.mem. now rewrite Hobs, Ha. }
  destruct (init_all_present m fr dr trig lo hi eb fp ign dl h' Hall)
    as (self2 & Herr & Hbud2 & E).
  destruct (sigma_loop_total (nth fr (str_lists h') []) self2 Herr) as [self3 Hs].
  { intros f Hf. rewrite Hbud2. unfold Dict.mem. destruct eb as [x|d].
    - now rewrite (proj1 (lookup_broadcast _ x f) Hf).
    - destruct (init_sigma _ _ _ _ _ _ _ _ _ _ _ Hinit f Hf) as (err & b & _ & Hb & _).
      now rewrite <- Hbud, Hb. }
  rewrite Hs in E. exists (set_fixed_params fp self3).
  split; [exact E|].
  pose proof (init_active_keys _ _ _ _ _ _ _ _ _ _ _ Hinit Hnd) as K1.
  pose proof (init_active_keys _ _ _ _ _ _ _ _ _ _ _ E Hnd') as K2.
  destruct (init_static _ _ _ _ _ _ _ _ _ _ _ E) as (_ & Hfr2 & _ & _ & _ & _ & Hlim2 & _).
  rewrite Hfr in K1. rewrite Hfr2 in K2.
  split; [congruence|].
  intros Hdl. rewrite K2, Hlim2.
  destruct dl as [|x|d]; [| |now destruct (Hdl d)]; now apply keys_broadcast.
Qed.

Lemma init_again_witness :
  exists self',
    __init__ sample_model 2 0 (Float.Fin 0) (Float.Fin 0) (Float.Fin 14)
             (BudgetScalar (Float.Fin 0.5)) 1 false LimitNone
             (mkHeap [["a"; "b"]; ["b"]; ["b"]]%string (param_dicts sample_heap)
                     (obs_dicts sample_heap))
    = (Ok self',
       mkHeap [["a"; "b"]; ["b"]; ["b"]]%string (param_dicts sample_heap)
              (obs_dicts sample_heap)) /\
    Dict.keys (times_det self') = Dict.keys (times_det sample_dropped) /\
    ((forall d, LimitNone <> LimitDict d) ->
     Dict.keys (detection_limit self') = Dict.keys (times_det self')).
Proof.
  apply (@init_again sample_model 2 0 (Float.Fin 0) (Float.Fin 0) (Float.Fin 14)
           (BudgetScalar (Float.Fin 0.5)) 1 false LimitNone sample_heap _
           sample_dropped sample_dropped_init).
  repeat constructor; simpl; intuition discriminate.
Defined.

(** * Properties of the training functions *)

(** ** [MLP.__call__] *)

Section MLPFacts.

Variable vec : Type.
Variable act_func : vec -> vec.

Lemma MLP_layers_hidden (hidden : list (vec -> vec)) :
  forall (i n : Z) (rest : list (vec -> vec)) (x : vec),
  (i + Z.of_nat (length hidden) <= n)%Z ->
  MLP_layers act_func i n (hidden ++ rest) x
  = MLP_layers act_func (i + Z.of_nat (length hidden)) n rest
      (fold_left (fun y layer => act_func (layer y)) hidden x).
Proof.
  induction hidden as [|l hidden IH]; intros i n rest x Hn; cbn [app fold_left length].
  - now rewrite Z.add_0_r.
  - cbn [MLP_layers]. cbn [length] in Hn. rewrite Nat2Z.inj_succ in *.
    replace (i =? n)%Z with false by (symmetry; apply Z.eqb_neq; lia).
    cbn [negb]. rewrite IH by lia. f_equal. lia.
Qed.

(** X15.  The network applies the activation function after every layer
    but the last one: its value is the output layer at the hidden layers
    composed with the activation; without a layer it returns its input. *)
Theorem MLP_call_output_linear (hidden : list (vec -> vec)) (out : vec -> vec)
  (x : vec) :
  MLP_call act_func (hidden ++ [out]) x
  = out (fold_left (fun y layer => act_func (layer y)) hidden x) /\
  MLP_call act_func [] x = x.
Proof.
  split; [|reflexivity]. unfold MLP_call.
  rewrite MLP_layers_hidden by (rewrite length_app; cbn [length]; lia).
  cbn [MLP_layers]. rewrite length_app. cbn [length]. rewrite Z.add_0_l.
  replace (_ =? _)%Z with true by (symmetry; apply Z.eqb_eq; lia).
  reflexivity.
Qed.

End MLPFacts.

(** ** [train_step] and [train_loop] *)

Section TrainingFacts.

Variable TrainState : Type.
Variable array : Type.
Variable grads : Type.
Variable is_None : array -> bool.
Variable apply_model : TrainState -> array -> array -> result (float * grads).
Variable apply_gradients : TrainState -> grads -> TrainState.

Abbreviation train_step' := (train_step is_None apply_model apply_gradients).
Abbreviation train_epochs' := (train_epochs is_None apply_model apply_gradients).
Abbreviation train_loop' := (train_loop is_None apply_model apply_gradients).

(** A step goes through when the loss function raises nothing, and its
    validation loss is zero without validation data. *)
Lemma train_step_total (state : TrainState) (train_X train_y val_X val_y : array) :
  (forall s x y, exists r, apply_model s x y = Ok r) ->
  exists state' train_loss val_loss,
    train_step' state train_X train_y val_X val_y = Ok (state', train_loss, val_loss) /\
    (is_None val_X = true -> val_loss = Float.zero).
Proof.
  intros Htot. unfold train_step.
  destruct (Htot state train_X train_y) as [[tl g] ->]. cbn [rbind].
  destruct (is_None val_X); cbn [negb].
  - cbn [rbind]. do 3 eexists. split; [reflexivity | reflexivity].
  - destruct (Htot state val_X val_y) as [[vl g'] ->]. cbn [rbind].
    do 3 eexists. split; [reflexivity | discriminate].
Qed.

Lemma train_epochs_total (config : NeuralnetConfig)
  (train_X train_y val_X val_y : array) (verbose : bool) (epochs : list Z) :
  (forall s x y, exists r, apply_model s x y = Ok r) ->
  nb_report config <> 0%Z ->
  forall (state : TrainState) (tl vl : list float) (out : list Z),
  exists state' tl' vl' out',
    train_epochs' epochs config train_X train_y val_X val_y verbose state tl vl out
    = inr (state', tl ++ tl', vl ++ vl', out ++ out') /\
    length tl' = length epochs /\ length vl' = length epochs /\
    (is_None val_X = true -> Forall (fun v => v = Float.zero) vl') /\
    (verbose = false -> out' = []) /\
    Forall (fun k => In (k - 1)%Z epochs /\
                     ((k - 1) mod nb_report config = 0)%Z) out'.
Proof.
  intros Htot Hr. induction epochs as [|i epochs IH]; intros state tl vl out.
  - exists state, [], [], []. cbn. rewrite !app_nil_r. auto 10.
  - cbn [train_epochs].
    destruct (train_step_total state train_X train_y val_X val_y Htot)
      as (s1 & t1 & v1 & -> & Hv).
    replace (nb_report config =? 0)%Z with false by (symmetry; now apply Z.eqb_neq).
    cbv zeta.
    set (o1 := if ((i mod nb_report config =? 0)%Z && verbose)%bool
               then [(i + 1)%Z] else []).
    assert (Ho : (if ((i mod nb_report config =? 0)%Z && verbose)%bool
                  then out ++ [(i + 1)%Z] else out) = out ++ o1).
    { unfold o1. destruct (_ && _)%bool; [reflexivity | now rewrite app_nil_r]. }
    rewrite Ho.
    destruct (IH s1 (tl ++ [t1]) (vl ++ [v1]) (out ++ o1))
      as (s' & tl' & vl' & out' & -> & Hl1 & Hl2 & Hz & Hq & Hp).
    exists s', (t1 :: tl'), (v1 :: vl'), (o1 ++ out').
    rewrite <- !app_assoc. cbn [app length].
    split; [reflexivity|]. split; [now rewrite Hl1|]. split; [now rewrite Hl2|].
    split; [|split].
    + intros Hn. constructor; auto.
    + intros ->. unfold o1. rewrite andb_false_r. cbn. now apply Hq.
    + apply Forall_app. split.
      * unfold o1. destruct (i mod nb_report config =? 0)%Z eqn:E; cbn [andb];
          [|constructor]. destruct verbose; constructor; [|constructor].
        replace (i + 1 - 1)%Z with i by lia. split; [now left | now apply Z.eqb_eq].
      * eapply Forall_impl; [|exact Hp]. cbn. intros k [H1 H2]. auto.
Qed.

(** X16.  When the loss function raises nothing and [nb_report] is not
    zero, the training loop returns: it has one training loss and one
    validation loss per epoch (none for a number of epochs that is not
    positive), every validation loss is zero when no validation data is
    given, nothing is printed when [verbose] is off, and the steps reported
    are steps [i + 1] with [i] a multiple of [nb_report]. *)
Theorem train_loop_total (state : TrainState) (config : NeuralnetConfig)
  (train_X train_y val_X val_y : array) (verbose : bool) :
  (forall s x y, exists r, apply_model s x y = Ok r) ->
  nb_report config <> 0%Z ->
  exists state' train_losses val_losses printed,
    train_loop' state config train_X train_y val_X val_y verbose
    = inr (state', train_losses, val_losses, printed) /\
    length train_losses = Z.to_nat (nb_epochs config) /\
    length val_losses = Z.to_nat (nb_epochs config) /\
    (is_None val_X = true -> Forall (fun v => v = Float.zero) val_losses) /\
    (verbose = false -> printed = []) /\
    Forall (fun k => (1 <= k <= nb_epochs config)%Z /\
                     ((k - 1) mod nb_report config = 0)%Z) printed.
Proof.
  intros Htot Hr. unfold train_loop.
  destruct (train_epochs_total config train_X train_y val_X val_y verbose
              (map Z.of_nat (seq 0 (Z.to_nat (nb_epochs config)))) Htot Hr
              state [] [] [])
    as (s' & tl' & vl' & out' & -> & Hl1 & Hl2 & Hz & Hq & Hp).
  rewrite length_map, length_seq in Hl1, Hl2.
  exists s', tl', vl', out'. cbn [app]. repeat split; auto.
  eapply Forall_impl; [|exact Hp]. cbn. intros k [Hin Hm]. split; [|exact Hm].
  apply in_map_iff in Hin. destruct Hin as (j & Hj & Hin).
  apply in_seq in Hin. lia.
Qed.

(** X17.  With [nb_report = 0] and at least one epoch the training loop
    returns nothing, whether [verbose] is on or off: when the first step
    goes through, the report test [i % 0] raises [ZeroDivisionError]. *)
Theorem train_loop_zero_report (state : TrainState) (config : NeuralnetConfig)
  (train_X train_y val_X val_y : array) (verbose : bool) :
  nb_report config = 0%Z ->
  (0 < nb_epochs config)%Z ->
  exists e,
    train_loop' state config train_X train_y val_X val_y verbose = inl e /\
    (forall r, train_step' state train_X train_y val_X val_y = Ok r ->
               e = ZeroDivisionError).
Proof.
  intros Hr Hn. unfold train_loop.
  destruct (Z.to_nat (nb_epochs config)) as [|k] eqn:Ek; [lia|].
  cbn [seq map train_epochs].
  destruct (train_step' state train_X train_y val_X val_y) as [[[s1 t1] v1]|e].
  - rewrite Hr. cbn. exists ZeroDivisionError. split; [reflexivity | reflexivity].
  - exists (Raised e). split; [reflexivity | discriminate].
Qed.

End TrainingFacts.

(** ** [save_model] *)

Lemma endswith_last (s suffix : string) :
  suffix <> EmptyString -> endswith s suffix = true ->
  str_last s = str_last suffix.
Proof.
  intros Hs. induction s as [|c s IH]; cbn [endswith].
  - rewrite orb_false_r. intros H. apply String.eqb_eq in H. now subst suffix.
  - intros H. apply orb_true_iff in H. destruct H as [H|H].
    + apply String.eqb_eq in H. now subst suffix.
    + rewrite <- (IH H). cbn [str_last]. destruct s as [|c' s]; [|reflexivity].
      cbn in H. rewrite orb_false_r in H. destruct suffix; [contradiction | discriminate].
Qed.

(** X18.  [save_model] raises [ValueError] for every file name, before it
    serialises anything or opens a file: the test of line 306 asks the name
    to end in [.pkl] and in [.pickle] at once. *)
Theorem save_model_raises (world TrainState ConfigDict serialized : Type)
  (serialize : TrainState -> ConfigDict -> world -> result serialized * world)
  (pickle_dump : string -> serialized -> world -> result unit * world)
  (state : TrainState) (config : ConfigDict) (out_name : string) (w : world) :
  save_model serialize pickle_dump state config out_name w = (Err ValueError, w).
Proof.
  unfold save_model.
  destruct (endswith out_name ".pkl") eqn:E1; [|reflexivity].
  destruct (endswith out_name ".pickle") eqn:E2; [|reflexivity].
  apply endswith_last in E1, E2; try discriminate.
  rewrite E1 in E2. discriminate.
Qed.

Lemma train_loop_total_witness :
  exists state' train_losses val_losses printed,
    train_loop sample_is_None sample_apply_model (fun s _ => (s + 1)%Z)
               0%Z (sample_config 3 2) (Some []) (Some []) None None true
    = inr (state', train_losses, val_losses, printed) /\
    length train_losses = Z.to_nat 3 /\
    length val_losses = Z.to_nat 3 /\
    (sample_is_None None = true -> Forall (fun v => v = Float.zero) val_losses) /\
    (true = false -> printed = []) /\
    Forall (fun k => (1 <= k <= 3)%Z /\ ((k - 1) mod 2 = 0)%Z) printed.
Proof.
  apply (@train_loop_total Z (option (list float)) unit sample_is_None
           sample_apply_model (fun s _ => (s + 1)%Z) 0%Z (sample_config 3 2)
           (Some []) (Some []) None None true).
  - intros s x y. eexists. reflexivity.
  - discriminate.
Defined.

Lemma train_loop_zero_report_witness :
  exists e,
    train_loop sample_is_None sample_apply_model (fun s _ => (s + 1)%Z)
               0%Z (sample_config 3 0) (Some []) (Some []) None None false
    = inl e /\
    (forall r, train_step sample_is_None sample_apply_model (fun s _ => (s + 1)%Z)
                          0%Z (Some []) (Some []) None None = Ok r ->
               e = ZeroDivisionError).
Proof.
  apply (@train_loop_zero_report Z (option (list float)) unit sample_is_None
           sample_apply_model (fun s _ => (s + 1)%Z) 0%Z (sample_config 3 0)
           (Some []) (Some []) None None false).
  - reflexivity.
  - reflexivity.
Defined.
